(** * StorageManager of es-node (ethstorage/storage_manager.go)

    A shallow embedding of the StorageManager: the local view of the
    most-recent-finalized L1 block, the cache of contract metas
    ([blobMetas]) and the commit, download and read operations built on top
    of the ShardManager and of the L1 source.

    Conventions.
    - [uint64], [int64] and [int] values are integers in [Z]; where the Go
      code can wrap around, the wrap is written out ([wrap_uint64],
      [wrap_int]).
    - a byte is a [Z] in [0, 256); [[]byte], [[32]byte] and [common.Hash]
      are lists of bytes.
    - the ShardManager and the Il1Source are not part of this file of the
      repository: they are interfaces ([ShardManager.Ops], [Il1Source.Ops])
      over an abstract state, and every result below holds for all of their
      implementations unless a hypothesis says otherwise.
    - goroutines are run one after the other, in the order in which they are
      started, and their results are received in that order; for
      [DownloadFinished] the runs under every schedule of its goroutines are
      given too ([DownloadFinishedUnder]), and [DownloadFinished] is the one
      under the schedule task after task; the mutex is not modelled.
    - a Go panic is the outcome [Panicked]; a loop whose counter can wrap
      around runs on fuel, and [OutOfFuel] is the outcome when the fuel
      given by the caller of the loop does not reach its end. *)

From Stdlib Require Import ZArith Lia String.
From stdpp Require Import base gmap list.

Open Scope Z_scope.

(** ** Bytes, slices and fixed-size arrays *)

Abbreviation bytes := (list Z) (only parsing).
Abbreviation Hash := (list Z) (only parsing).   (* common.Hash, [32]byte *)

(** [l[lo:hi]] *)
Definition slice (lo hi : nat) (l : bytes) : bytes := take (hi - lo) (drop lo l).

(** The contents of [dst] after Go's [copy(dst, src)]:
    [min (len dst) (len src)] bytes are copied. *)
Definition copy (dst src : bytes) : bytes :=
  take (length dst) src ++ drop (length src) dst.

(** [common.Hash{}], [[32]byte{}] *)
Definition zeroHash : Hash := replicate 32 0.

(** [bytes.Equal] *)
Definition bytes_Equal (a b : bytes) : bool := bool_decide (a = b).

(** [new(big.Int).SetBytes(b)]: the big-endian value of [b]. *)
Definition SetBytes (b : bytes) : Z := fold_left (fun acc x => acc * 256 + x) b 0.

Definition wrap_uint64 (x : Z) : Z := x mod 2 ^ 64.

(** Conversion to a signed 64-bit integer ([int64(x)], and [int] arithmetic
    on a 64-bit platform). *)
Definition wrap_int (x : Z) : Z := (x + 2 ^ 63) mod 2 ^ 64 - 2 ^ 63.

(** [Uint64()] of a big.Int: the low 64 bits of a non-negative value. *)
Definition Uint64 (x : Z) : Z := wrap_uint64 x.

(** The [n] big-endian digits of [x] in base 256, most significant first. *)
Fixpoint be_digits (n : nat) (x : Z) : bytes :=
  match n with
  | O => []
  | S n' => be_digits n' (x / 256) ++ [x mod 256]
  end.

(** [new(big.Int).SetInt64(x).FillBytes(buf)] with [len(buf) = n]: the
    absolute value of [x], big-endian and zero-extended; it panics ([None])
    when the value does not fit in the buffer. *)
Definition FillBytes (x : Z) (n : nat) : option bytes :=
  if Z.abs x <? 256 ^ Z.of_nat n then Some (be_digits n (Z.abs x)) else None.

(** [l[i]] for an [int] index: out of range is a panic ([None]). *)
Definition index {A} (l : list A) (i : Z) : option A :=
  if i <? 0 then None else l !! Z.to_nat i.

(** ** Constants *)

Definition blobFillingMask : Z := 128.        (* byte(0b10000000) *)
Definition HashSizeInContract : nat := 24.
Definition MetaBatchSize : Z := 8000.
Definition MetaDownloadThread : Z := 32.

(** ** Errors and outcomes *)

(** The error values the StorageManager creates itself, named after their
    messages, and [errExternal] for an error value handed over by the
    ShardManager or the L1 source. *)
Inductive error : Type :=
| errCommitMismatch          (* "commit from contract and input is not matched" *)
| errInvalidParamsLens       (* "invalid params lens" *)
| errNewL1Older              (* "new L1 is older than local L1" *)
| errBlobEncodeFailed        (* "blob encode failed" *)
| errMetadataReadFailed      (* "metadata read failed" *)
| errKvIdxMismatch           (* "kvIdx from contract and input is not matched" *)
| errEncodedBlobWriteFailed  (* "encodedBlob write failed" *)
| errMetaReadingFailed       (* "meta reading failed" *)
| errSyncingOrEmpty          (* "syncing or just empty blob" *)
| errExternal (msg : string).

#[global] Instance error_eq_dec : EqDecision error.
Proof. solve_decision. Defined.

(** The result of running a function: it returns, it panics, or the model
    ran out of fuel in a loop whose number of rounds is not bounded by the
    inputs in an evident way (a wrapped-around counter). *)
Inductive outcome (A : Type) : Type :=
| Returned (a : A)
| Panicked
| OutOfFuel.
Arguments Returned {A} a.
Arguments Panicked {A}.
Arguments OutOfFuel {A}.

#[global] Instance outcome_ret : MRet outcome := @Returned.
#[global] Instance outcome_bind : MBind outcome := λ A B f m,
  match m with
  | Returned a => f a
  | Panicked => Panicked
  | OutOfFuel => OutOfFuel
  end.

(** ** The collaborators *)

Module ShardManager.
(** The operations of the ShardManager the StorageManager calls. An error
    of the ShardManager is its message. Reads and encoding do not change
    the store. *)
Class Ops (SM : Type) : Type := {
  TryWrite : SM -> Z -> bytes -> Hash -> SM * bool * option string;
  TryEncodeKV : SM -> Z -> bytes -> Hash -> bytes * bool * option string;
  TryWriteEncoded : SM -> Z -> bytes -> Hash -> SM * bool * option string;
  TryReadMeta : SM -> Z -> bytes * bool * option string;
  TryReadEncoded : SM -> Z -> Z -> bytes * bool * option string;
}.
End ShardManager.

Module Il1Source.
(** The L1 source is an oracle with a state of its own: two identical
    requests may be answered differently (a request can fail
    occasionally). *)
Class Ops (L : Type) : Type := {
  GetKvMetas : L -> list Z -> Z -> L * (list Hash + string);
  GetStorageLastBlobIdx : L -> Z -> L * (Z + string);
}.
End Il1Source.

(** A call of the ShardManager that writes: the history of these calls is
    kept in the state of the StorageManager as a ghost field. *)
Inductive writeCall : Type :=
| CallTryWrite (kvIdx : Z) (blob : bytes) (commit : Hash)
| CallTryWriteEncoded (kvIdx : Z) (encodedBlob : bytes) (commit : Hash).

Definition writeCall_kvIdx (w : writeCall) : Z :=
  match w with
  | CallTryWrite k _ _ => k
  | CallTryWriteEncoded k _ _ => k
  end.

(** [err != nil] *)
Definition notNil {A} (err : option A) : bool :=
  match err with Some _ => true | None => false end.

(** An outcome of the per-slot rule after which an empty fill goes on: the
    slot was committed, or the contract expects content there. *)
Definition softOutcome (r : option error) : bool :=
  match r with
  | None => true
  | Some e => bool_decide (e = errCommitMismatch)
  end.

Definition committed (r : option error) : bool :=
  match r with
  | None => true
  | Some _ => false
  end.

(** ** prepareCommit *)

Definition prepareCommit (commit : Hash) : Hash :=
  let c := zeroHash in
  let c := copy (slice 0 HashSizeInContract c) (slice 0 HashSizeInContract commit)
           ++ drop HashSizeInContract c in
  <[HashSizeInContract := Z.lor (c !!! HashSizeInContract) blobFillingMask]> c.

(** The meta record [updateLocalMetas] builds for [idx]: the index in bytes
    [0,5), the first 24 bytes of the commit in bytes [8,32). [None] when
    [FillBytes] panics. *)
Definition localMetaOf (idx : Z) (commit : Hash) : option Hash :=
  let meta := zeroHash in
  b ← FillBytes (wrap_int idx) 5;
  let meta := copy (slice 0 5 meta) b ++ drop 5 meta in
  Some (take (32 - HashSizeInContract) meta
        ++ copy (slice (32 - HashSizeInContract) 32 meta) (slice 0 HashSizeInContract commit)).

(** [for i, meta := range metas { blobMetas[kvIndices[i]] = meta }]:
    [None] when [kvIndices[i]] is out of range. *)
Fixpoint installMetas (m : gmap Z Hash) (kvIndices : list Z) (metas : list Hash)
  : option (gmap Z Hash) :=
  match metas with
  | [] => Some m
  | meta :: metas' =>
      match kvIndices with
      | [] => None
      | k :: ks => installMetas (<[k := meta]> m) ks metas'
      end
  end.

(** [for i := taskIdx; i < len(kvIndices); i += taskNum]: the positions of
    one task. *)
Fixpoint insertIdxInTask (fuel : nat) (i len taskNum : Z) : outcome (list Z) :=
  match fuel with
  | O => if i <? len then OutOfFuel else Returned []
  | S fuel' =>
      if i <? len then
        rest ← insertIdxInTask fuel' (wrap_int (i + taskNum)) len taskNum;
        Returned (i :: rest)
      else Returned []
  end.

(** [for taskIdx < taskNum { if taskIdx >= len(kvIndices) { break } ... }]:
    the positions of every task that is started, in the order of the
    tasks. *)
Fixpoint taskLoop (fuel : nat) (taskIdx taskNum len : Z) : outcome (list (list Z)) :=
  match fuel with
  | O => if (taskIdx <? taskNum) && negb (taskIdx >=? len) then OutOfFuel else Returned []
  | S fuel' =>
      if taskIdx <? taskNum then
        if taskIdx >=? len then Returned []
        else
          t ← insertIdxInTask (Z.to_nat len) taskIdx len taskNum;
          ts ← taskLoop fuel' (wrap_int (taskIdx + 1)) taskNum len;
          Returned (t :: ts)
      else Returned []
  end.

(** The positions [k, k+N, k+2N, ...] below [M], in this order. *)
Definition positionsOf (k N M : Z) : list Z :=
  (λ j, k + j * N) <$> seqZ 0 ((M - k + N - 1) / N).

(** The first error received from the result channel, if any. *)
Fixpoint firstError {E} (results : list (option E)) : option E :=
  match results with
  | [] => None
  | Some e :: _ => Some e
  | None :: rest => firstError rest
  end.

(** The call [w] is the write of the triple at position [i] of the inputs
    of [DownloadFinished]. *)
Definition writeOfPosition (kvIndices : list Z) (blobs : list bytes) (commits : list Hash)
    (i : Z) (w : writeCall) : Prop :=
  ∃ kvIdx blob commit,
    index kvIndices i = Some kvIdx ∧ index blobs i = Some blob
    ∧ index commits i = Some commit
    ∧ w = CallTryWrite kvIdx blob (prepareCommit commit).

(** ** The StorageManager *)

Section Manager.
Context {SM L : Type} `{!ShardManager.Ops SM} `{!Il1Source.Ops L}.

Record StorageManager : Type := mkStorageManager {
  shardManager : SM;
  localL1 : Z;                 (* local view of most-recent-finalized L1 block *)
  lastKvIdx : Z;               (* lastKvIndex in the most-recent-finalized L1 block *)
  l1Source : L;
  DownloadThreadNum : Z;
  blobMetas : gmap Z Hash;
  writeLog : list writeCall;   (* ghost: the writing calls made so far *)
}.

Definition NewStorageManager (sm : SM) (l1 : L) : StorageManager :=
  {| shardManager := sm; localL1 := 0; lastKvIdx := 0; l1Source := l1;
     DownloadThreadNum := 0; blobMetas := ∅; writeLog := [] |}.

Definition with_shardManager (s : StorageManager) (sm : SM) (w : writeCall) :=
  {| shardManager := sm; localL1 := localL1 s; lastKvIdx := lastKvIdx s;
     l1Source := l1Source s; DownloadThreadNum := DownloadThreadNum s;
     blobMetas := blobMetas s; writeLog := writeLog s ++ [w] |}.

Definition with_l1Source (s : StorageManager) (l : L) :=
  {| shardManager := shardManager s; localL1 := localL1 s; lastKvIdx := lastKvIdx s;
     l1Source := l; DownloadThreadNum := DownloadThreadNum s;
     blobMetas := blobMetas s; writeLog := writeLog s |}.

Definition with_lastKvIdx (s : StorageManager) (v : Z) :=
  {| shardManager := shardManager s; localL1 := localL1 s; lastKvIdx := v;
     l1Source := l1Source s; DownloadThreadNum := DownloadThreadNum s;
     blobMetas := blobMetas s; writeLog := writeLog s |}.

Definition with_localL1 (s : StorageManager) (v : Z) :=
  {| shardManager := shardManager s; localL1 := v; lastKvIdx := lastKvIdx s;
     l1Source := l1Source s; DownloadThreadNum := DownloadThreadNum s;
     blobMetas := blobMetas s; writeLog := writeLog s |}.

Definition with_blobMetas (s : StorageManager) (m : gmap Z Hash) :=
  {| shardManager := shardManager s; localL1 := localL1 s; lastKvIdx := lastKvIdx s;
     l1Source := l1Source s; DownloadThreadNum := DownloadThreadNum s;
     blobMetas := m; writeLog := writeLog s |}.

(** [s.shardManager.TryWrite], recorded in the history. *)
Definition shardTryWrite (s : StorageManager) (kvIdx : Z) (blob : bytes) (c : Hash)
  : StorageManager * bool * option string :=
  let '(sm, success, err) := ShardManager.TryWrite (shardManager s) kvIdx blob c in
  (with_shardManager s sm (CallTryWrite kvIdx blob c), success, err).

(** [s.shardManager.TryWriteEncoded], recorded in the history. *)
Definition shardTryWriteEncoded (s : StorageManager) (kvIdx : Z) (encodedBlob : bytes) (c : Hash)
  : StorageManager * bool * option string :=
  let '(sm, success, err) := ShardManager.TryWriteEncoded (shardManager s) kvIdx encodedBlob c in
  (with_shardManager s sm (CallTryWriteEncoded kvIdx encodedBlob c), success, err).

(** *** getKvMetas: a missing key of a Go map reads as the zero value *)
Definition getKvMetas (s : StorageManager) (kvIndices : list Z) : list Hash :=
  (λ i, default zeroHash (blobMetas s !! i)) <$> kvIndices.

(** *** updateLocalMetas *)
Fixpoint updateLocalMetas (s : StorageManager) (items : list (Z * Hash))
  : outcome StorageManager :=
  match items with
  | [] => Returned s
  | (idx, commit) :: rest =>
      match localMetaOf idx commit with
      | None => Panicked
      | Some meta => updateLocalMetas (with_blobMetas s (<[idx := meta]> (blobMetas s))) rest
      end
  end.

(** *** DownloadFinished *)

(** The body of one goroutine: the writes of its positions, until the first
    error. *)
Fixpoint writeTask (s : StorageManager) (insertIdx : list Z)
    (kvIndices : list Z) (blobs : list bytes) (commits : list Hash)
  : outcome (StorageManager * option string) :=
  match insertIdx with
  | [] => Returned (s, None)
  | idx :: rest =>
      match index commits idx, index kvIndices idx, index blobs idx with
      | Some commit, Some kvIdx, Some blob =>
          let c := prepareCommit commit in
          (* if return false, just ignore *)
          let '(s', _, err) := shardTryWrite s kvIdx blob c in
          match err with
          | Some e => Returned (s', Some e)
          | None => writeTask s' rest kvIndices blobs commits
          end
      | _, _, _ => Panicked
      end
  end.

(** Every task runs to its end, whatever the others report. *)
Fixpoint runTasks (s : StorageManager) (tasks : list (list Z))
    (kvIndices : list Z) (blobs : list bytes) (commits : list Hash)
  : outcome (StorageManager * list (option string)) :=
  match tasks with
  | [] => Returned (s, [])
  | t :: ts =>
      '(s1, r) ← writeTask s t kvIndices blobs commits;
      '(s2, rs) ← runTasks s1 ts kvIndices blobs commits;
      Returned (s2, r :: rs)
  end.

Definition DownloadFinished (s : StorageManager) (newL1 : Z)
    (kvIndices : list Z) (blobs : list bytes) (commits : list Hash)
  : outcome (StorageManager * option error) :=
  if bool_decide (length kvIndices ≠ length blobs) || bool_decide (length blobs ≠ length commits)
  then Returned (s, Some errInvalidParamsLens)
  else if newL1 <=? localL1 s then Returned (s, Some errNewL1Older)
  else
    let '(l, r) := Il1Source.GetStorageLastBlobIdx (l1Source s) newL1 in
    match r with
    | inr e => Returned (with_l1Source s l, Some (errExternal e))
    | inl lastKvIdx =>
        let s := with_lastKvIdx (with_l1Source s l) lastKvIdx in
        let taskNum := DownloadThreadNum s in
        (* make(chan error, taskNum) *)
        if taskNum <? 0 then Panicked
        else
          let len := Z.of_nat (length kvIndices) in
          tasks ← taskLoop (Z.to_nat len) 0 taskNum len;
          '(s, results) ← runTasks s tasks kvIndices blobs commits;
          match firstError results with
          | Some e => Returned (s, Some (errExternal e))
          | None =>
              let s := with_localL1 s newL1 in
              s ← updateLocalMetas s (zip kvIndices commits);
              Returned (s, None)
          end
    end.

(** *** Reset *)
Definition Reset (s : StorageManager) (newL1 : Z) : StorageManager * option error :=
  let '(l, r) := Il1Source.GetStorageLastBlobIdx (l1Source s) newL1 in
  match r with
  | inr e => (with_l1Source s l, Some (errExternal e))
  | inl lastKvIdx => (with_localL1 (with_lastKvIdx (with_l1Source s l) lastKvIdx) newL1, None)
  end.

(** *** commitEncodedBlob *)
Definition commitEncodedBlob (s : StorageManager) (kvIndex : Z) (encodedBlob : bytes)
    (commit : Hash) (contractMeta : Hash) : StorageManager * option error :=
  if negb (bytes_Equal (slice (32 - HashSizeInContract) 32 contractMeta)
                       (slice 0 HashSizeInContract commit))
  then (s, Some errCommitMismatch)
  else
    let '(m, success, err) := ShardManager.TryReadMeta (shardManager s) kvIndex in
    if negb success || notNil err then (s, Some errMetadataReadFailed)
    else
      let contractKvIdx := Uint64 (SetBytes (slice 0 5 contractMeta)) in
      if bool_decide (contractKvIdx ≠ kvIndex) then (s, Some errKvIdxMismatch)
      else
        let localMeta := copy zeroHash m in
        if bytes_Equal (slice 0 HashSizeInContract localMeta) (slice 0 HashSizeInContract commit)
           && bool_decide (Z.land (localMeta !!! HashSizeInContract) blobFillingMask ≠ 0)
        then (s, None)
        else
          let c := prepareCommit commit in
          let '(s', success, err) := shardTryWriteEncoded s kvIndex encodedBlob c in
          if negb success || notNil err then (s', Some errEncodedBlobWriteFailed)
          else (s', None).

(** *** CommitBlob *)
Definition CommitBlob (s : StorageManager) (kvIndex : Z) (blob : bytes) (commit : Hash)
  : StorageManager * option error :=
  let '(encodedBlob, success, err) :=
    ShardManager.TryEncodeKV (shardManager s) kvIndex blob commit in
  if negb success || notNil err then (s, Some errBlobEncodeFailed)
  else
    let metas := getKvMetas s [kvIndex] in
    match metas with
    | [contractMeta] => commitEncodedBlob s kvIndex encodedBlob commit contractMeta
    | _ => (s, Some errInvalidParamsLens)
    end.

(** *** CommitBlobs *)

(** The first loop: [encodedBlobs[i]] and [encoded[i]] for every position.
    [log.Warn(..., err.Error())] panics when the encoding fails without an
    error value. *)
Fixpoint encodeBlobs (sm : SM) (items : list (Z * (bytes * Hash)))
  : outcome (list (bytes * bool)) :=
  match items with
  | [] => Returned []
  | (kvIdx, (blob, commit)) :: rest =>
      let '(encodedBlob, success, err) := ShardManager.TryEncodeKV sm kvIdx blob commit in
      if negb success || notNil err then
        match err with
        | None => Panicked
        | Some _ => r ← encodeBlobs sm rest; Returned (([], false) :: r)
        end
      else r ← encodeBlobs sm rest; Returned ((encodedBlob, true) :: r)
  end.

(** The second loop, over [metas], with the entries of the other slices at
    the same position. *)
Fixpoint commitBlobsLoop (s : StorageManager)
    (items : list (Hash * (Z * ((bytes * bool) * Hash)))) (inserted : list Z)
  : StorageManager * list Z :=
  match items with
  | [] => (s, inserted)
  | (contractMeta, (kvIdx, ((encodedBlob, encoded), commit))) :: rest =>
      if negb encoded then commitBlobsLoop s rest inserted
      else
        let '(s', err) := commitEncodedBlob s kvIdx encodedBlob commit contractMeta in
        match err with
        | Some _ => commitBlobsLoop s' rest inserted
        | None => commitBlobsLoop s' rest (inserted ++ [kvIdx])
        end
  end.

Definition CommitBlobs (s : StorageManager)
    (kvIndices : list Z) (blobs : list bytes) (commits : list Hash)
  : outcome (StorageManager * (list Z * option error)) :=
  if bool_decide (length kvIndices ≠ length blobs) || bool_decide (length blobs ≠ length commits)
  then Returned (s, ([], Some errInvalidParamsLens))
  else
    enc ← encodeBlobs (shardManager s) (zip kvIndices (zip blobs commits));
    let metas := getKvMetas s kvIndices in
    let '(s', inserted) :=
      commitBlobsLoop s (zip metas (zip kvIndices (zip enc commits))) [] in
    Returned (s', (inserted, None)).

(** *** CommitEmptyBlobs *)

(** The first loop, [for i := start; i <= limit; i++]: the indices whose
    empty blob is encoded, with the encoded blob, up to the first failure.
    When [limit] is the largest [uint64] the condition never fails and the
    loop ends only at a failing encoding. *)
Fixpoint encodeEmptyLoop (fuel : nat) (sm : SM) (i limit : Z) : outcome (list (Z * bytes)) :=
  match fuel with
  | O => if i <=? limit then OutOfFuel else Returned []
  | S fuel' =>
      if i <=? limit then
        let '(encodedBlob, success, err) := ShardManager.TryEncodeKV sm i [] zeroHash in
        if negb success || notNil err then
          match err with
          | None => Panicked
          | Some _ => Returned []
          end
        else
          rest ← encodeEmptyLoop fuel' sm (wrap_uint64 (i + 1)) limit;
          Returned ((i, encodedBlob) :: rest)
      else Returned []
  end.

(** The second loop, [for i, index := range kvIndices]. *)
Fixpoint commitEmptyLoop (s : StorageManager) (items : list ((Z * bytes) * Hash))
    (inserted next : Z) : StorageManager * Z * Z :=
  match items with
  | [] => (s, inserted, next)
  | ((index, encodedBlob), meta) :: rest =>
      let '(s', err) := commitEncodedBlob s index encodedBlob zeroHash meta in
      match err with
      | None =>
          commitEmptyLoop s' rest (wrap_uint64 (inserted + 1)) (wrap_uint64 (next + 1))
      | Some e =>
          if bool_decide (e ≠ errCommitMismatch) then (s', inserted, next)
          else commitEmptyLoop s' rest inserted (wrap_uint64 (next + 1))
      end
  end.

Definition CommitEmptyBlobs (s : StorageManager) (start limit : Z)
  : outcome (StorageManager * (Z * Z * option error)) :=
  items ← encodeEmptyLoop (Z.to_nat (limit - start + 1)) (shardManager s) start limit;
  let metas := getKvMetas s (items.*1) in
  let '(s', inserted, next) := commitEmptyLoop s (zip items metas) 0 start in
  Returned (s', (inserted, next, None)).

(** *** syncCheck and TryReadEncoded *)
Definition syncCheck (s : StorageManager) (kvIdx : Z) : option error :=
  let '(meta, success, err) := ShardManager.TryReadMeta (shardManager s) kvIdx in
  if negb success || notNil err then Some errMetaReadingFailed
  else
    let h0 := zeroHash in
    let h1 := zeroHash in
    let h1 := <[HashSizeInContract := Z.lor (h1 !!! HashSizeInContract) blobFillingMask]> h1 in
    let hash := copy zeroHash meta in
    if bool_decide (hash = h0) || bool_decide (hash = h1) then Some errSyncingOrEmpty
    else None.

Definition TryReadEncoded (s : StorageManager) (kvIdx readLen : Z)
  : bytes * bool * option error :=
  match syncCheck s kvIdx with
  | Some err => ([], false, Some err)
  | None =>
      let '(b, ok, err) := ShardManager.TryReadEncoded (shardManager s) kvIdx readLen in
      (b, ok, errExternal <$> err)
  end.

Definition TryReadMeta (s : StorageManager) (kvIdx : Z) : bytes * bool * option error :=
  let '(b, ok, err) := ShardManager.TryReadMeta (shardManager s) kvIdx in
  (b, ok, errExternal <$> err).

Definition LastKvIndex (s : StorageManager) : Z := lastKvIdx s.

(** *** downloadMetaInRange and downloadMetaInParallel *)

(** [for from < to { ... }]. One round requests the metas of
    [[from, batchLimit)], a second time when the first request fails, and
    installs them. The test on [localL1] is the one of the source; no other
    goroutine runs in between here, so it never fires. *)
Fixpoint downloadMetaInRangeLoop (fuel : nat) (s : StorageManager) (from to : Z)
  : outcome (StorageManager * option error) :=
  match fuel with
  | O => if from <? to then OutOfFuel else Returned (s, None)
  | S fuel' =>
      if from <? to then
        let batchLimit := wrap_uint64 (from + MetaBatchSize) in
        let batchLimit := if batchLimit >? to then to else batchLimit in
        let kvIndices := seqZ from (batchLimit - from) in
        let localL1' := localL1 s in
        let '(l, r) := Il1Source.GetKvMetas (l1Source s) kvIndices localL1' in
        let '(l, r) :=
          match r with
          | inr _ => Il1Source.GetKvMetas l kvIndices localL1'
          | inl _ => (l, r)
          end in
        let s := with_l1Source s l in
        match r with
        | inr e => Returned (s, Some (errExternal e))
        | inl metas =>
            if bool_decide (localL1' ≠ localL1 s) then downloadMetaInRangeLoop fuel' s from to
            else
              match installMetas (blobMetas s) kvIndices metas with
              | None => Panicked
              | Some m => downloadMetaInRangeLoop fuel' (with_blobMetas s m) batchLimit to
              end
        end
      else Returned (s, None)
  end.

Definition downloadMetaInRange (s : StorageManager) (from to taskId : Z)
  : outcome (StorageManager * option error) :=
  downloadMetaInRangeLoop (Z.to_nat (to - from)) s from to.

(** [for taskIdx := uint64(0); taskIdx < taskNum; taskIdx++]: every task
    downloads its range; the results are those sent to the channel. *)
Fixpoint metaTaskLoop (fuel : nat) (s : StorageManager) (taskIdx taskNum rangeSize to : Z)
  : outcome (StorageManager * list (option error)) :=
  match fuel with
  | O => if taskIdx <? taskNum then OutOfFuel else Returned (s, [])
  | S fuel' =>
      if taskIdx <? taskNum then
        let rangeStart := wrap_uint64 (taskIdx * rangeSize) in
        let rangeEnd := wrap_uint64 ((taskIdx + 1) * rangeSize) in
        let rangeEnd := if bool_decide (taskIdx = taskNum - 1) then to else rangeEnd in
        '(s1, r) ← downloadMetaInRange s rangeStart rangeEnd taskIdx;
        '(s2, rs) ← metaTaskLoop fuel' s1 (wrap_uint64 (taskIdx + 1)) taskNum rangeSize to;
        Returned (s2, r :: rs)
      else Returned (s, [])
  end.

Definition downloadMetaInParallel (s : StorageManager) (from to : Z)
  : outcome (StorageManager * option error) :=
  let taskNum := MetaDownloadThread in
  (* We don't need to download in parallel if the meta amount is small *)
  if wrap_uint64 (to - from) <? wrap_uint64 (taskNum * MetaBatchSize)
  then downloadMetaInRange s from to 0
  else
    let rangeSize := wrap_uint64 (to - from) / taskNum in
    '(s', results) ← metaTaskLoop (Z.to_nat taskNum) s 0 taskNum rangeSize to;
    Returned (s', firstError results).

(** *** The per-slot rule over a list of slots

    [applyRule] applies [commitEncodedBlob] with the empty commit to the
    items of a list, in the order of the list and to each of them: the
    final state and the outcome for each item. It is the yardstick for the
    loop of [CommitEmptyBlobs], which may stop early. *)
Fixpoint applyRule (s : StorageManager) (items : list ((Z * bytes) * Hash))
  : StorageManager * list (option error) :=
  match items with
  | [] => (s, [])
  | ((index, encodedBlob), meta) :: rest =>
      let '(s1, r) := commitEncodedBlob s index encodedBlob zeroHash meta in
      let '(s2, outs) := applyRule s1 rest in
      (s2, r :: outs)
  end.

(** *** States that differ in the store and the history of writes only *)
Definition onlyStoreChanged (s s' : StorageManager) : Prop :=
  localL1 s' = localL1 s ∧ lastKvIdx s' = lastKvIdx s ∧ l1Source s' = l1Source s
  ∧ DownloadThreadNum s' = DownloadThreadNum s ∧ blobMetas s' = blobMetas s.

(** *** A static L1 source

    In the state [l] the source answers every request for metas, with the
    meta [f blockNumber kvIdx] for the index [kvIdx], and stays in [l]. *)
Definition staticSource (l : L) (f : Z → Z → Hash) : Prop :=
  ∀ (kvIndices : list Z) (blockNumber : Z),
    Il1Source.GetKvMetas l kvIndices blockNumber = (l, inl (f blockNumber <$> kvIndices)).

End Manager.

Arguments StorageManager : clear implicits.

(** ** An in-memory ShardManager and a static L1 source

    Small implementations of the two interfaces, to run the StorageManager
    on concrete inputs. *)

Module Mem.

(** Slots [0 .. kvEntries-1] exist; the meta of a slot that was never
    written is zero; a write to a slot in [faulty] fails with an error. *)
Record store : Type := mkStore {
  cells : gmap Z (Hash * bytes);
  kvEntries : Z;
  faulty : list Z;
}.

Definition hasSlot (st : store) (kvIdx : Z) : bool := (0 <=? kvIdx) && (kvIdx <? kvEntries st).

Definition write (st : store) (kvIdx : Z) (b : bytes) (c : Hash) : store * bool * option string :=
  if bool_decide (kvIdx ∈ faulty st) then (st, false, Some "write failed"%string)
  else if hasSlot st kvIdx then
    (mkStore (<[kvIdx := (c, b)]> (cells st)) (kvEntries st) (faulty st), true, None)
  else (st, false, None).

#[global] Instance store_ops : ShardManager.Ops store := {|
  ShardManager.TryWrite := write;
  ShardManager.TryEncodeKV st kvIdx b c :=
    if hasSlot st kvIdx then (b, true, None) else ([], false, None);
  ShardManager.TryWriteEncoded := write;
  ShardManager.TryReadMeta st kvIdx :=
    if hasSlot st kvIdx then (default zeroHash (fst <$> cells st !! kvIdx), true, None)
    else ([], false, None);
  ShardManager.TryReadEncoded st kvIdx readLen :=
    if hasSlot st kvIdx then (take (Z.to_nat readLen) (default [] (snd <$> cells st !! kvIdx)), true, None)
    else ([], false, None);
|}.

(** The meta the contract holds for a slot without content: the index
    alone. *)
Definition indexMeta (kvIdx : Z) : Hash := be_digits 5 kvIdx ++ replicate 27 0.

(** A ledger that answers every request, always in the same way. *)
Record ledger : Type := mkLedger {
  metas : gmap Z Hash;
  lastIdxAt : Z → Z;     (* the last blob index as of a block *)
}.

Definition metaAt (l : ledger) (kvIdx : Z) : Hash := default (indexMeta kvIdx) (metas l !! kvIdx).

#[global] Instance ledger_ops : Il1Source.Ops ledger := {|
  Il1Source.GetKvMetas l kvIndices blockNumber := (l, inl (metaAt l <$> kvIndices));
  Il1Source.GetStorageLastBlobIdx l blockNumber := (l, inl (lastIdxAt l blockNumber));
|}.

Definition emptyStore (n : Z) : store := mkStore ∅ n [].

(** A manager whose view is the block [l1] of the ledger. *)
Definition manager (st : store) (l : ledger) (l1 : Z) (threads : Z) (cache : gmap Z Hash)
  : StorageManager store ledger :=
  mkStorageManager st l1 (lastIdxAt l l1) l threads cache [].

End Mem.

(** ** Concrete inputs *)

Module Scenario.

(** A commit with a non-zero prefix, and the meta the contract holds for a
    slot with a commit. *)
Definition commitA : Hash := replicate 24 7 ++ replicate 8 9.

Definition contractMetaOf (kvIdx : Z) (commit : Hash) : Hash :=
  be_digits 5 kvIdx ++ [0; 0; 0] ++ take 24 commit.

(** The last blob index is 3 before block 40 and 9 from block 40 on. *)
Definition ledger0 : Mem.ledger :=
  Mem.mkLedger {[ 3 := contractMetaOf 3 commitA ]} (λ blockNumber, if blockNumber <? 40 then 3 else 9).

(** Sixteen slots, none written; the view is block 5; two download
    threads; the cache holds the contract metas of slots 1 to 4, of which
    slot 3 has content. *)
Definition s0 : StorageManager Mem.store Mem.ledger :=
  Mem.manager (Mem.emptyStore 16) ledger0 5 2
    {[ 1 := Mem.indexMeta 1; 2 := Mem.indexMeta 2;
       3 := contractMetaOf 3 commitA; 4 := Mem.indexMeta 4 ]}.

(** The same, with a store whose slot 2 cannot be written. *)
Definition sFaulty : StorageManager Mem.store Mem.ledger :=
  Mem.manager (Mem.mkStore ∅ 16 [2]) ledger0 5 2 ∅.

(** The same as [s0], with an empty cache. *)
Definition sFresh : StorageManager Mem.store Mem.ledger :=
  Mem.manager (Mem.emptyStore 16) ledger0 5 2 ∅.

End Scenario.

(** ** A source with a failing index *)

Section FailingSource.
Context {L : Type} `{!Il1Source.Ops L}.

(** In the state [l] the source answers as a static source does, except
    that every request that asks for the index [bad] fails with [msg]. *)
Definition failingSource (l : L) (f : Z → Z → Hash) (bad : Z) (msg : string) : Prop :=
  ∀ (kvIndices : list Z) (blockNumber : Z),
    Il1Source.GetKvMetas l kvIndices blockNumber
    = (l, if bool_decide (bad ∈ kvIndices) then inr msg
          else inl (f blockNumber <$> kvIndices)).

End FailingSource.

(** The index [x] lies in the range [downloadMetaInParallel] gives to its
    task [j] when the range of the download starts at 0: task [j] has
    [[j * rangeSize, (j + 1) * rangeSize)], the last task goes up to [to]. *)
Definition taskRange (rangeSize to j x : Z) : Prop :=
  j * rangeSize ≤ x
  < (if bool_decide (j = MetaDownloadThread - 1) then to else (j + 1) * rangeSize).

(** ** DownloadAllMetas *)

(** [rpc.FinalizedBlockNumber] *)
Definition FinalizedBlockNumber : Z := -3.

Module ShardLayout.
(** What [DownloadAllMetas] reads of the ShardManager: [kvEntries], and the
    keys of [ShardMap()] in the order in which the [range] loop of
    [Shards] yields them. *)
Class Ops (SM : Type) : Type := {
  kvEntries : SM → Z;
  ShardMap : SM → list Z;
}.
End ShardLayout.

Module Il1Header.
(** [HeaderByNumber] of the Il1Source, reduced to [header.Number]; [None]
    is a nil header returned without an error. *)
Class Ops (L : Type) : Type := {
  HeaderByNumber : L → Z → L * (option Z + string);
}.
End Il1Header.

Section AllMetas.
Context {SM L : Type} `{!ShardManager.Ops SM} `{!Il1Source.Ops L}
        `{!ShardLayout.Ops SM} `{!Il1Header.Ops L}.

Definition KvEntries (s : StorageManager SM L) : Z := ShardLayout.kvEntries (shardManager s).

Definition Shards (s : StorageManager SM L) : list Z := ShardLayout.ShardMap (shardManager s).

(** The meta of a slot without content: the index in bytes [0,5), zero
    elsewhere. [None] when [FillBytes] panics. *)
Definition emptyMetaOf (i : Z) : option Hash :=
  let meta := zeroHash in
  b ← FillBytes (wrap_int i) 5;
  Some (copy (slice 0 5 meta) b ++ drop 5 meta).

(** [for i := end; i < limit; i++ { ... s.blobMetas[i] = meta }] *)
Fixpoint fillEmptyMetas (s : StorageManager SM L) (indices : list Z)
  : outcome (StorageManager SM L) :=
  match indices with
  | [] => Returned s
  | i :: rest =>
      match emptyMetaOf i with
      | None => Panicked
      | Some meta => fillEmptyMetas (with_blobMetas s (<[i := meta]> (blobMetas s))) rest
      end
  end.

(** [for _, sid := range s.Shards() { ... }] *)
Fixpoint downloadShards (s : StorageManager SM L) (shards : list Z) (lastKvIdx : Z)
  : outcome (StorageManager SM L * option error) :=
  match shards with
  | [] => Returned (s, None)
  | sid :: rest =>
      let first := wrap_uint64 (KvEntries s * sid) in
      let limit := wrap_uint64 (KvEntries s * wrap_uint64 (sid + 1)) in
      (* batch request metas until the lastKvIdx *)
      let end_ := limit in
      let end_ := if end_ >? lastKvIdx then lastKvIdx else end_ in
      '(s1, err) ← downloadMetaInParallel s first end_;
      match err with
      | Some e => Returned (s1, Some e)
      | None =>
          (* empty blobs *)
          s2 ← fillEmptyMetas s1 (seqZ end_ (limit - end_));
          downloadShards s2 rest lastKvIdx
      end
  end.

Definition DownloadAllMetas (s : StorageManager SM L)
  : outcome (StorageManager SM L * option error) :=
  let '(l, r) := Il1Header.HeaderByNumber (l1Source s) FinalizedBlockNumber in
  let s := with_l1Source s l in
  match r with
  | inr e => Returned (s, Some (errExternal e))
  | inl None => Panicked
  | inl (Some number) =>
      let l1 := wrap_int number in
      let '(l, r) := Il1Source.GetStorageLastBlobIdx (l1Source s) l1 in
      let s := with_l1Source s l in
      match r with
      | inr e => Returned (s, Some (errExternal e))
      | inl lastKvIdx => downloadShards s (Shards s) lastKvIdx
      end
  end.

(** What the cache is to hold for the index [k] when the last blob index
    is [lastKvIdx]: the meta of the source below it, the empty meta from it
    on. *)
Definition expectedMeta (f : Z → Hash) (lastKvIdx k : Z) : option Hash :=
  if decide (k < lastKvIdx) then Some (f k) else emptyMetaOf k.

End AllMetas.

(** The in-memory store is one shard, shard 0; the finalized header of the
    in-memory ledger is block 64. *)
#[global] Instance Mem_store_layout : ShardLayout.Ops Mem.store := {|
  ShardLayout.kvEntries := Mem.kvEntries;
  ShardLayout.ShardMap st := [0];
|}.

#[global] Instance Mem_ledger_header : Il1Header.Ops Mem.ledger := {|
  Il1Header.HeaderByNumber l number := (l, inl (Some 64));
|}.

(** ** A scripted L1 source *)

Module Script.

(** A ledger whose answers to [GetKvMetas] are scripted: the requests are
    answered from [answers], in order, and by [rule] once the script is
    used up. *)
Record ledger : Type := mkLedger {
  answers : list (list Hash + string);
  rule : list Z → list Hash + string;
  lastIdx : Z + string;
}.

#[global] Instance ledger_ops : Il1Source.Ops ledger := {|
  Il1Source.GetKvMetas l kvIndices blockNumber :=
    match answers l with
    | a :: rest => (mkLedger rest (rule l) (lastIdx l), a)
    | [] => (l, rule l kvIndices)
    end;
  Il1Source.GetStorageLastBlobIdx l blockNumber := (l, lastIdx l);
|}.

(** Every request that asks for [bad] fails. *)
Definition failsOn (bad : Z) (msg : string) (kvIndices : list Z) : list Hash + string :=
  if bool_decide (bad ∈ kvIndices) then inr msg else inl (Mem.indexMeta <$> kvIndices).

Definition manager (l : ledger) : StorageManager Mem.store ledger :=
  mkStorageManager (Mem.emptyStore 16) 5 3 l 2 ∅ [].

(** The first request times out. *)
Definition sFlaky : StorageManager Mem.store ledger :=
  manager (mkLedger [inr "timeout"%string] (λ ks, inl (Mem.indexMeta <$> ks)) (inl 3)).

(** The first answer has one meta, whatever was asked. *)
Definition sShort : StorageManager Mem.store ledger :=
  manager (mkLedger [inl [Mem.indexMeta 0]] (λ ks, inl (Mem.indexMeta <$> ks)) (inl 3)).

(** The requests for index 5 fail. *)
Definition sHole : StorageManager Mem.store ledger :=
  manager (mkLedger [] (failsOn 5 "unavailable") (inl 3)).

End Script.

(** [Scenario.sFresh] with no download thread. *)
Definition sIdle : StorageManager Mem.store Mem.ledger :=
  Mem.manager (Mem.emptyStore 16) Scenario.ledger0 5 0 ∅.

(** ** The goroutines of DownloadFinished under a schedule

    [DownloadFinished] starts its tasks as goroutines and waits for all of
    them. The writes of different tasks may interleave in any way, and the
    results reach [chanRes] in the order in which the tasks end. A schedule
    names, step by step, the task that moves next. *)

(** A goroutine: in its loop, with the positions it still has to write;
    out of the loop after a write that failed, with the error to send; or
    at its end, with the value it has sent. *)
Inductive worker : Type :=
| Writing (todo : list Z)
| Failed (err : string)
| Finished (err : option string).

(** The goroutines (task [k] at index [k]), the values sent to [chanRes],
    first sent first, and the writes made so far as (task, position),
    oldest first. *)
Record pool : Type := mkPool {
  workers : list worker;
  chanRes : list (option string);
  written : list (nat * Z);
}.

Definition isFinished (w : worker) : bool :=
  match w with Finished _ => true | _ => false end.

(** The steps a goroutine has still to make: its writes and its send. *)
Definition stepsLeft (w : worker) : nat :=
  match w with
  | Writing todo => S (length todo)
  | Failed _ => 1
  | Finished _ => 0
  end.

(** The positions task [k] has written, in the order of its writes. *)
Definition writtenBy (k : nat) (ws : list (nat * Z)) : list Z :=
  (filter (λ x, x.1 = k) ws).*2.

(** Task after task: task 0 until it ends, then task 1, and so on, for
    at most [n] tasks of at most [n] positions. *)
Definition sequentially (n : nat) : list nat := k ← seq 0 n; replicate (S n) k.

(** Where the goroutine of the task [t] stands when it has written the
    positions [d]. *)
Definition workerAt (w : worker) (t d : list Z) : Prop :=
  match w with
  | Writing todo => t = d ++ todo
  | Failed _ | Finished (Some _) => d `prefix_of` t ∧ d ≠ []
  | Finished None => d = t
  end.

Section Schedule.
Context {SM L : Type} `{!ShardManager.Ops SM} `{!Il1Source.Ops L}.

(** One step of task [k]: the next write of its loop, or the send that
    ends it. A task that has ended, or was not started, makes no step. *)
Definition workerStep (s : StorageManager SM L) (p : pool) (k : nat)
    (kvIndices : list Z) (blobs : list bytes) (commits : list Hash)
  : outcome (StorageManager SM L * pool) :=
  match workers p !! k with
  | Some (Writing (idx :: rest)) =>
      match index commits idx, index kvIndices idx, index blobs idx with
      | Some commit, Some kvIdx, Some blob =>
          let c := prepareCommit commit in
          (* if return false, just ignore *)
          let '(s', _, err) := shardTryWrite s kvIdx blob c in
          let w := match err with Some e => Failed e | None => Writing rest end in
          Returned (s', mkPool (<[k := w]> (workers p)) (chanRes p) (written p ++ [(k, idx)]))
      | _, _, _ => Panicked
      end
  | Some (Writing []) =>
      (* chanRes <- err, with err = nil *)
      Returned (s, mkPool (<[k := Finished None]> (workers p)) (chanRes p ++ [None]) (written p))
  | Some (Failed e) =>
      (* chanRes <- err *)
      Returned (s, mkPool (<[k := Finished (Some e)]> (workers p)) (chanRes p ++ [Some e])
                     (written p))
  | Some (Finished _) | None => Returned (s, p)
  end.

Fixpoint runSchedule (s : StorageManager SM L) (p : pool) (sched : list nat)
    (kvIndices : list Z) (blobs : list bytes) (commits : list Hash)
  : outcome (StorageManager SM L * pool) :=
  match sched with
  | [] => Returned (s, p)
  | k :: rest =>
      '(s1, p1) ← workerStep s p k kvIndices blobs commits;
      runSchedule s1 p1 rest kvIndices blobs commits
  end.

(** [DownloadFinished] with its goroutines run as the schedule says. The
    result carries the writes made, as (task, position).
    [make(chan error, taskNum)] panics for a negative size and for a size
    beyond what the runtime allocates for a channel; this limit, [chanCap],
    depends on the platform. [wg.Wait()] returns once every task has ended:
    a schedule that stops before is too short ([OutOfFuel]). The results
    are then read from [chanRes] in the order in which they were sent. *)
Definition DownloadFinishedUnder (chanCap : Z) (sched : list nat)
    (s : StorageManager SM L) (newL1 : Z)
    (kvIndices : list Z) (blobs : list bytes) (commits : list Hash)
  : outcome (StorageManager SM L * option error * list (nat * Z)) :=
  if bool_decide (length kvIndices ≠ length blobs) || bool_decide (length blobs ≠ length commits)
  then Returned (s, Some errInvalidParamsLens, [])
  else if newL1 <=? localL1 s then Returned (s, Some errNewL1Older, [])
  else
    let '(l, r) := Il1Source.GetStorageLastBlobIdx (l1Source s) newL1 in
    match r with
    | inr e => Returned (with_l1Source s l, Some (errExternal e), [])
    | inl lastKvIdx =>
        let s := with_lastKvIdx (with_l1Source s l) lastKvIdx in
        let taskNum := DownloadThreadNum s in
        (* make(chan error, taskNum) *)
        if (taskNum <? 0) || (chanCap <? taskNum) then Panicked
        else
          let len := Z.of_nat (length kvIndices) in
          tasks ← taskLoop (Z.to_nat len) 0 taskNum len;
          '(s, p) ← runSchedule s (mkPool (Writing <$> tasks) [] []) sched
                      kvIndices blobs commits;
          (* wg.Wait() *)
          if forallb isFinished (workers p) then
            match firstError (chanRes p) with
            | Some e => Returned (s, Some (errExternal e), written p)
            | None =>
                let s := with_localL1 s newL1 in
                s ← updateLocalMetas s (zip kvIndices commits);
                Returned (s, None, written p)
            end
          else OutOfFuel
    end.

(** What holds of the goroutines of the tasks [tasks] all along a run
    that started in the state [s0]. *)
Definition poolInv (tasks : list (list Z))
    (kvIndices : list Z) (blobs : list bytes) (commits : list Hash)
    (s0 s : StorageManager SM L) (p : pool) : Prop :=
  length (workers p) = length tasks
  ∧ (∀ (k : nat) t w, tasks !! k = Some t → workers p !! k = Some w →
       workerAt w t (writtenBy k (written p)))
  ∧ (∀ (k : nat) i, (k, i) ∈ written p → (k < length tasks)%nat)
  ∧ (∀ (k : nat) e, workers p !! k = Some (Finished e) → e ∈ chanRes p)
  ∧ onlyStoreChanged s0 s
  ∧ ∃ calls, writeLog s = writeLog s0 ++ calls
             ∧ Forall2 (writeOfPosition kvIndices blobs commits) (written p).*2 calls.

End Schedule.

(** ** Sequences of calls *)

(** The operations of the StorageManager: those that can change its
    state, and the reads. *)
Inductive call : Type :=
| DoReset (newL1 : Z)
| DoDownloadFinished (newL1 : Z) (kvIndices : list Z) (blobs : list bytes) (commits : list Hash)
| DoCommitBlob (kvIndex : Z) (blob : bytes) (commit : Hash)
| DoCommitBlobs (kvIndices : list Z) (blobs : list bytes) (commits : list Hash)
| DoCommitEmptyBlobs (start limit : Z)
| DoDownloadMetaInParallel (from to : Z)
| DoDownloadAllMetas
| DoTryReadEncoded (kvIdx readLen : Z)
| DoTryReadMeta (kvIdx : Z)
| DoLastKvIndex.

Definition isReset (c : call) : bool :=
  match c with DoReset _ => true | _ => false end.

Section Calls.
Context {SM L : Type} `{!ShardManager.Ops SM} `{!Il1Source.Ops L}
        `{!ShardLayout.Ops SM} `{!Il1Header.Ops L}.

Definition step (s : StorageManager SM L) (c : call) : outcome (StorageManager SM L) :=
  match c with
  | DoReset newL1 => Returned (Reset s newL1).1
  | DoDownloadFinished newL1 kvIndices blobs commits =>
      r ← DownloadFinished s newL1 kvIndices blobs commits; Returned r.1
  | DoCommitBlob kvIndex blob commit => Returned (CommitBlob s kvIndex blob commit).1
  | DoCommitBlobs kvIndices blobs commits =>
      r ← CommitBlobs s kvIndices blobs commits; Returned r.1
  | DoCommitEmptyBlobs start limit =>
      r ← CommitEmptyBlobs s start limit; Returned r.1
  | DoDownloadMetaInParallel from to =>
      r ← downloadMetaInParallel s from to; Returned r.1
  | DoDownloadAllMetas =>
      r ← DownloadAllMetas s; Returned r.1
  | DoTryReadEncoded _ _ | DoTryReadMeta _ | DoLastKvIndex => Returned s
  end.

(** The states after each call, as long as the calls return. *)
Fixpoint history (s : StorageManager SM L) (calls : list call) : list (StorageManager SM L) :=
  match calls with
  | [] => []
  | c :: cs =>
      match step s c with
      | Returned s' => s' :: history s' cs
      | _ => []
      end
  end.

End Calls.

(** * Properties *)

(** ** Bytes *)

Lemma length_zeroHash : length zeroHash = 32%nat.
Proof. reflexivity. Qed.

Lemma copy_zeroHash_full (m : bytes) : length m = 32%nat → copy zeroHash m = m.
Proof.
  intros Hm. unfold copy. rewrite length_zeroHash, Hm.
  rewrite take_ge by lia. rewrite drop_ge by (rewrite length_zeroHash; lia).
  apply app_nil_r.
Qed.

Lemma length_copy (dst src : bytes) : length (copy dst src) = length dst.
Proof.
  unfold copy. rewrite length_app, length_take, length_drop. lia.
Qed.

Lemma bytes_Equal_true (a b : bytes) : bytes_Equal a b = true ↔ a = b.
Proof. unfold bytes_Equal. apply bool_decide_eq_true. Qed.

Lemma bytes_Equal_false (a b : bytes) : bytes_Equal a b = false ↔ a ≠ b.
Proof. unfold bytes_Equal. apply bool_decide_eq_false. Qed.

Lemma slice_prepareCommit (commit : Hash) :
  length commit = 32%nat →
  slice 0 HashSizeInContract (prepareCommit commit) = slice 0 HashSizeInContract commit.
Proof.
  intros Hlen.
  do 32 (destruct commit as [|? commit]; [discriminate Hlen|]).
  destruct commit; [|discriminate Hlen]. reflexivity.
Qed.

Lemma filling_prepareCommit (commit : Hash) :
  Z.land (prepareCommit commit !!! HashSizeInContract) blobFillingMask ≠ 0.
Proof.
  unfold prepareCommit.
  assert (Hl : ∀ x : bytes, length (copy (slice 0 HashSizeInContract zeroHash) x
                 ++ drop HashSizeInContract zeroHash) = 32%nat).
  { intros x. rewrite length_app, length_copy. reflexivity. }
  rewrite list_lookup_total_insert_eq by (rewrite Hl; unfold HashSizeInContract; lia).
  unfold blobFillingMask. intros H0.
  apply (f_equal (λ z, Z.testbit z 7)) in H0.
  rewrite Z.land_spec, Z.lor_spec in H0. simpl in H0.
  rewrite orb_true_r in H0. discriminate.
Qed.

Lemma length_prepareCommit (commit : Hash) : length (prepareCommit commit) = 32%nat.
Proof.
  unfold prepareCommit. rewrite length_insert, length_app, length_copy. reflexivity.
Qed.

Lemma zero_prefix : slice (32 - HashSizeInContract) 32 zeroHash = replicate 24 0.
Proof. reflexivity. Qed.

Lemma zero_index : Uint64 (SetBytes (slice 0 5 zeroHash)) = 0.
Proof. reflexivity. Qed.

(** A 32-byte array is zero when each of its bytes is. *)
Lemma zeroHash_lookup (m : bytes) :
  length m = 32%nat →
  m = zeroHash ↔ ∀ i, (i < 32)%nat → m !! i = Some 0.
Proof.
  intros Hm. split.
  - intros -> i Hi. unfold zeroHash. by rewrite lookup_replicate_2.
  - intros Hz. apply list_eq. intros i.
    destruct (decide (i < 32)%nat) as [Hi|Hi].
    + rewrite (Hz i Hi). unfold zeroHash. by rewrite lookup_replicate_2.
    + rewrite !lookup_ge_None_2; [done| rewrite length_zeroHash; lia | lia].
Qed.

(** The array [h1] of [syncCheck]: zero but for the filling bit. *)
Lemma filledZero_lookup (m : bytes) :
  length m = 32%nat →
  m = <[HashSizeInContract := Z.lor (zeroHash !!! HashSizeInContract) blobFillingMask]> zeroHash
  ↔ m !! 24%nat = Some 128 ∧ ∀ i, (i < 32)%nat → i ≠ 24%nat → m !! i = Some 0.
Proof.
  intros Hm.
  change (Z.lor (zeroHash !!! HashSizeInContract) blobFillingMask) with 128.
  unfold HashSizeInContract. split.
  - intros ->. split; [reflexivity|].
    intros i Hi Hne. rewrite list_lookup_insert_ne by done.
    unfold zeroHash. by rewrite lookup_replicate_2.
  - intros [H24 Hz]. apply list_eq. intros i.
    destruct (decide (i = 24%nat)) as [->|Hne]; [by rewrite H24|].
    rewrite list_lookup_insert_ne by done.
    destruct (decide (i < 32)%nat) as [Hi|Hi].
    + rewrite (Hz i Hi Hne). unfold zeroHash. by rewrite lookup_replicate_2.
    + rewrite !lookup_ge_None_2; [done| rewrite length_zeroHash; lia | lia].
Qed.

(** ** The per-slot commit rule *)

Section Theory.
Context {SM L : Type} `{!ShardManager.Ops SM} `{!Il1Source.Ops L}.
Implicit Types s : StorageManager SM L.

Lemma getKvMetas_single s (i : Z) :
  getKvMetas s [i] = [default zeroHash (blobMetas s !! i)].
Proof. reflexivity. Qed.

Lemma length_getKvMetas s (ks : list Z) : length (getKvMetas s ks) = length ks.
Proof. unfold getKvMetas. apply length_fmap. Qed.

Lemma onlyStoreChanged_refl s : onlyStoreChanged s s.
Proof. by unfold onlyStoreChanged. Qed.

Lemma onlyStoreChanged_trans s1 s2 s3 :
  onlyStoreChanged s1 s2 → onlyStoreChanged s2 s3 → onlyStoreChanged s1 s3.
Proof.
  unfold onlyStoreChanged. intros (?&?&?&?&?) (?&?&?&?&?).
  repeat split; congruence.
Qed.

Lemma commitEncodedBlob_mismatch s kvIndex encodedBlob (commit contractMeta : Hash) :
  slice (32 - HashSizeInContract) 32 contractMeta ≠ slice 0 HashSizeInContract commit →
  commitEncodedBlob s kvIndex encodedBlob commit contractMeta = (s, Some errCommitMismatch).
Proof.
  intros Hne. unfold commitEncodedBlob.
  apply bytes_Equal_false in Hne. by rewrite Hne.
Qed.

(** The per-slot rule touches the store and the history of writes only,
    and it writes, if at all, once and to its own slot. *)
Lemma commitEncodedBlob_frame s kvIndex encodedBlob (commit contractMeta : Hash) s' r :
  commitEncodedBlob s kvIndex encodedBlob commit contractMeta = (s', r) →
  onlyStoreChanged s s' ∧
  (writeLog s' = writeLog s ∧ shardManager s' = shardManager s
   ∨ writeLog s' = writeLog s ++ [CallTryWriteEncoded kvIndex encodedBlob (prepareCommit commit)]).
Proof.
  unfold commitEncodedBlob.
  destruct (negb _); [intros [= <- <-]; split; [done|by left]|].
  destruct (ShardManager.TryReadMeta _ _) as [[m ok] err].
  destruct (negb ok || notNil err); [intros [= <- <-]; split; [done|by left]|].
  destruct (bool_decide _); [intros [= <- <-]; split; [done|by left]|].
  destruct (_ && _); [intros [= <- <-]; split; [done|by left]|].
  unfold shardTryWriteEncoded.
  destruct (ShardManager.TryWriteEncoded _ _ _ _) as [[sm ok'] err'].
  destruct (negb ok' || notNil err'); intros [= <- <-]; (split; [done|by right]).
Qed.

(** ** Reading *)

(** C7. When the read of the physical meta of the slot succeeds with a
    32-byte meta, [TryReadEncoded] fails with the "syncing or just empty
    blob" error exactly when the meta is zero, or zero but for byte 24 being
    the filling bit alone; then it returns no data. In every other case it
    returns what the ShardManager's [TryReadEncoded] returns. *)
Theorem TryReadEncoded_sync_classes s (kvIdx readLen : Z) (meta : bytes) :
  ShardManager.TryReadMeta (shardManager s) kvIdx = (meta, true, None) →
  length meta = 32%nat →
  let unsynced := ∀ i, (i < 32)%nat → meta !! i = Some 0 in
  let emptyFilled :=
    meta !! 24%nat = Some blobFillingMask ∧ ∀ i, (i < 32)%nat → i ≠ 24%nat → meta !! i = Some 0 in
  ((TryReadEncoded s kvIdx readLen).2 = Some errSyncingOrEmpty ↔ unsynced ∨ emptyFilled)
  ∧ (unsynced ∨ emptyFilled →
     TryReadEncoded s kvIdx readLen = ([], false, Some errSyncingOrEmpty))
  ∧ (¬ (unsynced ∨ emptyFilled) →
     TryReadEncoded s kvIdx readLen =
       let '(b, ok, err) := ShardManager.TryReadEncoded (shardManager s) kvIdx readLen in
       (b, ok, errExternal <$> err)).
Proof.
  intros Hread Hlen unsynced emptyFilled.
  assert (Hcheck : (unsynced ∨ emptyFilled) ∧ syncCheck s kvIdx = Some errSyncingOrEmpty
                   ∨ ¬ (unsynced ∨ emptyFilled) ∧ syncCheck s kvIdx = None).
  { unfold syncCheck. rewrite Hread. simpl negb. simpl orb. cbv iota.
    cbv zeta. rewrite (copy_zeroHash_full meta Hlen).
    destruct (decide (meta = zeroHash)) as [Hz|Hz].
    - rewrite (bool_decide_eq_true_2 _ Hz). simpl.
      left. split; [|done]. left. exact (proj1 (zeroHash_lookup meta Hlen) Hz).
    - rewrite (bool_decide_eq_false_2 _ Hz). simpl.
      case_bool_decide as Hf.
      + left. split; [|done]. right. exact (proj1 (filledZero_lookup meta Hlen) Hf).
      + right. split; [|done]. intros [Hu|He].
        * exact (Hz (proj2 (zeroHash_lookup meta Hlen) Hu)).
        * exact (Hf (proj2 (filledZero_lookup meta Hlen) He)). }
  unfold TryReadEncoded.
  destruct Hcheck as [[Hc ->]|[Hc ->]].
  - split; [done|]. split; [done|]. intros Hn. by destruct Hn.
  - split; [|split; [intros Hy; by destruct Hc|done]].
    split; [|intros Hy; by destruct Hc].
    destruct (ShardManager.TryReadEncoded _ _ _) as [[b ok] [e|]]; simpl; discriminate.
Qed.

(** ** Rejections of the per-slot rule *)

Lemma commitEncodedBlob_index_mismatch
    s kvIndex encodedBlob (commit contractMeta : Hash) (m : bytes) :
  slice (32 - HashSizeInContract) 32 contractMeta = slice 0 HashSizeInContract commit →
  ShardManager.TryReadMeta (shardManager s) kvIndex = (m, true, None) →
  Uint64 (SetBytes (slice 0 5 contractMeta)) ≠ kvIndex →
  commitEncodedBlob s kvIndex encodedBlob commit contractMeta = (s, Some errKvIdxMismatch).
Proof.
  intros Hpre Hread Hidx. unfold commitEncodedBlob.
  apply bytes_Equal_true in Hpre. rewrite Hpre, Hread. simpl.
  by rewrite bool_decide_eq_true_2.
Qed.

(** C8, as the code has it. Once the commit prefix has matched and the
    physical meta of the slot has been read, the rule fails with the
    index-mismatch error, without a write, whenever the index in bytes
    [0,5) of the cached contract meta differs from the target index; and
    when that index is the target index the rule does not fail with this
    error, whatever the bytes of the physical meta are. *)
Theorem commitEncodedBlob_contract_index_guard
    s kvIndex encodedBlob (commit contractMeta : Hash) (m : bytes) :
  slice (32 - HashSizeInContract) 32 contractMeta = slice 0 HashSizeInContract commit →
  ShardManager.TryReadMeta (shardManager s) kvIndex = (m, true, None) →
  (Uint64 (SetBytes (slice 0 5 contractMeta)) ≠ kvIndex →
   commitEncodedBlob s kvIndex encodedBlob commit contractMeta = (s, Some errKvIdxMismatch))
  ∧ (Uint64 (SetBytes (slice 0 5 contractMeta)) = kvIndex →
     (commitEncodedBlob s kvIndex encodedBlob commit contractMeta).2 ≠ Some errKvIdxMismatch).
Proof.
  intros Hpre Hread. split.
  - by apply (commitEncodedBlob_index_mismatch _ _ _ _ _ m).
  - intros Hidx. unfold commitEncodedBlob.
    apply bytes_Equal_true in Hpre. rewrite Hpre, Hread. simpl.
    rewrite bool_decide_eq_false_2 by (by intros Hne).
    destruct (_ && _); [done|].
    destruct (shardTryWriteEncoded _ _ _ _) as [[s' ok] err].
    by destruct (negb ok || notNil err).
Qed.

Lemma CommitBlob_encode_failed s kvIndex blob (commit : Hash) enc success err :
  ShardManager.TryEncodeKV (shardManager s) kvIndex blob commit = (enc, success, err) →
  negb success || notNil err = true →
  CommitBlob s kvIndex blob commit = (s, Some errBlobEncodeFailed).
Proof. intros Henc Hf. unfold CommitBlob. by rewrite Henc, Hf. Qed.

Lemma CommitBlob_encoded s kvIndex blob (commit : Hash) enc :
  ShardManager.TryEncodeKV (shardManager s) kvIndex blob commit = (enc, true, None) →
  CommitBlob s kvIndex blob commit =
    commitEncodedBlob s kvIndex enc commit (default zeroHash (blobMetas s !! kvIndex)).
Proof. intros Henc. unfold CommitBlob. by rewrite Henc. Qed.

Lemma encode_cases (r : bytes * bool * option string) :
  (∃ enc, r = (enc, true, None)) ∨ (∃ enc ok err, r = (enc, ok, err) ∧ negb ok || notNil err = true).
Proof.
  destruct r as [[enc ok] err]. destruct ok, err; simpl; eauto 6.
Qed.

Lemma encodeBlobs_outcome (sm : SM) (items : list (Z * (bytes * Hash))) :
  match encodeBlobs sm items with
  | Returned r => length r = length items
  | Panicked => ∃ k b c enc, (k, (b, c)) ∈ items
                  ∧ ShardManager.TryEncodeKV sm k b c = (enc, false, None)
  | OutOfFuel => False
  end.
Proof.
  induction items as [|[k [b c]] rest IH]; [done|].
  simpl. destruct (ShardManager.TryEncodeKV sm k b c) as [[enc ok] err] eqn:He.
  destruct ok, err as [e|]; simpl.
  - destruct (encodeBlobs sm rest); simpl; [by rewrite IH| |done].
    destruct IH as (k' & b' & c' & enc' & Hin & Hf).
    exists k', b', c', enc'. split; [by right|done].
  - destruct (encodeBlobs sm rest); simpl; [by rewrite IH| |done].
    destruct IH as (k' & b' & c' & enc' & Hin & Hf).
    exists k', b', c', enc'. split; [by right|done].
  - destruct (encodeBlobs sm rest); simpl; [by rewrite IH| |done].
    destruct IH as (k' & b' & c' & enc' & Hin & Hf).
    exists k', b', c', enc'. split; [by right|done].
  - exists k, b, c, enc. split; [by left|done].
Qed.

(** The batch loop never inserts, nor writes to, a slot all of whose
    entries carry a commit that differs from the cached one. *)
Lemma commitBlobsLoop_excludes (k : Z) (items : list (Hash * (Z * ((bytes * bool) * Hash)))) :
  (∀ cm enc e c, (cm, (k, ((enc, e), c))) ∈ items →
     slice (32 - HashSizeInContract) 32 cm ≠ slice 0 HashSizeInContract c) →
  ∀ s inserted s' inserted',
    commitBlobsLoop s items inserted = (s', inserted') →
    onlyStoreChanged s s'
    ∧ (∃ new, inserted' = inserted ++ new ∧ k ∉ new)
    ∧ (∃ ws, writeLog s' = writeLog s ++ ws ∧ ∀ w, w ∈ ws → writeCall_kvIdx w ≠ k).
Proof.
  induction items as [|[cm [k' [[enc e] c]]] rest IH]; intros Hmis s inserted s' inserted'.
  - intros [= <- <-]. split; [done|]. split.
    + exists []. rewrite app_nil_r. split; [done|apply not_elem_of_nil].
    + exists []. rewrite app_nil_r. split; [done|]. by intros w Hw%elem_of_nil.
  - assert (Hrest : ∀ cm enc e c, (cm, (k, ((enc, e), c))) ∈ rest →
       slice (32 - HashSizeInContract) 32 cm ≠ slice 0 HashSizeInContract c).
    { intros cm0 enc0 e0 c0 Hin. apply (Hmis cm0 enc0 e0 c0). by right. }
    simpl. destruct e; simpl; [|by apply IH].
    destruct (commitEncodedBlob s k' enc c cm) as [s1 r] eqn:Hrule.
    destruct (decide (k' = k)) as [->|Hk].
    + rewrite commitEncodedBlob_mismatch in Hrule by (apply (Hmis cm enc true c); by left).
      injection Hrule as <- <-. by apply IH.
    + destruct (commitEncodedBlob_frame _ _ _ _ _ _ _ Hrule) as [Hfr Hlog].
      assert (Hws : ∃ ws, writeLog s1 = writeLog s ++ ws ∧ ∀ w, w ∈ ws → writeCall_kvIdx w ≠ k).
      { destruct Hlog as [[-> _]| ->].
        - exists []. rewrite app_nil_r. split; [done|]. by intros w Hw%elem_of_nil.
        - eexists. split; [done|]. intros w Hw%list_elem_of_singleton. by subst w. }
      destruct Hws as (ws1 & Hws1 & Hne1).
      assert (Hstep : ∀ ins1, (∃ new1, ins1 = inserted ++ new1 ∧ k ∉ new1) →
                commitBlobsLoop s1 rest ins1 = (s', inserted') →
                onlyStoreChanged s s'
                ∧ (∃ new, inserted' = inserted ++ new ∧ k ∉ new)
                ∧ (∃ ws, writeLog s' = writeLog s ++ ws ∧ ∀ w, w ∈ ws → writeCall_kvIdx w ≠ k)).
      { intros ins1 (new1 & -> & Hnew1) Hloop.
        destruct (IH Hrest _ _ _ _ Hloop) as (Hfr' & (new & -> & Hnew) & (ws & Hws & Hne)).
        split; [|split].
        - by apply (onlyStoreChanged_trans s s1 s').
        - exists (new1 ++ new). rewrite app_assoc. split; [done|].
          rewrite elem_of_app. tauto.
        - exists (ws1 ++ ws). rewrite Hws, Hws1, app_assoc. split; [done|].
          intros w [Hw|Hw]%elem_of_app; auto. }
      destruct r as [err|].
      * apply Hstep. exists []. rewrite app_nil_r. split; [done|]. apply not_elem_of_nil.
      * apply Hstep. exists [k']. split; [done|].
        intros Hin%list_elem_of_singleton. congruence.
Qed.

(** C2. When the commit prefix cached for a slot differs from the first 24
    bytes of the proposed commit: the per-slot rule returns the
    commit-mismatch error and leaves the state, history of writes included,
    as it was; [CommitBlob] fails without a write, and with that very error
    as soon as the blob is encoded and the rule is reached; [CommitBlobs]
    returns a list without the slot and writes nothing to it (a batch
    panics only when an encoding fails without an error value, before any
    write). *)
Theorem commit_mismatch_rejected s (kvIndex : Z) :
  let expected :=
    slice (32 - HashSizeInContract) 32 (default zeroHash (blobMetas s !! kvIndex)) in
  (∀ encodedBlob (commit contractMeta : Hash),
     slice (32 - HashSizeInContract) 32 contractMeta ≠ slice 0 HashSizeInContract commit →
     commitEncodedBlob s kvIndex encodedBlob commit contractMeta = (s, Some errCommitMismatch))
  ∧ (∀ blob (commit : Hash),
       expected ≠ slice 0 HashSizeInContract commit →
       (∃ e, CommitBlob s kvIndex blob commit = (s, Some e))
       ∧ ∀ enc, ShardManager.TryEncodeKV (shardManager s) kvIndex blob commit = (enc, true, None) →
           CommitBlob s kvIndex blob commit = (s, Some errCommitMismatch))
  ∧ (∀ (kvIndices : list Z) (blobs : list bytes) (commits : list Hash),
       (∀ (i : nat) (commit : Hash),
          kvIndices !! i = Some kvIndex → commits !! i = Some commit →
          expected ≠ slice 0 HashSizeInContract commit) →
       match CommitBlobs s kvIndices blobs commits with
       | Returned (s', (inserted, _)) =>
           (kvIndex ∉ inserted)
           ∧ (∃ ws, writeLog s' = writeLog s ++ ws
                    ∧ ∀ w, w ∈ ws → writeCall_kvIdx w ≠ kvIndex)
       | Panicked =>
           ∃ (i : nat) k b c enc,
             kvIndices !! i = Some k ∧ blobs !! i = Some b ∧ commits !! i = Some c
             ∧ ShardManager.TryEncodeKV (shardManager s) k b c = (enc, false, None)
       | OutOfFuel => False
       end).
Proof.
  intros expected. split; [|split].
  - intros. by apply commitEncodedBlob_mismatch.
  - intros blob commit Hne.
    destruct (encode_cases (ShardManager.TryEncodeKV (shardManager s) kvIndex blob commit))
      as [[enc He]|(enc & ok & err & He & Hf)].
    + rewrite (CommitBlob_encoded _ _ _ _ _ He).
      rewrite commitEncodedBlob_mismatch by done. split; [eauto|]. by intros _ _.
    + rewrite (CommitBlob_encode_failed _ _ _ _ _ _ _ He Hf). split; [eauto|].
      intros enc' He'. rewrite He' in He. injection He as <- <- <-. discriminate Hf.
  - intros kvIndices blobs commits Hmis. unfold CommitBlobs.
    destruct (bool_decide _ || bool_decide _) eqn:Hlens.
    { split; [apply not_elem_of_nil|]. exists []. rewrite app_nil_r. split; [done|].
      by intros w Hw%elem_of_nil. }
    pose proof (encodeBlobs_outcome (shardManager s) (zip kvIndices (zip blobs commits))) as Henc.
    destruct (encodeBlobs _ _) as [enc| |]; simpl; [| |done].
    + destruct (commitBlobsLoop s _ []) as [s' inserted] eqn:Hloop.
      apply (commitBlobsLoop_excludes kvIndex) in Hloop.
      * destruct Hloop as (_ & (new & -> & Hnew) & Hws). done.
      * intros cm enc1 e c (i & Hi)%list_elem_of_lookup.
        apply lookup_zip_with_Some in Hi as (cm' & y & [= <- <-] & Hcm & Hy).
        apply lookup_zip_with_Some in Hy as (k' & y' & [= <- <-] & Hk & Hy').
        apply lookup_zip_with_Some in Hy' as (e' & c' & [= <- <-] & _ & Hc).
        unfold getKvMetas in Hcm. rewrite list_lookup_fmap, Hk in Hcm.
        injection Hcm as <-. by apply (Hmis i c).
    + destruct Henc as (k & b & c & enc & (i & Hi)%list_elem_of_lookup & Hf).
      apply lookup_zip_with_Some in Hi as (k' & y & [= <- <-] & Hk & Hy).
      apply lookup_zip_with_Some in Hy as (b' & c' & [= <- <-] & Hb & Hc).
      exists i, k, b, c, enc. done.
Qed.

(** C10, as the code has it. For a slot [i] without an entry in
    [blobMetas], [getKvMetas] yields the zero record, and [CommitBlob] fails
    and leaves the state, history of writes included, as it was: with the
    encode error when the encoding of the blob fails; otherwise with the
    commit-mismatch error when the first 24 bytes of the commit are not all
    zero; otherwise, when [i] is not 0 and the read of the physical meta
    succeeds, with the index-mismatch error. *)
Theorem CommitBlob_unknown_slot s (i : Z) blob (commit : Hash) :
  blobMetas s !! i = None →
  getKvMetas s [i] = [zeroHash]
  ∧ (∀ enc ok err,
       ShardManager.TryEncodeKV (shardManager s) i blob commit = (enc, ok, err) →
       negb ok || notNil err = true →
       CommitBlob s i blob commit = (s, Some errBlobEncodeFailed))
  ∧ (∀ enc,
       ShardManager.TryEncodeKV (shardManager s) i blob commit = (enc, true, None) →
       slice 0 HashSizeInContract commit ≠ replicate 24 0 →
       CommitBlob s i blob commit = (s, Some errCommitMismatch))
  ∧ (∀ enc m,
       ShardManager.TryEncodeKV (shardManager s) i blob commit = (enc, true, None) →
       slice 0 HashSizeInContract commit = replicate 24 0 →
       i ≠ 0 →
       ShardManager.TryReadMeta (shardManager s) i = (m, true, None) →
       CommitBlob s i blob commit = (s, Some errKvIdxMismatch)).
Proof.
  intros Hnone. split; [|split; [|split]].
  - by rewrite getKvMetas_single, Hnone.
  - intros enc ok err He Hf. by apply (CommitBlob_encode_failed _ _ _ _ _ _ _ He Hf).
  - intros enc He Hne. rewrite (CommitBlob_encoded _ _ _ _ _ He), Hnone. simpl.
    apply commitEncodedBlob_mismatch. rewrite zero_prefix. congruence.
  - intros enc m He Hz Hi Hread. rewrite (CommitBlob_encoded _ _ _ _ _ He), Hnone. simpl.
    apply (commitEncodedBlob_index_mismatch _ _ _ _ _ m); [|done|].
    + by rewrite zero_prefix.
    + rewrite zero_index. congruence.
Qed.

(** ** Committing twice *)

(** C4. For a ShardManager that reads back the meta it has written, and
    whose encoding does not depend on what was written: when
    [CommitBlob] succeeds, the same call made again reads a physical meta
    with the commit prefix of the proposed commit and the filling bit set,
    succeeds, and leaves the whole state as the first call left it: the
    store is the same and the history of writes has no new entry. *)
Theorem CommitBlob_idempotent s (kvIndex : Z) blob (commit : Hash) s1 :
  (∀ (sm sm' : SM) k enc c,
     ShardManager.TryWriteEncoded sm k enc c = (sm', true, None) →
     ShardManager.TryReadMeta sm' k = (c, true, None)) →
  (∀ (sm sm' : SM) k enc c k' b c',
     ShardManager.TryWriteEncoded sm k enc c = (sm', true, None) →
     ShardManager.TryEncodeKV sm' k' b c' = ShardManager.TryEncodeKV sm k' b c') →
  length commit = 32%nat →
  CommitBlob s kvIndex blob commit = (s1, None) →
  ∃ m, ShardManager.TryReadMeta (shardManager s1) kvIndex = (m, true, None)
       ∧ slice 0 HashSizeInContract (copy zeroHash m) = slice 0 HashSizeInContract commit
       ∧ Z.land (copy zeroHash m !!! HashSizeInContract) blobFillingMask ≠ 0
       ∧ CommitBlob s1 kvIndex blob commit = (s1, None).
Proof.
  intros Hreadback Hencode Hlen Hfirst.
  destruct (encode_cases (ShardManager.TryEncodeKV (shardManager s) kvIndex blob commit))
    as [[enc He]|(enc & ok & err & He & Hf)];
    [|by rewrite (CommitBlob_encode_failed _ _ _ _ _ _ _ He Hf) in Hfirst].
  rewrite (CommitBlob_encoded _ _ _ _ _ He) in Hfirst.
  set (cm := default zeroHash (blobMetas s !! kvIndex)) in *.
  unfold commitEncodedBlob in Hfirst.
  destruct (bytes_Equal (slice (32 - HashSizeInContract) 32 cm) _) eqn:Hpre;
    simpl in Hfirst; [|discriminate].
  destruct (ShardManager.TryReadMeta (shardManager s) kvIndex) as [[m ok] err] eqn:Hread.
  destruct ok, err as [e|]; simpl in Hfirst; try discriminate.
  destruct (bool_decide (Uint64 (SetBytes (slice 0 5 cm)) ≠ kvIndex)) eqn:Hidx; [discriminate|].
  destruct (bytes_Equal (slice 0 HashSizeInContract (copy zeroHash m)) _
            && bool_decide (Z.land (copy zeroHash m !!! HashSizeInContract) blobFillingMask ≠ 0))
    eqn:Hnoop.
  - (* the first call found the slot filled already *)
    injection Hfirst as <-.
    apply andb_true_iff in Hnoop as Hn. destruct Hn as [Hp Hb].
    apply bytes_Equal_true in Hp. apply bool_decide_eq_true in Hb.
    exists m. split; [done|]. split; [done|]. split; [done|].
    rewrite (CommitBlob_encoded _ _ _ _ _ He). fold cm.
    unfold commitEncodedBlob. rewrite Hpre, Hread. simpl. by rewrite Hidx, Hnoop.
  - (* the first call wrote *)
    unfold shardTryWriteEncoded in Hfirst.
    destruct (ShardManager.TryWriteEncoded (shardManager s) kvIndex enc (prepareCommit commit))
      as [[sm' ok] err] eqn:Hw.
    destruct ok, err as [e|]; simpl in Hfirst; try discriminate.
    injection Hfirst as <-.
    pose proof (Hreadback _ _ _ _ _ Hw) as Hread'.
    assert (Hcopy : copy zeroHash (prepareCommit commit) = prepareCommit commit)
      by (apply copy_zeroHash_full, length_prepareCommit).
    exists (prepareCommit commit). split; [done|]. rewrite Hcopy.
    split; [by apply slice_prepareCommit|]. split; [apply filling_prepareCommit|].
    unfold CommitBlob. simpl shardManager.
    rewrite (Hencode _ _ _ _ _ kvIndex blob commit Hw), He. simpl.
    fold cm. unfold commitEncodedBlob. rewrite Hpre. simpl shardManager.
    rewrite Hread'. simpl. rewrite Hidx, Hcopy.
    rewrite (proj2 (bytes_Equal_true _ _) (slice_prepareCommit commit Hlen)).
    rewrite bool_decide_eq_true_2 by apply filling_prepareCommit. done.
Qed.

(** ** Filling with empty blobs *)

Lemma wrap_uint64_small (x : Z) : 0 ≤ x < 2 ^ 64 → wrap_uint64 x = x.
Proof. intros Hx. unfold wrap_uint64. by apply Z.mod_small. Qed.

(** The first loop of [CommitEmptyBlobs], with the fuel [CommitEmptyBlobs]
    gives it. The fuel runs out only when [limit] is the largest [uint64]
    and no encoding fails up to it: there the counter of the source wraps
    around to 0 and its loop goes on. *)
Lemma encodeEmptyLoop_spec (sm : SM) (limit : Z) (fuel : nat) (i : Z) :
  0 ≤ i < 2 ^ 64 → limit < 2 ^ 64 → fuel = Z.to_nat (limit - i + 1) →
  match encodeEmptyLoop fuel sm i limit with
  | Returned items =>
      items.*1 = seqZ i (Z.of_nat (length items))
      ∧ i + Z.of_nat (length items) ≤ Z.max i (limit + 1)
      ∧ i + Z.of_nat (length items) < 2 ^ 64
      ∧ (∀ j enc, (j, enc) ∈ items →
           ShardManager.TryEncodeKV sm j [] zeroHash = (enc, true, None))
      ∧ (i + Z.of_nat (length items) ≤ limit →
           ∃ enc ok e, ShardManager.TryEncodeKV sm (i + Z.of_nat (length items)) [] zeroHash
                       = (enc, ok, Some e))
  | Panicked =>
      ∃ j enc, i ≤ j ≤ limit ∧ ShardManager.TryEncodeKV sm j [] zeroHash = (enc, false, None)
  | OutOfFuel =>
      limit = 2 ^ 64 - 1
      ∧ ∀ j, i ≤ j ≤ limit → ∃ enc, ShardManager.TryEncodeKV sm j [] zeroHash = (enc, true, None)
  end.
Proof.
  revert i. induction fuel as [|fuel IH]; intros i Hi Hlim Hfuel.
  - simpl. rewrite (proj2 (Z.leb_gt _ _)) by lia. simpl.
    split; [done|]. split; [lia|]. split; [lia|].
    split; [by intros j enc Hin%elem_of_nil|lia].
  - simpl. rewrite (proj2 (Z.leb_le i limit)) by lia.
    destruct (ShardManager.TryEncodeKV sm i [] zeroHash) as [[enc ok] err] eqn:He.
    destruct ok, err as [e|]; simpl.
    + split; [done|]. split; [lia|]. split; [lia|].
      split; [by intros j enc' Hin%elem_of_nil|].
      intros _. rewrite Z.add_0_r. eauto.
    + destruct (decide (i = 2 ^ 64 - 1)) as [Hmax|Hmax].
      * (* the counter wraps around to 0, and the fuel is spent *)
        assert (Hf0 : fuel = 0%nat) by lia. subst fuel.
        replace (wrap_uint64 (i + 1)) with 0 by (subst i; reflexivity).
        simpl. rewrite (proj2 (Z.leb_le 0 limit)) by lia. simpl.
        split; [lia|]. intros j Hj. assert (j = i) as -> by lia. eauto.
      * rewrite wrap_uint64_small by lia.
        specialize (IH (i + 1) ltac:(lia) Hlim ltac:(lia)).
        destruct (encodeEmptyLoop fuel sm (i + 1) limit) as [items| |]; simpl.
        -- destruct IH as (Hidx & Hlen & Hmx & Henc & Hstop).
           split; [|split; [|split; [|split]]].
           ++ rewrite (seqZ_cons i) by lia. f_equal.
              etransitivity; [exact Hidx|]. f_equal; lia.
           ++ lia.
           ++ lia.
           ++ intros j enc' [[= -> ->]|Hin]%elem_of_cons; [done|by apply Henc].
           ++ intros Hl. replace (i + Z.of_nat (S (length items)))
                with (i + 1 + Z.of_nat (length items)) by lia.
              apply Hstop. lia.
        -- destruct IH as (j & enc' & Hj & Hf). exists j, enc'. split; [lia|done].
        -- destruct IH as [Hl Hall]. split; [done|]. intros j Hj.
           destruct (decide (j = i)) as [->|Hne]; [eauto|]. apply Hall. lia.
    + split; [done|]. split; [lia|]. split; [lia|].
      split; [by intros j enc' Hin%elem_of_nil|].
      intros _. rewrite Z.add_0_r. eauto.
    + exists i, enc. split; [lia|done].
Qed.

Lemma length_filter_cons {A} (p : A → bool) (x : A) (l : list A) :
  length (filter p (x :: l)) = ((if p x then 1 else 0) + length (filter p l))%nat.
Proof.
  rewrite filter_cons. destruct (decide (p x)) as [Hp|Hp]; destruct (p x); simpl; done.
Qed.

Lemma length_filter_nil {A} (p : A → bool) : length (filter p []) = 0%nat.
Proof. reflexivity. Qed.

(** The second loop of [CommitEmptyBlobs] against [applyRule]: the loop
    applies the rule to the first [n] items, in order; it goes on after a
    committed slot and after a commit mismatch, and the outcome of the last
    of the [n] items is the only one that can be another error. *)
Lemma commitEmptyLoop_spec (items : list ((Z * bytes) * Hash)) :
  ∀ s (inserted next : Z),
    0 ≤ inserted → 0 ≤ next →
    inserted + Z.of_nat (length items) < 2 ^ 64 →
    next + Z.of_nat (length items) < 2 ^ 64 →
    ∃ n : nat,
      (n ≤ length items)%nat
      ∧ let outs := (applyRule s (take n items)).2 in
        commitEmptyLoop s items inserted next =
          ((applyRule s (take n items)).1,
           inserted + Z.of_nat (length (filter committed outs)),
           next + Z.of_nat (length (filter softOutcome outs)))
        ∧ (Forall softOutcome outs ∧ n = length items
           ∨ ∃ pre e, outs = pre ++ [Some e] ∧ Forall softOutcome pre
                      ∧ e ≠ errCommitMismatch).
Proof.
  induction items as [|[[index enc] meta] rest IH]; intros s inserted next Hi Hn Hib Hnb.
  - exists 0%nat. cbn [take applyRule fst snd commitEmptyLoop length].
    split; [done|]. split; [rewrite !length_filter_nil; f_equal; [f_equal|]; lia|].
    left. split; [constructor|done].
  - cbn [length] in Hib, Hnb. cbn [commitEmptyLoop].
    destruct (commitEncodedBlob s index enc zeroHash meta) as [s1 r] eqn:Hrule.
    assert (Hgo : ∀ ins1 : Z,
               softOutcome r = true →
               ins1 = inserted + (if committed r then 1 else 0) →
               ∃ n : nat,
                 (n ≤ length ((index, enc, meta) :: rest))%nat
                 ∧ let outs := (applyRule s (take n ((index, enc, meta) :: rest))).2 in
                   commitEmptyLoop s1 rest ins1 (next + 1) =
                     ((applyRule s (take n ((index, enc, meta) :: rest))).1,
                      inserted + Z.of_nat (length (filter committed outs)),
                      next + Z.of_nat (length (filter softOutcome outs)))
                   ∧ (Forall softOutcome outs ∧ n = length ((index, enc, meta) :: rest)
                      ∨ ∃ pre e, outs = pre ++ [Some e] ∧ Forall softOutcome pre
                                 ∧ e ≠ errCommitMismatch)).
    { intros ins1 Hsoft ->.
      destruct (IH s1 (inserted + (if committed r then 1 else 0)) (next + 1))
        as (n & Hle & Heq & Hcases).
      { destruct (committed r); lia. } { lia. }
      { destruct (committed r); lia. } { lia. }
      exists (S n). split; [cbn [length]; lia|].
      cbn [take applyRule]. rewrite Hrule.
      destruct (applyRule s1 (take n rest)) as [s2 outs] eqn:Happ.
      cbn [fst snd] in *. cbv zeta in *.
      split.
      - rewrite Heq, !length_filter_cons, Hsoft.
        f_equal; [f_equal|]; destruct (committed r); lia.
      - destruct Hcases as [[Hall ->]|(pre & e & -> & Hpre & He)].
        + left. split; [|done]. constructor; [by rewrite Hsoft|done].
        + right. exists (r :: pre), e. split; [done|]. split; [|done].
          constructor; [by rewrite Hsoft|done]. }
    destruct r as [e|].
    + case_bool_decide as He.
      * exists 1%nat. split; [cbn [length]; lia|].
        cbn [take applyRule]. rewrite Hrule, take_0. cbn [applyRule fst snd]. cbv zeta.
        rewrite !length_filter_cons, !length_filter_nil. cbn [committed softOutcome].
        rewrite bool_decide_eq_false_2 by done.
        split; [f_equal; [f_equal|]; lia|].
        right. exists [], e. split; [done|]. split; [constructor|done].
      * rewrite wrap_uint64_small by lia.
        apply Hgo; [|cbn [committed]; lia].
        cbn [softOutcome]. apply bool_decide_eq_true_2.
        by destruct (decide (e = errCommitMismatch)).
    + rewrite !wrap_uint64_small by lia. apply Hgo; [done|]. cbn [committed]. lia.
Qed.


(** ** The tasks of DownloadFinished *)

Lemma wrap_int_small (x : Z) : - 2 ^ 63 ≤ x < 2 ^ 63 → wrap_int x = x.
Proof. intros Hx. unfold wrap_int. rewrite Z.mod_small by lia. lia. Qed.

Lemma positionsOf_nil (k N M : Z) : 1 ≤ N → M ≤ k → positionsOf k N M = [].
Proof.
  intros HN Hk. unfold positionsOf. rewrite seqZ_nil; [done|].
  assert ((M - k + N - 1) / N < 1); [|lia].
  apply Z.div_lt_upper_bound; lia.
Qed.

Lemma positionsOf_cons (k N M : Z) :
  1 ≤ N → k < M → positionsOf k N M = k :: positionsOf (k + N) N M.
Proof.
  intros HN Hk. unfold positionsOf.
  replace (M - k + N - 1) with (M - (k + N) + N - 1 + 1 * N) by lia.
  rewrite Z.div_add by lia.
  set (c := (M - (k + N) + N - 1) / N).
  assert (0 ≤ c + 1).
  { assert (-1 < c + 1); [|lia]. unfold c.
    assert (- N ≤ M - (k + N) + N - 1) by lia.
    assert (-1 ≤ (M - (k + N) + N - 1) / N); [|lia].
    apply Z.div_le_lower_bound; lia. }
  destruct (decide (c + 1 = 0)) as [Hc|Hc].
  { exfalso. unfold c in Hc.
    assert (0 ≤ (M - (k + N) + N - 1) / N); [|lia].
    apply Z.div_pos; lia. }
  rewrite (seqZ_cons 0) by lia. rewrite fmap_cons. f_equal; [lia|].
  replace (Z.pred (c + 1)) with c by lia.
  replace (Z.succ 0) with (1 + 0) by lia.
  rewrite <- fmap_add_seqZ, <- list_fmap_compose.
  apply list_fmap_ext. intros _ j _. simpl. lia.
Qed.

Lemma elem_of_positionsOf (k N M i : Z) :
  1 ≤ N → 0 ≤ k < N →
  i ∈ positionsOf k N M ↔ 0 ≤ i < M ∧ i mod N = k.
Proof.
  intros HN Hk. unfold positionsOf. rewrite list_elem_of_fmap. split.
  - intros (j & -> & Hj%elem_of_seqZ).
    assert (j * N ≤ M - k - 1).
    { assert (j ≤ (M - k + N - 1) / N - 1) by lia.
      assert (N * ((M - k + N - 1) / N) ≤ M - k + N - 1) by (apply Z.mul_div_le; lia).
      nia. }
    split; [nia|]. rewrite Z.mod_add by lia. apply Z.mod_small. lia.
  - intros [Hi Hmod]. exists (i / N). split.
    + pose proof (Z.div_mod i N ltac:(lia)). lia.
    + apply elem_of_seqZ. split; [apply Z.div_pos; lia|].
      rewrite Z.add_0_l.
      assert (i / N ≤ (M - k - 1) / N).
      { apply Z.div_le_lower_bound; [lia|].
        pose proof (Z.div_mod i N ltac:(lia)). lia. }
      assert ((M - k - 1) / N < (M - k + N - 1) / N); [|lia].
      replace (M - k + N - 1) with (M - k - 1 + 1 * N) by lia.
      rewrite Z.div_add by lia. lia.
Qed.

Lemma NoDup_positionsOf (k N M : Z) : 1 ≤ N → NoDup (positionsOf k N M).
Proof.
  intros HN. unfold positionsOf. apply NoDup_fmap_2_strong; [|apply NoDup_seqZ].
  intros j1 j2 _ _ Heq. nia.
Qed.

Lemma insertIdxInTask_spec (N M : Z) (fuel : nat) (i : Z) :
  1 ≤ N → 0 ≤ i → M + N ≤ 2 ^ 63 → M - i ≤ Z.of_nat fuel →
  insertIdxInTask fuel i M N = Returned (positionsOf i N M).
Proof.
  intros HN. revert i. induction fuel as [|fuel IH]; intros i Hi Hwrap Hfuel.
  - simpl. rewrite (proj2 (Z.ltb_ge _ _)) by lia. by rewrite positionsOf_nil by lia.
  - simpl. destruct (Z.ltb_spec i M) as [Hlt|Hge].
    + rewrite wrap_int_small by lia. rewrite IH by lia. simpl.
      by rewrite (positionsOf_cons i) by lia.
    + by rewrite positionsOf_nil by lia.
Qed.

Lemma taskLoop_spec (N M : Z) (fuel : nat) (k : Z) :
  1 ≤ N → 0 ≤ k → 0 ≤ M → M + N ≤ 2 ^ 63 → M - k ≤ Z.of_nat fuel →
  taskLoop fuel k N M =
    Returned ((λ k', positionsOf k' N M) <$> seqZ k (Z.min N M - k)).
Proof.
  intros HN. revert k. induction fuel as [|fuel IH]; intros k Hk HM Hwrap Hfuel.
  - simpl. rewrite (proj2 (Z.geb_le _ _)) by lia. rewrite andb_false_r.
    by rewrite seqZ_nil by lia.
  - simpl. destruct (Z.ltb_spec k N) as [Hlt|Hge]; [|by rewrite seqZ_nil by lia].
    destruct (Z.geb_spec k M) as [HgeM|HltM]; [by rewrite seqZ_nil by lia|].
    rewrite insertIdxInTask_spec by lia. simpl.
    rewrite wrap_int_small by lia. rewrite IH by lia. simpl.
    rewrite (seqZ_cons k) by lia. rewrite fmap_cons.
    replace (Z.succ k) with (k + 1) by lia.
    by replace (Z.pred (Z.min N M - k)) with (Z.min N M - (k + 1)) by lia.
Qed.

Lemma join_fmap_bind {A B} (f : A → list B) (l : list A) : mjoin (f <$> l) = l ≫= f.
Proof. induction l as [|x l IH]; csimpl; [done|by rewrite IH]. Qed.

(** A task changes the store and the history of writes only. When it
    reports no error, it has written each of its positions once, in
    order. *)
Lemma writeTask_spec (kvIndices : list Z) (blobs : list bytes) (commits : list Hash)
    (t : list Z) :
  ∀ s s' r,
    writeTask s t kvIndices blobs commits = Returned (s', r) →
    onlyStoreChanged s s'
    ∧ (r = None →
       ∃ calls, writeLog s' = writeLog s ++ calls
                ∧ Forall2 (writeOfPosition kvIndices blobs commits) t calls).
Proof.
  induction t as [|idx rest IH]; intros s s' r.
  - simpl. intros [= <- <-]. split; [apply onlyStoreChanged_refl|].
    intros _. exists []. by rewrite app_nil_r.
  - simpl.
    destruct (index commits idx) as [commit|] eqn:Hc; [|done].
    destruct (index kvIndices idx) as [kvIdx|] eqn:Hk; [|done].
    destruct (index blobs idx) as [blob|] eqn:Hb; [|done].
    unfold shardTryWrite.
    destruct (ShardManager.TryWrite _ _ _ _) as [[sm ok] err].
    destruct err as [e|].
    + intros [= <- <-]. split; [done|]. done.
    + intros Hrest. apply IH in Hrest as [Hfr Hlog].
      split; [exact Hfr|].
      intros Hr. destruct (Hlog Hr) as (calls & Hcalls & Hall).
      exists (CallTryWrite kvIdx blob (prepareCommit commit) :: calls).
      split.
      * rewrite Hcalls. simpl. by rewrite <- app_assoc.
      * constructor; [|done]. by exists kvIdx, blob, commit.
Qed.

Lemma runTasks_spec (kvIndices : list Z) (blobs : list bytes) (commits : list Hash)
    (tasks : list (list Z)) :
  ∀ s s' results,
    runTasks s tasks kvIndices blobs commits = Returned (s', results) →
    onlyStoreChanged s s'
    ∧ length results = length tasks
    ∧ (firstError results = None →
       ∃ calls, writeLog s' = writeLog s ++ calls
                ∧ Forall2 (writeOfPosition kvIndices blobs commits) (mjoin tasks) calls).
Proof.
  induction tasks as [|t ts IH]; intros s s' results.
  - simpl. intros [= <- <-]. split; [apply onlyStoreChanged_refl|]. split; [done|].
    intros _. exists []. by rewrite app_nil_r.
  - simpl.
    destruct (writeTask s t kvIndices blobs commits) as [[s1 r]| |] eqn:Ht; simpl; [|done|done].
    destruct (runTasks s1 ts kvIndices blobs commits) as [[s2 rs]| |] eqn:Hts;
      simpl; [|done|done].
    intros [= <- <-].
    apply writeTask_spec in Ht as [Hfr1 Hlog1].
    apply IH in Hts as (Hfr2 & Hlen & Hlog2).
    split; [by apply (onlyStoreChanged_trans s s1 s2)|].
    split; [simpl; lia|].
    destruct r as [e|]; [done|]. simpl. intros Hnone.
    destruct (Hlog1 eq_refl) as (calls1 & Hc1 & Ha1).
    destruct (Hlog2 Hnone) as (calls2 & Hc2 & Ha2).
    exists (calls1 ++ calls2). split.
    + by rewrite Hc2, Hc1, app_assoc.
    + by apply Forall2_app.
Qed.

Lemma updateLocalMetas_frame (items : list (Z * Hash)) :
  ∀ s s',
    updateLocalMetas s items = Returned s' →
    shardManager s' = shardManager s ∧ writeLog s' = writeLog s
    ∧ localL1 s' = localL1 s ∧ lastKvIdx s' = lastKvIdx s
    ∧ l1Source s' = l1Source s ∧ DownloadThreadNum s' = DownloadThreadNum s.
Proof.
  induction items as [|[idx commit] rest IH]; intros s s'.
  - simpl. by intros [= <-].
  - simpl. destruct (localMetaOf idx commit) as [meta|]; [|done].
    intros Hrest. by apply IH in Hrest.
Qed.

(** ** DownloadFinished *)

(** Every way in which [DownloadFinished] returns. *)
Lemma DownloadFinished_inv s (newL1 : Z) (kvIndices : list Z) (blobs : list bytes)
    (commits : list Hash) s' r :
  DownloadFinished s newL1 kvIndices blobs commits = Returned (s', r) →
  (s' = s ∧ (r = Some errInvalidParamsLens ∨ r = Some errNewL1Older ∧ newL1 ≤ localL1 s))
  ∨ (localL1 s < newL1
     ∧ ∃ l res, Il1Source.GetStorageLastBlobIdx (l1Source s) newL1 = (l, res)
       ∧ ((∃ e, res = inr e ∧ s' = with_l1Source s l ∧ r = Some (errExternal e))
          ∨ ∃ v tasks s2 results,
              res = inl v
              ∧ taskLoop (Z.to_nat (Z.of_nat (length kvIndices))) 0 (DownloadThreadNum s)
                  (Z.of_nat (length kvIndices)) = Returned tasks
              ∧ runTasks (with_lastKvIdx (with_l1Source s l) v) tasks kvIndices blobs commits
                = Returned (s2, results)
              ∧ ((∃ e, firstError results = Some e ∧ s' = s2 ∧ r = Some (errExternal e))
                 ∨ firstError results = None ∧ r = None
                   ∧ updateLocalMetas (with_localL1 s2 newL1) (zip kvIndices commits)
                     = Returned s'))).
Proof.
  unfold DownloadFinished.
  destruct (bool_decide _ || bool_decide _); [intros [= <- <-]; left; auto|].
  destruct (Z.leb_spec newL1 (localL1 s)) as [Hle|Hlt]; [intros [= <- <-]; left; auto|].
  destruct (Il1Source.GetStorageLastBlobIdx (l1Source s) newL1) as [l [v|e]] eqn:Hlast.
  2:{ intros [= <- <-]. right. split; [done|]. exists l, (inr e). split; [done|].
      left. by exists e. }
  cbn [DownloadThreadNum with_lastKvIdx with_l1Source].
  destruct (DownloadThreadNum s <? 0); [done|].
  destruct (taskLoop _ 0 (DownloadThreadNum s) _) as [tasks| |] eqn:Htasks;
    cbn [mbind outcome_bind]; [|done|done].
  destruct (runTasks _ tasks kvIndices blobs commits) as [[s2 results]| |] eqn:Hrun;
    cbn [mbind outcome_bind]; [|done|done].
  intros Hret. right. split; [done|]. exists l, (inl v). split; [done|].
  right. exists v, tasks, s2, results. split; [done|]. split; [done|]. split; [done|].
  destruct (firstError results) as [e|].
  - injection Hret as <- <-. left. by exists e.
  - right. split; [done|].
    destruct (updateLocalMetas _ _) as [s3| |]; cbn [mbind outcome_bind] in Hret; [|done|done].
    by injection Hret as <- <-.
Qed.

(** What a failed write leaves behind: [localL1] is the one before the
    call, [lastKvIdx] is the one the L1 source gave for the new block. *)
Lemma DownloadFinished_write_failed s (newL1 : Z) (kvIndices : list Z) (blobs : list bytes)
    (commits : list Hash) s' l v e :
  Il1Source.GetStorageLastBlobIdx (l1Source s) newL1 = (l, inl v) →
  DownloadFinished s newL1 kvIndices blobs commits = Returned (s', Some (errExternal e)) →
  localL1 s' = localL1 s ∧ lastKvIdx s' = v ∧ blobMetas s' = blobMetas s.
Proof.
  intros Hlast Hret. apply DownloadFinished_inv in Hret.
  destruct Hret as [[_ [?|[? _]]]|(_ & l' & res & Hlast' & Hcases)]; [done|done|].
  rewrite Hlast in Hlast'. injection Hlast' as <- <-.
  destruct Hcases as [(e' & ? & _)|(v' & tasks & s2 & results & [= <-] & _ & Hrun & Hres)];
    [done|].
  destruct Hres as [(e' & _ & -> & _)|(_ & ? & _)]; [|done].
  apply runTasks_spec in Hrun as [(H1 & H2 & _ & _ & H5) _]. done.
Qed.

Lemma DownloadFinished_localL1 s (newL1 : Z) (kvIndices : list Z) (blobs : list bytes)
    (commits : list Hash) s' r :
  DownloadFinished s newL1 kvIndices blobs commits = Returned (s', r) →
  localL1 s ≤ localL1 s' ∧ (r = None → localL1 s' = newL1).
Proof.
  intros Hret. apply DownloadFinished_inv in Hret.
  destruct Hret as [[-> Hr]|(Hlt & l & res & Hlast & Hcases)].
  { split; [lia|]. by intros ->; destruct Hr as [?|[? _]]. }
  destruct Hcases as [(e & _ & -> & ->)|(v & tasks & s2 & results & _ & _ & Hrun & Hres)].
  { split; [simpl; lia|done]. }
  apply runTasks_spec in Hrun as [(H1 & _) _]. simpl in H1.
  destruct Hres as [(e & _ & -> & ->)|(_ & -> & Hupd)].
  - split; [lia|done].
  - apply updateLocalMetas_frame in Hupd as (_ & _ & Hl1 & _). simpl in Hl1.
    split; [lia|]. by intros _.
Qed.

(** ** The fields the operations leave alone *)

Lemma commitBlobsLoop_frame (items : list (Hash * (Z * ((bytes * bool) * Hash)))) :
  ∀ s inserted s' inserted',
    commitBlobsLoop s items inserted = (s', inserted') → onlyStoreChanged s s'.
Proof.
  induction items as [|[cm [k [[enc e] c]]] rest IH]; intros s inserted s' inserted'.
  - intros [= <- _]. apply onlyStoreChanged_refl.
  - simpl. destruct e; simpl; [|by apply IH].
    destruct (commitEncodedBlob s k enc c cm) as [s1 r] eqn:Hrule.
    apply commitEncodedBlob_frame in Hrule as [Hfr _].
    destruct r; intros Hloop; apply IH in Hloop;
      by apply (onlyStoreChanged_trans s s1 s').
Qed.

Lemma commitEmptyLoop_frame (items : list ((Z * bytes) * Hash)) :
  ∀ s inserted next s' inserted' next',
    commitEmptyLoop s items inserted next = (s', inserted', next') → onlyStoreChanged s s'.
Proof.
  induction items as [|[[index enc] meta] rest IH]; intros s inserted next s' inserted' next'.
  - intros [= <- _ _]. apply onlyStoreChanged_refl.
  - simpl. destruct (commitEncodedBlob s index enc zeroHash meta) as [s1 r] eqn:Hrule.
    apply commitEncodedBlob_frame in Hrule as [Hfr _].
    destruct r as [e|].
    + destruct (bool_decide (e ≠ errCommitMismatch)).
      * by intros [= <- _ _].
      * intros Hloop. apply IH in Hloop. by apply (onlyStoreChanged_trans s s1 s').
    + intros Hloop. apply IH in Hloop. by apply (onlyStoreChanged_trans s s1 s').
Qed.

(** A download of metas changes the cache and the state of the L1 source
    only. *)
Lemma downloadMetaInRangeLoop_frame (fuel : nat) :
  ∀ s (from to : Z) s' r,
    downloadMetaInRangeLoop fuel s from to = Returned (s', r) →
    localL1 s' = localL1 s ∧ lastKvIdx s' = lastKvIdx s
    ∧ shardManager s' = shardManager s ∧ writeLog s' = writeLog s
    ∧ DownloadThreadNum s' = DownloadThreadNum s.
Proof.
  induction fuel as [|fuel IH]; intros s from to s' r.
  - simpl. destruct (from <? to); [done|]. by intros [= <- _].
  - simpl. destruct (from <? to); [|by intros [= <- _]].
    destruct (Il1Source.GetKvMetas (l1Source s) _ (localL1 s)) as [l1 r1].
    destruct (match r1 with inl _ => (l1, r1) | inr _ => _ end) as [l2 r2].
    destruct r2 as [metas|e]; [|by intros [= <- _]].
    cbn [localL1 with_l1Source blobMetas].
    destruct (bool_decide (localL1 s ≠ localL1 s)).
    + intros Hloop. by apply IH in Hloop.
    + destruct (installMetas _ _ metas) as [m|]; [|done].
      intros Hloop. by apply IH in Hloop.
Qed.

Lemma metaTaskLoop_frame (fuel : nat) :
  ∀ s (taskIdx taskNum rangeSize to : Z) s' rs,
    metaTaskLoop fuel s taskIdx taskNum rangeSize to = Returned (s', rs) →
    localL1 s' = localL1 s ∧ lastKvIdx s' = lastKvIdx s
    ∧ shardManager s' = shardManager s ∧ writeLog s' = writeLog s
    ∧ DownloadThreadNum s' = DownloadThreadNum s.
Proof.
  induction fuel as [|fuel IH]; intros s taskIdx taskNum rangeSize to s' rs.
  - simpl. destruct (taskIdx <? taskNum); [done|]. by intros [= <- _].
  - simpl. destruct (taskIdx <? taskNum); [|by intros [= <- _]].
    unfold downloadMetaInRange.
    destruct (downloadMetaInRangeLoop _ s _ _) as [[s1 r]| |] eqn:Hrange;
      cbn [mbind outcome_bind]; [|done|done].
    destruct (metaTaskLoop fuel s1 _ taskNum rangeSize to) as [[s2 rs']| |] eqn:Hloop;
      cbn [mbind outcome_bind]; [|done|done].
    intros [= <- _].
    apply downloadMetaInRangeLoop_frame in Hrange as (? & ? & ? & ? & ?).
    apply IH in Hloop as (? & ? & ? & ? & ?).
    repeat split; congruence.
Qed.

(** ** Downloading metas from a static source *)

Lemma with_l1Source_id s : with_l1Source s (l1Source s) = s.
Proof. by destruct s. Qed.

Lemma with_blobMetas_id s : with_blobMetas s (blobMetas s) = s.
Proof. by destruct s. Qed.

Lemma installMetas_fmap (g : Z → Hash) (ks : list Z) :
  ∀ m : gmap Z Hash,
    ∃ m', installMetas m ks (g <$> ks) = Some m'
          ∧ ∀ k, m' !! k = if bool_decide (k ∈ ks) then Some (g k) else m !! k.
Proof.
  induction ks as [|k0 ks IH]; intros m.
  - exists m. split; [done|]. intros k. rewrite bool_decide_eq_false_2; [done|].
    apply not_elem_of_nil.
  - destruct (IH (<[k0 := g k0]> m)) as (m' & Hinst & Hlook).
    exists m'. split; [done|]. intros k. rewrite Hlook.
    destruct (decide (k ∈ ks)) as [Hin|Hin].
    + rewrite !bool_decide_eq_true_2; [done|by right|done].
    + rewrite (bool_decide_eq_false_2 _ Hin).
      destruct (decide (k = k0)) as [->|Hne].
      * rewrite lookup_insert_eq. rewrite bool_decide_eq_true_2; [done|by left].
      * rewrite lookup_insert_ne by done. rewrite bool_decide_eq_false_2; [done|].
        intros [?|?]%elem_of_cons; done.
Qed.

(** One pass of [downloadMetaInRange] over [[from, to)] installs the metas
    of the indices of the range, and of these only. *)
Lemma downloadMetaInRangeLoop_static (f : Z → Z → Hash) (to : Z) (fuel : nat) :
  ∀ s (from : Z),
    staticSource (l1Source s) f →
    0 ≤ from → to + MetaBatchSize ≤ 2 ^ 64 → to - from ≤ Z.of_nat fuel →
    ∃ m', downloadMetaInRangeLoop fuel s from to = Returned (with_blobMetas s m', None)
          ∧ ∀ k, m' !! k = if bool_decide (from ≤ k < to) then Some (f (localL1 s) k)
                           else blobMetas s !! k.
Proof.
  unfold MetaBatchSize.
  induction fuel as [|fuel IH]; intros s from Hst Hfrom Hto Hfuel.
  - simpl. rewrite (proj2 (Z.ltb_ge _ _)) by lia.
    exists (blobMetas s). rewrite with_blobMetas_id. split; [done|].
    intros k. rewrite bool_decide_eq_false_2; [done|lia].
  - simpl. destruct (Z.ltb_spec from to) as [Hlt|Hge].
    2:{ exists (blobMetas s). rewrite with_blobMetas_id. split; [done|].
        intros k. rewrite bool_decide_eq_false_2; [done|lia]. }
    unfold MetaBatchSize. rewrite wrap_uint64_small by lia.
    set (batchLimit := if from + 8000 >? to then to else from + 8000).
    assert (Hbl : from < batchLimit ≤ to).
    { unfold batchLimit. destruct (Z.gtb_spec (from + 8000) to); lia. }
    rewrite (Hst (seqZ from (batchLimit - from)) (localL1 s)).
    rewrite with_l1Source_id.
    rewrite bool_decide_eq_false_2 by (intros Hne; by apply Hne).
    destruct (installMetas_fmap (f (localL1 s)) (seqZ from (batchLimit - from)) (blobMetas s))
      as (m1 & -> & Hm1).
    destruct (IH (with_blobMetas s m1) batchLimit Hst ltac:(lia) Hto ltac:(lia))
      as (m' & Hloop & Hm').
    exists m'. split; [exact Hloop|].
    intros k. rewrite Hm'. cbn [localL1 blobMetas with_blobMetas]. rewrite Hm1.
    destruct (decide (batchLimit ≤ k < to)) as [Hk|Hk].
    + rewrite !bool_decide_eq_true_2; [done|lia|done].
    + rewrite (bool_decide_eq_false_2 _ Hk).
      destruct (decide (from ≤ k < batchLimit)) as [Hk1|Hk1].
      * rewrite !bool_decide_eq_true_2; [done|lia|]. apply elem_of_seqZ. lia.
      * rewrite !bool_decide_eq_false_2; [done|lia|]. rewrite elem_of_seqZ. lia.
Qed.

(** The tasks [taskIdx .. 31] of the parallel download: together they
    install the metas of [[taskIdx * rangeSize, to)]. *)
Lemma metaTaskLoop_static (f : Z → Z → Hash) (to rangeSize : Z) (fuel : nat) :
  ∀ s (taskIdx : Z),
    staticSource (l1Source s) f →
    0 ≤ rangeSize → 31 * rangeSize ≤ to → to + MetaBatchSize ≤ 2 ^ 64 →
    0 ≤ taskIdx ≤ 32 → 32 - taskIdx ≤ Z.of_nat fuel →
    ∃ m', metaTaskLoop fuel s taskIdx MetaDownloadThread rangeSize to
          = Returned (with_blobMetas s m', replicate (Z.to_nat (32 - taskIdx)) None)
          ∧ ∀ k, m' !! k =
                 if bool_decide (taskIdx < 32 ∧ taskIdx * rangeSize ≤ k < to)
                 then Some (f (localL1 s) k) else blobMetas s !! k.
Proof.
  unfold MetaDownloadThread.
  induction fuel as [|fuel IH]; intros s taskIdx Hst Hrs H31 Hto Hidx Hfuel.
  - simpl. rewrite (proj2 (Z.ltb_ge _ _)) by lia.
    exists (blobMetas s). rewrite with_blobMetas_id.
    replace (32 - taskIdx) with 0 by lia. split; [done|].
    intros k. rewrite bool_decide_eq_false_2; [done|lia].
  - simpl. destruct (Z.ltb_spec taskIdx 32) as [Hlt|Hge].
    2:{ exists (blobMetas s). rewrite with_blobMetas_id.
        replace (32 - taskIdx) with 0 by lia. split; [done|].
        intros k. rewrite bool_decide_eq_false_2; [done|lia]. }
    assert (Hmono : taskIdx * rangeSize ≤ 31 * rangeSize) by nia.
    rewrite (wrap_uint64_small (taskIdx * rangeSize)) by (unfold MetaBatchSize in Hto; nia).
    rewrite (wrap_uint64_small (taskIdx + 1)) by lia.
    set (rangeEnd := if bool_decide (taskIdx = 32 - 1) then to
                     else wrap_uint64 ((taskIdx + 1) * rangeSize)).
    assert (Hend : rangeEnd = if bool_decide (taskIdx = 31) then to
                              else (taskIdx + 1) * rangeSize).
    { unfold rangeEnd. change (32 - 1) with 31. case_bool_decide; [done|].
      apply wrap_uint64_small. unfold MetaBatchSize in Hto. nia. }
    assert (Hend' : taskIdx * rangeSize ≤ rangeEnd ≤ to).
    { rewrite Hend. case_bool_decide; nia. }
    unfold downloadMetaInRange.
    destruct (downloadMetaInRangeLoop_static f rangeEnd
                (Z.to_nat (rangeEnd - taskIdx * rangeSize)) s (taskIdx * rangeSize))
      as (m1 & -> & Hm1); [done|nia|lia|lia|].
    cbn [mbind outcome_bind].
    destruct (IH (with_blobMetas s m1) (taskIdx + 1)) as (m' & -> & Hm');
      [done|done|done|done|lia|lia|].
    cbn [mbind outcome_bind].
    exists m'. split.
    + replace (Z.to_nat (32 - taskIdx)) with (S (Z.to_nat (32 - (taskIdx + 1)))) by lia.
      done.
    + intros k. rewrite Hm'. cbn [localL1 blobMetas with_blobMetas]. rewrite Hm1, Hend.
      repeat case_bool_decide; try done; nia.
Qed.

(** The parallel download from a static source: below the threshold it
    installs the metas of [[from, to)]; from the threshold on it installs
    the metas of [[0, to)], because the ranges of the tasks start at
    [taskIdx * rangeSize], not at [from + taskIdx * rangeSize]. *)
Lemma downloadMetaInParallel_static (f : Z → Z → Hash) s (from to : Z) :
  staticSource (l1Source s) f →
  0 ≤ from ≤ to → to + MetaBatchSize ≤ 2 ^ 64 →
  ∃ m', downloadMetaInParallel s from to = Returned (with_blobMetas s m', None)
        ∧ ∀ k, m' !! k =
               if bool_decide ((if to - from <? 256000 then from else 0) ≤ k < to)
               then Some (f (localL1 s) k) else blobMetas s !! k.
Proof.
  intros Hst Hft Hto. unfold downloadMetaInParallel.
  assert (HM : to < 2 ^ 64) by (unfold MetaBatchSize in Hto; lia).
  rewrite (wrap_uint64_small (to - from)) by lia.
  change (wrap_uint64 (MetaDownloadThread * MetaBatchSize)) with 256000.
  destruct (Z.ltb_spec (to - from) 256000) as [Hsmall|Hbig].
  - unfold downloadMetaInRange.
    destruct (downloadMetaInRangeLoop_static f to (Z.to_nat (to - from)) s from)
      as (m' & -> & Hm'); [done|lia|done|lia|].
    by exists m'.
  - assert (Hrs : 0 ≤ (to - from) / MetaDownloadThread) by (apply Z.div_pos; [lia|reflexivity]).
    assert (Hrs' : MetaDownloadThread * ((to - from) / MetaDownloadThread) ≤ to - from)
      by (apply Z.mul_div_le; reflexivity).
    destruct (metaTaskLoop_static f to ((to - from) / MetaDownloadThread)
                (Z.to_nat MetaDownloadThread) s 0)
      as (m' & -> & Hm'); [done|done|unfold MetaDownloadThread in *; lia|done|lia| |].
    { unfold MetaDownloadThread. lia. }
    cbn [mbind outcome_bind]. exists m'. split; [done|].
    intros k. rewrite Hm'. repeat case_bool_decide; try done; lia.
Qed.

(** From index 0 the parallel download and one sequential pass install the
    same metas. *)
Lemma downloadMetaInParallel_from_0 (f : Z → Z → Hash) s (to : Z) :
  staticSource (l1Source s) f →
  0 ≤ to → to + MetaBatchSize ≤ 2 ^ 64 →
  downloadMetaInParallel s 0 to = downloadMetaInRange s 0 to 0.
Proof.
  intros Hst Hto0 Hto.
  destruct (downloadMetaInParallel_static f s 0 to Hst ltac:(lia) Hto) as (m1 & -> & Hm1).
  unfold downloadMetaInRange.
  destruct (downloadMetaInRangeLoop_static f to (Z.to_nat (to - 0)) s 0 Hst
              ltac:(lia) Hto ltac:(lia)) as (m2 & -> & Hm2).
  do 3 f_equal. apply map_eq. intros k. rewrite Hm1, Hm2.
  destruct (to - 0 <? 256000); done.
Qed.

End Theory.

(** * The in-memory collaborators, and the results on concrete inputs *)

Lemma Mem_readback (sm sm' : Mem.store) (k : Z) (enc : bytes) (c : Hash) :
  ShardManager.TryWriteEncoded sm k enc c = (sm', true, None) →
  ShardManager.TryReadMeta sm' k = (c, true, None).
Proof.
  simpl. unfold Mem.write.
  destruct (bool_decide (k ∈ Mem.faulty sm)); [done|].
  destruct (Mem.hasSlot sm k) eqn:Hslot; [|done].
  intros [= <-]. unfold Mem.hasSlot in *. simpl. rewrite Hslot.
  by rewrite lookup_insert_eq.
Qed.

Lemma Mem_encode_stable (sm sm' : Mem.store) (k : Z) (enc : bytes) (c : Hash)
    (k' : Z) (b : bytes) (c' : Hash) :
  ShardManager.TryWriteEncoded sm k enc c = (sm', true, None) →
  ShardManager.TryEncodeKV sm' k' b c' = ShardManager.TryEncodeKV sm k' b c'.
Proof.
  simpl. unfold Mem.write.
  destruct (bool_decide (k ∈ Mem.faulty sm)); [done|].
  destruct (Mem.hasSlot sm k); [|done].
  by intros [= <-].
Qed.

Lemma Mem_static (l : Mem.ledger) : staticSource l (λ _, Mem.metaAt l).
Proof. by intros ks bn. Qed.

(** ** C1: a failed write and the local view *)

(** C1 on a concrete input. The view is block 5 with last index 3; the
    L1 source gives last index 9 for block 42; slot 2 cannot be written.
    [DownloadFinished 42] of the slots 1, 2, 3 returns the error of the
    failed write and keeps [localL1 = 5], but [lastKvIdx] is 9 after the
    call: it is not the value before the call. *)
Theorem DownloadFinished_failed_write_moves_lastKvIdx :
  ∃ s',
    DownloadFinished Scenario.sFaulty 42 [1; 2; 3] [[1]; [2]; [3]]
      [Scenario.commitA; Scenario.commitA; Scenario.commitA]
    = Returned (s', Some (errExternal "write failed"))
    ∧ localL1 Scenario.sFaulty = 5 ∧ localL1 s' = 5
    ∧ lastKvIdx Scenario.sFaulty = 3 ∧ lastKvIdx s' = 9.
Proof. eexists. split; [vm_compute; reflexivity|]. vm_compute. done. Qed.

(** ** C6: the parallel download of a range that does not start at 0 *)

(** C6 on a concrete input. With an empty cache and a static source, the
    download of [[256000, 512000)] takes the parallel path. It installs the
    meta of index 0, which is outside the range and which one sequential
    pass over the range leaves alone; inside the range the two agree. *)
Theorem downloadMetaInParallel_outside_range :
  ∃ sp ss,
    downloadMetaInParallel Scenario.sFresh 256000 512000 = Returned (sp, None)
    ∧ downloadMetaInRange Scenario.sFresh 256000 512000 0 = Returned (ss, None)
    ∧ blobMetas sp !! 0 = Some (Mem.indexMeta 0)
    ∧ blobMetas ss !! 0 = None
    ∧ ∀ k, 256000 ≤ k < 512000 → blobMetas sp !! k = blobMetas ss !! k.
Proof.
  destruct (downloadMetaInParallel_static (λ _, Mem.metaAt Scenario.ledger0)
              Scenario.sFresh 256000 512000 (Mem_static _))
    as (m1 & E1 & H1); [lia|unfold MetaBatchSize; lia|].
  destruct (downloadMetaInRangeLoop_static (λ _, Mem.metaAt Scenario.ledger0) 512000
              (Z.to_nat (512000 - 256000)) Scenario.sFresh 256000 (Mem_static _))
    as (m2 & E2 & H2); [lia|unfold MetaBatchSize; lia|lia|].
  eexists _, _. split; [exact E1|]. split; [exact E2|].
  cbn [blobMetas with_blobMetas].
  split; [by rewrite H1|]. split; [by rewrite H2|].
  intros k Hk. rewrite H1, H2.
  rewrite !bool_decide_eq_true_2; [done|lia|].
  change (512000 - 256000 <? 256000) with false. lia.
Qed.

(** ** C8: which index the per-slot rule compares *)

(** The claim as worded fails here. The physical meta of slot 1 is zero: the
    index in its bytes [0,5) is 0, not 1. The cached contract meta carries
    index 1, and the rule commits the empty blob to slot 1 with a write. *)
Lemma commitEncodedBlob_physical_index_not_checked :
  ∃ m s',
    ShardManager.TryReadMeta (shardManager Scenario.s0) 1 = (m, true, None)
    ∧ Uint64 (SetBytes (slice 0 5 m)) ≠ 1
    ∧ commitEncodedBlob Scenario.s0 1 [] zeroHash (Mem.indexMeta 1) = (s', None)
    ∧ writeLog s' = [CallTryWriteEncoded 1 [] (prepareCommit zeroHash)].
Proof.
  eexists _, _. split; [vm_compute; reflexivity|].
  split; [by vm_compute|]. split; [vm_compute; reflexivity|]. reflexivity.
Qed.

Lemma commitEncodedBlob_contract_index_guard_witness :
  commitEncodedBlob Scenario.s0 2 [] zeroHash (Mem.indexMeta 1)
  = (Scenario.s0, Some errKvIdxMismatch).
Proof.
  apply (commitEncodedBlob_contract_index_guard Scenario.s0 2 [] zeroHash
           (Mem.indexMeta 1) zeroHash).
  - reflexivity.
  - reflexivity.
  - vm_compute. discriminate.
Defined.

(** ** C7 *)

Lemma TryReadEncoded_sync_classes_witness :
  TryReadEncoded Scenario.s0 3 10 = ([], false, Some errSyncingOrEmpty).
Proof.
  assert (Hread : ShardManager.TryReadMeta (shardManager Scenario.s0) 3
                  = (zeroHash, true, None)) by (vm_compute; reflexivity).
  destruct (TryReadEncoded_sync_classes Scenario.s0 3 10 zeroHash Hread eq_refl)
    as (_ & Hfail & _).
  apply Hfail. left. intros i Hi. unfold zeroHash. by rewrite lookup_replicate_2.
Defined.

(** ** C2 *)

Lemma commit_mismatch_rejected_witness :
  CommitBlob Scenario.s0 3 [1] zeroHash = (Scenario.s0, Some errCommitMismatch)
  ∧ ∃ s' inserted,
      CommitBlobs Scenario.s0 [1; 3] [[]; [1]] [zeroHash; zeroHash]
      = Returned (s', (inserted, None))
      ∧ 3 ∉ inserted.
Proof.
  destruct (commit_mismatch_rejected Scenario.s0 3) as (_ & Hsingle & Hbatch).
  split.
  - destruct (Hsingle [1] zeroHash) as [_ Hencoded]; [by vm_compute|].
    apply (Hencoded [1]). reflexivity.
  - specialize (Hbatch [1; 3] [[]; [1]] [zeroHash; zeroHash]).
    destruct (CommitBlobs Scenario.s0 [1; 3] [[]; [1]] [zeroHash; zeroHash])
      as [[s' [inserted e]]| |] eqn:E.
    + exists s', inserted. split.
      * vm_compute in E. injection E as <- <- <-. vm_compute. reflexivity.
      * apply Hbatch. intros i commit Hi Hc.
        destruct i as [|[|i]]; [discriminate Hi| |discriminate Hi].
        injection Hc as <-. by vm_compute.
    + vm_compute in E. discriminate E.
    + vm_compute in E. discriminate E.
Defined.

(** ** C10 *)

(** The claim as worded fails here. Slot 20 has no entry in the cache and the
    commit has a non-zero prefix, but the store has no slot 20, the
    encoding fails, and the error is the encode error, not the
    commit-mismatch error. *)
Lemma CommitBlob_unknown_slot_encode_error :
  blobMetas Scenario.sFresh !! 20 = None
  ∧ slice 0 HashSizeInContract Scenario.commitA ≠ replicate 24 0
  ∧ CommitBlob Scenario.sFresh 20 [1] Scenario.commitA
    = (Scenario.sFresh, Some errBlobEncodeFailed)
  ∧ CommitBlob Scenario.sFresh 20 [1] Scenario.commitA
    ≠ (Scenario.sFresh, Some errCommitMismatch).
Proof.
  split; [reflexivity|]. split; [by vm_compute|].
  split; [vm_compute; reflexivity|]. vm_compute. discriminate.
Qed.

Lemma CommitBlob_unknown_slot_witness :
  CommitBlob Scenario.sFresh 5 [1] Scenario.commitA
  = (Scenario.sFresh, Some errCommitMismatch)
  ∧ CommitBlob Scenario.sFresh 5 [1] zeroHash = (Scenario.sFresh, Some errKvIdxMismatch).
Proof.
  split.
  - destruct (CommitBlob_unknown_slot Scenario.sFresh 5 [1] Scenario.commitA eq_refl)
      as (_ & _ & Hmis & _).
    apply (Hmis [1]); [reflexivity|by vm_compute].
  - destruct (CommitBlob_unknown_slot Scenario.sFresh 5 [1] zeroHash eq_refl)
      as (_ & _ & _ & Hidx).
    apply (Hidx [1] zeroHash); [reflexivity|reflexivity|lia|reflexivity].
Defined.

(** ** C4 *)

Lemma CommitBlob_idempotent_witness :
  ∃ s1,
    CommitBlob Scenario.s0 3 [1; 2; 3] Scenario.commitA = (s1, None)
    ∧ writeLog s1 = [CallTryWriteEncoded 3 [1; 2; 3] (prepareCommit Scenario.commitA)]
    ∧ CommitBlob s1 3 [1; 2; 3] Scenario.commitA = (s1, None).
Proof.
  destruct (CommitBlob Scenario.s0 3 [1; 2; 3] Scenario.commitA) as [s1 r] eqn:E.
  assert (Hr : r = None) by (vm_compute in E; by injection E as _ <-).
  subst r. exists s1. split; [done|]. split.
  - vm_compute in E. injection E as <-. reflexivity.
  - destruct (CommitBlob_idempotent Scenario.s0 3 [1; 2; 3] Scenario.commitA s1
                Mem_readback Mem_encode_stable eq_refl E) as (m & _ & _ & _ & Hagain).
    exact Hagain.
Defined.

(** ** C5 *)

(** Slots 1, 2 and 4 are expected empty and slot 3 has content: the fill of
    [1 .. 4] commits three slots, passes over slot 3 and ends with the
    cursor at 5. *)
Example CommitEmptyBlobs_skips_filled_slot :
  ∃ s', CommitEmptyBlobs Scenario.s0 1 4 = Returned (s', (3, 5, None))
        ∧ writeCall_kvIdx <$> writeLog s' = [1; 2; 4].
Proof. eexists. split; [vm_compute; reflexivity|]. reflexivity. Qed.


(** * Further properties of the StorageManager *)

(** ** prepareCommit and the metas built locally *)

Lemma prepareCommit_explicit (c : Hash) :
  length c = 32%nat →
  prepareCommit c = take 24 c ++ blobFillingMask :: replicate 7 0.
Proof.
  intros Hlen.
  do 32 (destruct c as [|? c]; [discriminate Hlen|]).
  destruct c; [|discriminate Hlen]. reflexivity.
Qed.

(** X1. [prepareCommit] keeps the first 24 bytes of the commit, sets byte
    24 to the filling bit alone and clears the last seven bytes, so the
    bytes [24,32) of the commit never reach the store. It is idempotent,
    and two commits with the same first 24 bytes are prepared alike. *)
Theorem prepareCommit_shape (commit : Hash) :
  length commit = 32%nat →
  prepareCommit commit = take 24 commit ++ blobFillingMask :: replicate 7 0
  ∧ prepareCommit (prepareCommit commit) = prepareCommit commit
  ∧ ∀ commit' : Hash,
      length commit' = 32%nat → take 24 commit' = take 24 commit →
      prepareCommit commit' = prepareCommit commit.
Proof.
  pose proof prepareCommit_explicit as Hshape.
  intros Hlen. split; [by apply Hshape|]. split.
  - rewrite (Hshape (prepareCommit commit)) by apply length_prepareCommit.
    rewrite (Hshape commit Hlen) at 2. f_equal.
    rewrite (Hshape commit Hlen). rewrite take_app_le by (rewrite length_take; lia).
    rewrite take_take. f_equal.
  - intros commit' Hlen' Hpre. by rewrite (Hshape commit'), (Hshape commit), Hpre.
Qed.

Lemma prepareCommit_shape_witness :
  prepareCommit Scenario.commitA = replicate 24 7 ++ 128 :: replicate 7 0.
Proof.
  exact (proj1 (prepareCommit_shape Scenario.commitA eq_refl)).
Defined.

Lemma SetBytes_snoc (l : bytes) (d : Z) : SetBytes (l ++ [d]) = SetBytes l * 256 + d.
Proof. unfold SetBytes. by rewrite fold_left_app. Qed.

Lemma length_be_digits (n : nat) (x : Z) : length (be_digits n x) = n.
Proof.
  revert x. induction n as [|n IH]; intros x; [done|].
  simpl. rewrite length_app, IH. simpl. lia.
Qed.

(** The big-endian digits of a number that fits are read back by
    [SetBytes]. *)
Lemma SetBytes_be_digits (n : nat) (x : Z) :
  0 ≤ x < 256 ^ Z.of_nat n → SetBytes (be_digits n x) = x.
Proof.
  revert x. induction n as [|n IH]; intros x Hx.
  - simpl in *. unfold SetBytes. simpl. lia.
  - simpl be_digits. rewrite SetBytes_snoc.
    rewrite Nat2Z.inj_succ, Z.pow_succ_r in Hx by lia.
    rewrite IH.
    + pose proof (Z.div_mod x 256 ltac:(lia)). lia.
    + split; [apply Z.div_pos; lia|]. apply Z.div_lt_upper_bound; lia.
Qed.

Lemma SetBytes_bound (l : bytes) :
  Forall (λ b, 0 ≤ b < 256) l → 0 ≤ SetBytes l < 256 ^ Z.of_nat (length l).
Proof.
  induction l as [|d l IH] using rev_ind; intros Hall.
  - unfold SetBytes. simpl. lia.
  - apply Forall_app in Hall as [Hl Hd]. apply Forall_inv in Hd.
    rewrite SetBytes_snoc, length_app. simpl length.
    replace (Z.of_nat (length l + 1)) with (Z.succ (Z.of_nat (length l))) by lia.
    rewrite Z.pow_succ_r by lia. specialize (IH Hl). lia.
Qed.

Lemma localMetaOf_cases (idx : Z) (commit : Hash) :
  0 ≤ idx < 2 ^ 63 → length commit = 32%nat →
  match localMetaOf idx commit with
  | Some meta =>
      idx < 2 ^ 40
      ∧ length meta = 32%nat
      ∧ Uint64 (SetBytes (slice 0 5 meta)) = idx
      ∧ slice (32 - HashSizeInContract) 32 meta = slice 0 HashSizeInContract commit
  | None => 2 ^ 40 ≤ idx
  end.
Proof.
  intros Hidx Hlen. unfold localMetaOf, FillBytes.
  rewrite wrap_int_small by lia. rewrite Z.abs_eq by lia.
  change (256 ^ Z.of_nat 5) with (2 ^ 40).
  destruct (Z.ltb_spec idx (2 ^ 40)) as [Hlt|Hge]; [|done].
  cbn [mbind option_bind].
  pose proof (SetBytes_be_digits 5 idx ltac:(change (256 ^ Z.of_nat 5) with (2 ^ 40); lia))
    as Hback.
  pose proof (length_be_digits 5 idx) as Hb.
  destruct (be_digits 5 idx) as [|b0 [|b1 [|b2 [|b3 [|b4 [|]]]]]]; try discriminate Hb.
  do 32 (destruct commit as [|? commit]; [discriminate Hlen|]).
  destruct commit; [|discriminate Hlen].
  split; [done|]. split; [reflexivity|]. split; [|reflexivity].
  change (slice 0 5 _) with [b0; b1; b2; b3; b4].
  rewrite Hback. unfold Uint64. apply wrap_uint64_small. lia.
Qed.

(** X2. The meta [updateLocalMetas] builds for an index below [2^40] and a
    32-byte commit is a 32-byte record that reads back: the index decoded
    from its bytes [0,5) is the index, and its bytes [8,32) are the first
    24 bytes of the commit, which is what [commitEncodedBlob] compares.
    For an index from [2^40] on (below [2^63]) the five bytes are too few
    and [FillBytes] panics. *)
Theorem localMetaOf_roundtrip (idx : Z) (commit : Hash) :
  0 ≤ idx < 2 ^ 63 → length commit = 32%nat →
  match localMetaOf idx commit with
  | Some meta =>
      idx < 2 ^ 40
      ∧ length meta = 32%nat
      ∧ Uint64 (SetBytes (slice 0 5 meta)) = idx
      ∧ slice (32 - HashSizeInContract) 32 meta = slice 0 HashSizeInContract commit
  | None => 2 ^ 40 ≤ idx
  end.
Proof. apply localMetaOf_cases. Qed.

Lemma localMetaOf_roundtrip_witness :
  localMetaOf 3 Scenario.commitA = Some (Scenario.contractMetaOf 3 Scenario.commitA).
Proof.
  pose proof (localMetaOf_roundtrip 3 Scenario.commitA ltac:(lia) eq_refl) as H.
  destruct (localMetaOf 3 Scenario.commitA) as [meta|] eqn:E; [|exfalso; lia].
  vm_compute in E. injection E as <-. reflexivity.
Defined.

Section MoreTheory.
Context {SM L : Type} `{!ShardManager.Ops SM} `{!Il1Source.Ops L}.
Implicit Types s : StorageManager SM L.

(** ** What the per-slot rule guarantees *)

(** X3. The per-slot rule succeeds, or writes at all, only for a commit
    that was checked against the cached contract meta: the bytes [8,32) of
    the meta are the first 24 bytes of the commit, the index in its bytes
    [0,5) is the target index, and the physical meta was read. When it
    writes, it writes once, to the target slot, the encoded blob with the
    prepared commit, and the slot was not yet filled with this commit. *)
Theorem commitEncodedBlob_validated s kvIndex encodedBlob (commit contractMeta : Hash) s' r :
  commitEncodedBlob s kvIndex encodedBlob commit contractMeta = (s', r) →
  r = None ∨ writeLog s' ≠ writeLog s →
  slice (32 - HashSizeInContract) 32 contractMeta = slice 0 HashSizeInContract commit
  ∧ Uint64 (SetBytes (slice 0 5 contractMeta)) = kvIndex
  ∧ ∃ m, ShardManager.TryReadMeta (shardManager s) kvIndex = (m, true, None)
         ∧ (writeLog s' ≠ writeLog s →
            writeLog s' = writeLog s
                          ++ [CallTryWriteEncoded kvIndex encodedBlob (prepareCommit commit)]
            ∧ ¬ (slice 0 HashSizeInContract (copy zeroHash m) = slice 0 HashSizeInContract commit
                 ∧ Z.land (copy zeroHash m !!! HashSizeInContract) blobFillingMask ≠ 0)).
Proof.
  unfold commitEncodedBlob.
  destruct (bytes_Equal (slice (32 - HashSizeInContract) 32 contractMeta) _) eqn:Hpre; simpl.
  2:{ intros [= <- <-] [?|?]; done. }
  apply bytes_Equal_true in Hpre.
  destruct (ShardManager.TryReadMeta (shardManager s) kvIndex) as [[m ok] err] eqn:Hread.
  destruct ok, err as [e|]; simpl; try (intros [= <- <-] [?|?]; done).
  case_bool_decide as Hidx; [intros [= <- <-] [?|?]; done|].
  assert (Hidx' : Uint64 (SetBytes (slice 0 5 contractMeta)) = kvIndex)
    by (destruct (decide (Uint64 (SetBytes (slice 0 5 contractMeta)) = kvIndex)); done).
  destruct (bytes_Equal (slice 0 HashSizeInContract (copy zeroHash m)) _
            && bool_decide _) eqn:Hnoop.
  - intros [= <- <-] _. split; [done|]. split; [done|]. exists m. split; [done|]. done.
  - unfold shardTryWriteEncoded.
    destruct (ShardManager.TryWriteEncoded _ _ _ _) as [[sm' ok] err].
    intros Hret _. split; [done|]. split; [done|]. exists m. split; [done|].
    intros _. split.
    + by destruct (negb ok || notNil err); injection Hret as <- <-.
    + intros [Hp Hb]. apply andb_false_iff in Hnoop as [Hn|Hn].
      * apply bytes_Equal_false in Hn. done.
      * apply bool_decide_eq_false in Hn. done.
Qed.

(** X4. The index in a contract meta is read from five bytes, so it is
    below [2^40]: for a slot index from [2^40] on, the per-slot rule never
    succeeds and never writes, whatever the meta. *)
Theorem commitEncodedBlob_index_bound s kvIndex encodedBlob (commit contractMeta : Hash) :
  Forall (λ b, 0 ≤ b < 256) contractMeta →
  2 ^ 40 ≤ kvIndex →
  ∃ e, commitEncodedBlob s kvIndex encodedBlob commit contractMeta = (s, Some e).
Proof.
  intros Hbytes Hbig.
  assert (Hidx : Uint64 (SetBytes (slice 0 5 contractMeta)) ≠ kvIndex).
  { assert (Hs : Forall (λ b, 0 ≤ b < 256) (slice 0 5 contractMeta)).
    { unfold slice. apply Forall_take. by rewrite drop_0. }
    pose proof (SetBytes_bound _ Hs) as Hb.
    assert (length (slice 0 5 contractMeta) ≤ 5)%nat.
    { unfold slice. rewrite length_take. lia. }
    assert (256 ^ Z.of_nat (length (slice 0 5 contractMeta)) ≤ 256 ^ 5)
      by (apply Z.pow_le_mono_r; lia).
    unfold Uint64. rewrite wrap_uint64_small; lia. }
  unfold commitEncodedBlob.
  destruct (negb _); [eauto|].
  destruct (ShardManager.TryReadMeta _ _) as [[m ok] err].
  destruct (negb ok || notNil err); [eauto|].
  rewrite bool_decide_eq_true_2 by done. eauto.
Qed.

(** X5. Slot 0 is accepted without a download. With no entry for slot 0 in
    the cache, the zero record read from the map carries index 0 and the
    empty commit prefix: [CommitBlob] of slot 0 with a commit whose first
    24 bytes are zero passes both checks, and succeeds as soon as the
    encoding, the read of the physical meta and the write succeed. *)
Theorem CommitBlob_slot0_uncached s blob (commit : Hash) enc m :
  blobMetas s !! 0 = None →
  slice 0 HashSizeInContract commit = replicate 24 0 →
  ShardManager.TryEncodeKV (shardManager s) 0 blob commit = (enc, true, None) →
  ShardManager.TryReadMeta (shardManager s) 0 = (m, true, None) →
  (ShardManager.TryWriteEncoded (shardManager s) 0 enc (prepareCommit commit)).1.2 = true →
  (ShardManager.TryWriteEncoded (shardManager s) 0 enc (prepareCommit commit)).2 = None →
  ∃ s', CommitBlob s 0 blob commit = (s', None)
        ∧ (writeLog s' = writeLog s
           ∨ writeLog s' = writeLog s ++ [CallTryWriteEncoded 0 enc (prepareCommit commit)]).
Proof.
  intros Hnone Hzero Henc Hread Hok Herr.
  rewrite (CommitBlob_encoded _ _ _ _ _ Henc), Hnone. simpl default.
  unfold commitEncodedBlob. rewrite zero_prefix, <- Hzero.
  rewrite (proj2 (bytes_Equal_true _ _) eq_refl). simpl negb. cbv iota.
  rewrite Hread. simpl.
  destruct (_ && _); [eexists; split; [done|by left]|].
  unfold shardTryWriteEncoded.
  destruct (ShardManager.TryWriteEncoded _ _ _ _) as [[sm' ok] err].
  simpl in Hok, Herr. subst ok err. simpl.
  eexists; split; [done|by right].
Qed.

(** ** Reading after a commit *)

(** X6. For a ShardManager that reads back the meta it has written: after
    the per-slot rule has succeeded with a commit whose first 24 bytes are
    not all zero, [TryReadEncoded] of the slot passes the sync check and
    returns what the ShardManager returns; after the rule has written the
    empty commit, [TryReadEncoded] of the slot fails with the "syncing or
    just empty blob" error. *)
Theorem TryReadEncoded_after_commit
    s kvIndex encodedBlob (commit contractMeta : Hash) s' (readLen : Z) :
  (∀ (sm sm' : SM) k enc c,
     ShardManager.TryWriteEncoded sm k enc c = (sm', true, None) →
     ShardManager.TryReadMeta sm' k = (c, true, None)) →
  length commit = 32%nat →
  commitEncodedBlob s kvIndex encodedBlob commit contractMeta = (s', None) →
  (slice 0 HashSizeInContract commit ≠ replicate 24 0 →
   TryReadEncoded s' kvIndex readLen =
     let '(b, ok, err) := ShardManager.TryReadEncoded (shardManager s') kvIndex readLen in
     (b, ok, errExternal <$> err))
  ∧ (slice 0 HashSizeInContract commit = replicate 24 0 →
     writeLog s' ≠ writeLog s →
     TryReadEncoded s' kvIndex readLen = ([], false, Some errSyncingOrEmpty)).
Proof.
  intros Hreadback Hlen Hrule.
  assert (Hmeta : ∃ m, ShardManager.TryReadMeta (shardManager s') kvIndex = (m, true, None)
            ∧ slice 0 HashSizeInContract (copy zeroHash m) = slice 0 HashSizeInContract commit
            ∧ (writeLog s' ≠ writeLog s → m = prepareCommit commit)).
  { unfold commitEncodedBlob in Hrule.
    destruct (negb _); [discriminate|].
    destruct (ShardManager.TryReadMeta (shardManager s) kvIndex) as [[m ok] err] eqn:Hread.
    destruct ok, err as [e|]; simpl in Hrule; try discriminate.
    destruct (bool_decide _); [discriminate|].
    destruct (bytes_Equal (slice 0 HashSizeInContract (copy zeroHash m)) _
              && bool_decide _) eqn:Hnoop.
    - injection Hrule as <-. apply andb_true_iff in Hnoop as [Hp _].
      apply bytes_Equal_true in Hp. exists m. done.
    - unfold shardTryWriteEncoded in Hrule.
      destruct (ShardManager.TryWriteEncoded _ _ _ _) as [[sm' ok] err] eqn:Hw.
      destruct ok, err as [e|]; simpl in Hrule; try discriminate.
      injection Hrule as <-. exists (prepareCommit commit).
      split; [exact (Hreadback _ _ _ _ _ Hw)|].
      rewrite copy_zeroHash_full by apply length_prepareCommit.
      split; [by apply slice_prepareCommit|done]. }
  destruct Hmeta as (m & Hread & Hpre & Hwrote).
  unfold TryReadEncoded, syncCheck. rewrite Hread. simpl negb. simpl orb. cbv iota zeta.
  split.
  - intros Hnz.
    rewrite !bool_decide_eq_false_2; [done| |].
    + intros Heq. rewrite Heq in Hpre. apply Hnz. rewrite <- Hpre. reflexivity.
    + intros Heq. rewrite Heq in Hpre. apply Hnz. rewrite <- Hpre. reflexivity.
  - intros Hz Hw. rewrite (Hwrote Hw).
    rewrite copy_zeroHash_full by apply length_prepareCommit.
    rewrite (prepareCommit_explicit commit Hlen).
    replace (take 24 commit) with (replicate 24 0).
    rewrite (bool_decide_eq_false_2 (_ = zeroHash)) by discriminate.
    by rewrite bool_decide_eq_true_2.
Qed.

(** ** Batches *)

Lemma encodeBlobs_panics (sm : SM) (items : list (Z * (bytes * Hash))) :
  (∃ k b c enc, (k, (b, c)) ∈ items
                ∧ ShardManager.TryEncodeKV sm k b c = (enc, false, None)) →
  encodeBlobs sm items = Panicked.
Proof.
  induction items as [|[k0 [b0 c0]] rest IH]; intros (k & b & c & enc & Hin & Hf).
  - by apply elem_of_nil in Hin.
  - simpl. apply elem_of_cons in Hin as [[= -> -> ->]|Hin].
    + by rewrite Hf.
    + rewrite IH by eauto 6.
      destruct (ShardManager.TryEncodeKV sm k0 b0 c0) as [[enc0 ok] [e|]]; destruct ok; done.
Qed.

Lemma elem_of_zip3 {A B C} (x : A) (y : B) (z : C) (xs : list A) (ys : list B) (zs : list C) :
  (x, (y, z)) ∈ zip xs (zip ys zs)
  ↔ ∃ i : nat, xs !! i = Some x ∧ ys !! i = Some y ∧ zs !! i = Some z.
Proof.
  rewrite list_elem_of_lookup. split.
  - intros (i & Hi). exists i.
    apply lookup_zip_with_Some in Hi as (x' & p & [= <- <-] & Hx & Hp).
    apply lookup_zip_with_Some in Hp as (y' & z' & [= <- <-] & Hy & Hz). done.
  - intros (i & Hx & Hy & Hz). exists i.
    apply lookup_zip_with_Some. exists x, (y, z). split; [done|]. split; [done|].
    apply lookup_zip_with_Some. by exists y, z.
Qed.

(** X7. A batch whose inputs have equal lengths panics exactly when the
    encoding of one of its entries fails without an error value
    ([err.Error()] on a nil error in the log call); this happens in the
    first loop, so nothing of the batch is committed. [CommitBlob] of the
    same entry does not panic: it returns the encode error. *)
Theorem CommitBlobs_panics_iff s (kvIndices : list Z) (blobs : list bytes) (commits : list Hash) :
  length kvIndices = length blobs → length blobs = length commits →
  let failsSilently := ∃ (i : nat) k b c enc,
    kvIndices !! i = Some k ∧ blobs !! i = Some b ∧ commits !! i = Some c
    ∧ ShardManager.TryEncodeKV (shardManager s) k b c = (enc, false, None) in
  (CommitBlobs s kvIndices blobs commits = Panicked ↔ failsSilently)
  ∧ (¬ failsSilently →
     ∃ s' inserted, CommitBlobs s kvIndices blobs commits = Returned (s', (inserted, None)))
  ∧ (∀ k b c enc,
       ShardManager.TryEncodeKV (shardManager s) k b c = (enc, false, None) →
       CommitBlob s k b c = (s, Some errBlobEncodeFailed)).
Proof.
  intros Hl1 Hl2 failsSilently.
  assert (Hequiv : failsSilently ↔
            ∃ k b c enc, (k, (b, c)) ∈ zip kvIndices (zip blobs commits)
              ∧ ShardManager.TryEncodeKV (shardManager s) k b c = (enc, false, None)).
  { split.
    - intros (i & k & b & c & enc & Hk & Hb & Hc & Hf). exists k, b, c, enc.
      split; [|done]. apply elem_of_zip3. eauto.
    - intros (k & b & c & enc & (i & Hk & Hb & Hc)%elem_of_zip3 & Hf).
      exists i, k, b, c, enc. done. }
  assert (Hrun : CommitBlobs s kvIndices blobs commits =
            (enc ← encodeBlobs (shardManager s) (zip kvIndices (zip blobs commits));
             let '(s', inserted) :=
               commitBlobsLoop s (zip (getKvMetas s kvIndices)
                                    (zip kvIndices (zip enc commits))) [] in
             Returned (s', (inserted, None)))).
  { unfold CommitBlobs.
    by rewrite (bool_decide_eq_false_2 _ (λ H, H Hl1)), (bool_decide_eq_false_2 _ (λ H, H Hl2)). }
  pose proof (encodeBlobs_outcome (shardManager s) (zip kvIndices (zip blobs commits))) as Hout.
  split; [|split].
  - rewrite Hrun, Hequiv. split.
    + destruct (encodeBlobs _ _) as [enc| |]; cbn [mbind outcome_bind]; [|by intros _|done].
      by destruct (commitBlobsLoop _ _ _).
    + intros Hf. by rewrite (encodeBlobs_panics _ _ Hf).
  - intros Hnot. rewrite Hrun.
    destruct (encodeBlobs _ _) as [enc| |]; cbn [mbind outcome_bind].
    + destruct (commitBlobsLoop _ _ _) as [s' inserted]. eauto.
    + destruct Hnot. by apply Hequiv.
    + done.
  - intros k b c enc Hf. by apply (CommitBlob_encode_failed _ _ _ _ _ _ _ Hf).
Qed.

Lemma sublist_zip_keys {A B C} (ms : list A) (ks : list Z) (es : list B) (cs : list C) :
  (λ it : A * (Z * (B * C)), it.2.1) <$> zip ms (zip ks (zip es cs)) `sublist_of` ks.
Proof.
  revert ms es cs. induction ks as [|k ks IH]; intros ms es cs.
  - destruct ms; simpl; constructor.
  - destruct ms as [|m ms]; [apply sublist_nil_l|].
    destruct es as [|e es]; [apply sublist_nil_l|].
    destruct cs as [|c cs]; [apply sublist_nil_l|].
    simpl. apply sublist_skip. apply IH.
Qed.

(** The batch loop: the inserted indices are indices of entries of the
    batch, in the order of the batch, and every one of them, like every
    write, comes from an entry that passed the checks against its meta. *)
Lemma commitBlobsLoop_validated (items : list (Hash * (Z * ((bytes * bool) * Hash)))) :
  ∀ s inserted s' inserted',
    commitBlobsLoop s items inserted = (s', inserted') →
    ∃ new ws,
      inserted' = inserted ++ new
      ∧ new `sublist_of` ((λ it, it.2.1) <$> items)
      ∧ writeLog s' = writeLog s ++ ws
      ∧ (∀ k, k ∈ new →
           ∃ cm enc c, (cm, (k, ((enc, true), c))) ∈ items
             ∧ slice (32 - HashSizeInContract) 32 cm = slice 0 HashSizeInContract c
             ∧ Uint64 (SetBytes (slice 0 5 cm)) = k)
      ∧ (∀ w, w ∈ ws →
           ∃ cm k enc c, (cm, (k, ((enc, true), c))) ∈ items
             ∧ w = CallTryWriteEncoded k enc (prepareCommit c)
             ∧ slice (32 - HashSizeInContract) 32 cm = slice 0 HashSizeInContract c
             ∧ Uint64 (SetBytes (slice 0 5 cm)) = k).
Proof.
  induction items as [|[cm [k [[enc e] c]]] rest IH]; intros s inserted s' inserted'.
  - intros [= <- <-]. exists [], []. rewrite !app_nil_r.
    split; [done|]. split; [constructor|]. split; [done|].
    split; intros ? Hin; by apply elem_of_nil in Hin.
  - simpl. destruct e; simpl.
    2:{ intros Hloop. destruct (IH _ _ _ _ Hloop) as (new & ws & -> & Hsub & Hlog & Hnew & Hws).
        exists new, ws. split; [done|]. split; [by apply sublist_cons|]. split; [done|].
        split.
        - intros k' Hk'. destruct (Hnew k' Hk') as (cm' & enc' & c' & Hin & ?).
          exists cm', enc', c'. split; [by right|done].
        - intros w Hw. destruct (Hws w Hw) as (cm' & k' & enc' & c' & Hin & ?).
          exists cm', k', enc', c'. split; [by right|done]. }
    destruct (commitEncodedBlob s k enc c cm) as [s1 r] eqn:Hrule.
    pose proof (commitEncodedBlob_frame _ _ _ _ _ _ _ Hrule) as [_ Hlog1].
    assert (Hval : r = None ∨ writeLog s1 ≠ writeLog s →
              slice (32 - HashSizeInContract) 32 cm = slice 0 HashSizeInContract c
              ∧ Uint64 (SetBytes (slice 0 5 cm)) = k).
    { intros Hor. unfold commitEncodedBlob in Hrule.
      destruct (bytes_Equal (slice (32 - HashSizeInContract) 32 cm) _) eqn:Hpre;
        simpl in Hrule; [|injection Hrule as <- <-; by destruct Hor].
      apply bytes_Equal_true in Hpre. split; [done|].
      destruct (ShardManager.TryReadMeta _ _) as [[m ok] err].
      destruct (negb ok || notNil err); [injection Hrule as <- <-; by destruct Hor|].
      case_bool_decide as Hidx; [injection Hrule as <- <-; by destruct Hor|].
      by destruct (decide (Uint64 (SetBytes (slice 0 5 cm)) = k)). }
    assert (Hstep : ∀ ins1 new1,
              ins1 = inserted ++ new1 →
              (new1 = [] ∨ new1 = [k] ∧ r = None) →
              commitBlobsLoop s1 rest ins1 = (s', inserted') →
              ∃ new ws,
                inserted' = inserted ++ new
                ∧ new `sublist_of` k :: ((λ it, it.2.1) <$> rest)
                ∧ writeLog s' = writeLog s ++ ws
                ∧ (∀ k0, k0 ∈ new →
                     ∃ cm0 enc0 c0, (cm0, (k0, ((enc0, true), c0)))
                                    ∈ (cm, (k, ((enc, true), c))) :: rest
                       ∧ slice (32 - HashSizeInContract) 32 cm0 = slice 0 HashSizeInContract c0
                       ∧ Uint64 (SetBytes (slice 0 5 cm0)) = k0)
                ∧ (∀ w, w ∈ ws →
                     ∃ cm0 k0 enc0 c0, (cm0, (k0, ((enc0, true), c0)))
                                       ∈ (cm, (k, ((enc, true), c))) :: rest
                       ∧ w = CallTryWriteEncoded k0 enc0 (prepareCommit c0)
                       ∧ slice (32 - HashSizeInContract) 32 cm0 = slice 0 HashSizeInContract c0
                       ∧ Uint64 (SetBytes (slice 0 5 cm0)) = k0)).
    { intros ins1 new1 -> Hnew1 Hloop.
      destruct (IH _ _ _ _ Hloop) as (new & ws & -> & Hsub & Hlog & Hnew & Hws).
      exists (new1 ++ new),
        (drop (length (writeLog s)) (writeLog s1) ++ ws).
      split; [by rewrite app_assoc|]. split; [|split; [|split]].
      - destruct Hnew1 as [->|[-> _]]; simpl; [by apply sublist_cons|by apply sublist_skip].
      - rewrite Hlog. destruct Hlog1 as [[-> _]| ->].
        + by rewrite drop_all.
        + rewrite drop_app_length. by rewrite app_assoc.
      - intros k0 [Hk0|Hk0]%elem_of_app.
        + destruct Hnew1 as [->|[-> Hr]]; [by apply elem_of_nil in Hk0|].
          apply list_elem_of_singleton in Hk0 as ->.
          exists cm, enc, c. split; [by left|]. apply Hval. by left.
        + destruct (Hnew k0 Hk0) as (cm' & enc' & c' & Hin & ?).
          exists cm', enc', c'. split; [by right|done].
      - intros w [Hw|Hw]%elem_of_app.
        + destruct Hlog1 as [[Heq _]|Heq]; rewrite Heq in Hw.
          * rewrite drop_all in Hw. by apply elem_of_nil in Hw.
          * rewrite drop_app_length in Hw. apply list_elem_of_singleton in Hw as ->.
            exists cm, k, enc, c. split; [by left|]. split; [done|].
            apply Hval. right. rewrite Heq. intros Habs.
            apply (f_equal length) in Habs. rewrite length_app in Habs. simpl in Habs. lia.
        + destruct (Hws w Hw) as (cm' & k' & enc' & c' & Hin & ?).
          exists cm', k', enc', c'. split; [by right|done]. }
    destruct r as [err|].
    + apply (Hstep inserted []); [by rewrite app_nil_r|by left].
    + apply (Hstep (inserted ++ [k]) [k]); [done|by right].
Qed.

(** X8. When [CommitBlobs] returns, the error is nil exactly when the three
    inputs have the same length. The view and the cache are as before. The
    inserted indices are indices of the batch, in the order of the batch.
    Every inserted index, and every write made, belongs to an entry whose
    commit has the prefix cached for its slot and whose slot index is the
    one in the cached meta: nothing else is written. *)
Theorem CommitBlobs_validated s (kvIndices : list Z) (blobs : list bytes) (commits : list Hash)
    s' inserted err :
  CommitBlobs s kvIndices blobs commits = Returned (s', (inserted, err)) →
  let checked (k : Z) (c : Hash) :=
    slice (32 - HashSizeInContract) 32 (default zeroHash (blobMetas s !! k))
      = slice 0 HashSizeInContract c
    ∧ Uint64 (SetBytes (slice 0 5 (default zeroHash (blobMetas s !! k)))) = k in
  (err = None ↔ length kvIndices = length blobs ∧ length blobs = length commits)
  ∧ (err ≠ None → s' = s ∧ inserted = [])
  ∧ onlyStoreChanged s s'
  ∧ inserted `sublist_of` kvIndices
  ∧ (∀ k, k ∈ inserted →
       ∃ (i : nat) c, kvIndices !! i = Some k ∧ commits !! i = Some c ∧ checked k c)
  ∧ ∃ ws, writeLog s' = writeLog s ++ ws
          ∧ ∀ w, w ∈ ws →
              ∃ (i : nat) k enc c,
                kvIndices !! i = Some k ∧ commits !! i = Some c
                ∧ w = CallTryWriteEncoded k enc (prepareCommit c) ∧ checked k c.
Proof.
  intros Hret checked. unfold CommitBlobs in Hret.
  destruct (bool_decide (length kvIndices ≠ length blobs)
            || bool_decide (length blobs ≠ length commits)) eqn:Hlens.
  { injection Hret as <- <- <-.
    split.
    { split; [done|]. intros [H1 H2]. apply orb_true_iff in Hlens as [Hl|Hl];
        apply bool_decide_eq_true in Hl; done. }
    split; [done|]. split; [apply onlyStoreChanged_refl|]. split; [apply sublist_nil_l|].
    split; [by intros k Hk%elem_of_nil|].
    exists []. rewrite app_nil_r. split; [done|]. by intros w Hw%elem_of_nil. }
  apply orb_false_iff in Hlens as [Hl1 Hl2].
  apply bool_decide_eq_false in Hl1, Hl2.
  destruct (encodeBlobs _ _) as [enc| |]; cbn [mbind outcome_bind] in Hret; [|done|done].
  destruct (commitBlobsLoop s _ []) as [s1 ins1] eqn:Hloop.
  injection Hret as <- <- <-.
  pose proof (commitBlobsLoop_frame _ _ _ _ _ Hloop) as Hfr.
  destruct (commitBlobsLoop_validated _ _ _ _ _ Hloop) as (new & ws & Hins & Hsub & Hlog & Hnew & Hws).
  simpl in Hins. subst ins1.
  assert (Hitem : ∀ cm k enc1 e c,
            (cm, (k, ((enc1, e), c))) ∈ zip (getKvMetas s kvIndices)
                                            (zip kvIndices (zip enc commits)) →
            ∃ i : nat, kvIndices !! i = Some k ∧ commits !! i = Some c
                       ∧ cm = default zeroHash (blobMetas s !! k)).
  { intros cm k enc1 e c (i & Hi)%list_elem_of_lookup.
    apply lookup_zip_with_Some in Hi as (cm' & y & [= <- <-] & Hcm & Hy).
    apply lookup_zip_with_Some in Hy as (k' & y' & [= <- <-] & Hk & Hy').
    apply lookup_zip_with_Some in Hy' as (e' & c' & [= <- <-] & _ & Hc).
    unfold getKvMetas in Hcm. rewrite list_lookup_fmap, Hk in Hcm.
    injection Hcm as <-. by exists i. }
  split; [split; [intros _; split; by apply dec_stable|done]|].
  split; [done|]. split; [done|].
  split; [etransitivity; [exact Hsub|apply sublist_zip_keys]|].
  split.
  - intros k Hk. destruct (Hnew k Hk) as (cm & enc1 & c & Hin & Hp & Hi).
    destruct (Hitem _ _ _ _ _ Hin) as (i & Hki & Hci & ->). by exists i, c.
  - exists ws. split; [done|]. intros w Hw.
    destruct (Hws w Hw) as (cm & k & enc1 & c & Hin & -> & Hp & Hi).
    destruct (Hitem _ _ _ _ _ Hin) as (i & Hki & Hci & ->). by exists i, k, enc1, c.
Qed.

(** X9. A batch of one entry behaves as [CommitBlob] of that entry: unless
    the encoding fails without an error value (the batch panics), the batch
    leaves the state [CommitBlob] leaves, and it reports the index as
    inserted exactly when [CommitBlob] returns nil. *)
Theorem CommitBlobs_single s (k : Z) (b : bytes) (c : Hash) :
  (∀ enc, ShardManager.TryEncodeKV (shardManager s) k b c ≠ (enc, false, None)) →
  CommitBlobs s [k] [b] [c] =
    Returned ((CommitBlob s k b c).1,
              (match (CommitBlob s k b c).2 with None => [k] | Some _ => [] end, None)).
Proof.
  intros Hloud. unfold CommitBlobs, CommitBlob. simpl.
  destruct (ShardManager.TryEncodeKV (shardManager s) k b c) as [[enc ok] err] eqn:He.
  destruct ok, err as [e|]; simpl; try done.
  - destruct (commitEncodedBlob s k enc c _) as [s1 [e|]]; done.
  - by destruct (Hloud enc).
Qed.

(** ** The empty fill *)

Lemma commitEmptyLoop_writes (items : list ((Z * bytes) * Hash)) :
  ∀ s inserted next s' inserted' next',
    commitEmptyLoop s items inserted next = (s', inserted', next') →
    ∃ ws, writeLog s' = writeLog s ++ ws
          ∧ ∀ w, w ∈ ws →
              ∃ index enc meta, ((index, enc), meta) ∈ items
                ∧ w = CallTryWriteEncoded index enc (prepareCommit zeroHash).
Proof.
  induction items as [|[[index enc] meta] rest IH]; intros s inserted next s' inserted' next'.
  - intros [= <- _ _]. exists []. rewrite app_nil_r. split; [done|].
    by intros w Hw%elem_of_nil.
  - simpl. destruct (commitEncodedBlob s index enc zeroHash meta) as [s1 r] eqn:Hrule.
    apply commitEncodedBlob_frame in Hrule as [_ Hlog1].
    assert (Hfirst : ∃ ws1, writeLog s1 = writeLog s ++ ws1
              ∧ ∀ w, w ∈ ws1 → w = CallTryWriteEncoded index enc (prepareCommit zeroHash)).
    { destruct Hlog1 as [[-> _]| ->].
      - exists []. rewrite app_nil_r. split; [done|]. by intros w Hw%elem_of_nil.
      - eexists. split; [done|]. by intros w Hw%list_elem_of_singleton. }
    destruct Hfirst as (ws1 & Hws1 & Hw1).
    assert (Hstop : ∃ ws, writeLog s1 = writeLog s ++ ws
              ∧ ∀ w, w ∈ ws →
                  ∃ index0 enc0 meta0, ((index0, enc0), meta0) ∈ (index, enc, meta) :: rest
                    ∧ w = CallTryWriteEncoded index0 enc0 (prepareCommit zeroHash)).
    { exists ws1. split; [done|]. intros w Hw. exists index, enc, meta.
      split; [by left|by apply Hw1]. }
    assert (Hgo : ∀ ins1 nxt1,
              commitEmptyLoop s1 rest ins1 nxt1 = (s', inserted', next') →
              ∃ ws, writeLog s' = writeLog s ++ ws
                    ∧ ∀ w, w ∈ ws →
                        ∃ index0 enc0 meta0,
                          ((index0, enc0), meta0) ∈ (index, enc, meta) :: rest
                          ∧ w = CallTryWriteEncoded index0 enc0 (prepareCommit zeroHash)).
    { intros ins1 nxt1 Hloop. destruct (IH _ _ _ _ _ _ Hloop) as (ws & Hws & Hw).
      exists (ws1 ++ ws). rewrite Hws, Hws1, app_assoc. split; [done|].
      intros w [Hin|Hin]%elem_of_app.
      - exists index, enc, meta. split; [by left|by apply Hw1].
      - destruct (Hw w Hin) as (i0 & e0 & m0 & Hin0 & ->). exists i0, e0, m0.
        split; [by right|done]. }
    destruct r as [e|]; [|by apply Hgo].
    destruct (bool_decide (e ≠ errCommitMismatch)); [|by apply Hgo].
    by intros [= <- _ _].
Qed.

Lemma length_applyRule (items : list ((Z * bytes) * Hash)) :
  ∀ s, length (applyRule s items).2 = length items.
Proof.
  induction items as [|[[index enc] meta] rest IH]; intros s; [done|].
  simpl. destruct (commitEncodedBlob s index enc zeroHash meta) as [s1 r].
  specialize (IH s1). destruct (applyRule s1 rest) as [s2 outs]. simpl in *. lia.
Qed.

Lemma committed_le_soft (outs : list (option error)) :
  (length (filter committed outs) ≤ length (filter softOutcome outs) ≤ length outs)%nat.
Proof.
  induction outs as [|r outs IH]; [done|].
  rewrite !length_filter_cons. cbn [length].
  destruct r as [e|]; cbn [committed softOutcome]; [|lia].
  destruct (bool_decide (e = errCommitMismatch)); lia.
Qed.

(** X10. When [CommitEmptyBlobs start limit] returns: the error is nil; the
    view and the cache are as before; the cursor lies in
    [[start, limit + 1]] (it is [start] for an empty range) and the count is
    at most the distance the cursor has moved; an empty range changes
    nothing; and every write made is the write of an encoded empty blob,
    with the prepared empty commit, to a slot of [[start, limit]]. *)
Theorem CommitEmptyBlobs_bounds s (start limit : Z) s' (inserted next : Z) err :
  0 ≤ start < 2 ^ 64 → limit < 2 ^ 64 →
  CommitEmptyBlobs s start limit = Returned (s', (inserted, next, err)) →
  err = None
  ∧ onlyStoreChanged s s'
  ∧ start ≤ next ≤ Z.max start (limit + 1)
  ∧ 0 ≤ inserted ≤ next - start
  ∧ (limit < start → s' = s)
  ∧ ∃ ws, writeLog s' = writeLog s ++ ws
          ∧ ∀ w, w ∈ ws →
              ∃ index enc, start ≤ index ≤ limit
                ∧ ShardManager.TryEncodeKV (shardManager s) index [] zeroHash = (enc, true, None)
                ∧ w = CallTryWriteEncoded index enc (prepareCommit zeroHash).
Proof.
  intros Hstart Hlimit. unfold CommitEmptyBlobs.
  pose proof (encodeEmptyLoop_spec (shardManager s) limit
                (Z.to_nat (limit - start + 1)) start Hstart Hlimit eq_refl) as Henc.
  destruct (encodeEmptyLoop _ _ _ _) as [items| |]; cbn [mbind outcome_bind]; [|done|done].
  destruct Henc as (Hidx & Hlen & Hmx & Hok & _).
  set (zipped := zip items (getKvMetas s (items.*1))).
  assert (Hzlen : length zipped = length items).
  { unfold zipped. rewrite length_zip_with_l_eq; [done|].
    by rewrite length_getKvMetas, length_fmap. }
  destruct (commitEmptyLoop s zipped 0 start) as [[s1 ins1] nxt1] eqn:Hloop.
  intros [= <- <- <- <-].
  pose proof (commitEmptyLoop_frame _ _ _ _ _ _ _ Hloop) as Hfr.
  destruct (commitEmptyLoop_writes _ _ _ _ _ _ _ Hloop) as (ws & Hws & Hw).
  destruct (commitEmptyLoop_spec zipped s 0 start) as (n & Hn & Hspec & _);
    [lia|lia|rewrite Hzlen; lia|rewrite Hzlen; lia|].
  cbv zeta in Hspec. rewrite Hloop in Hspec. injection Hspec as Hs1 Hins Hnxt.
  pose proof (committed_le_soft (applyRule s (take n zipped)).2) as Hcount.
  rewrite length_applyRule, length_take in Hcount.
  split; [done|]. split; [done|]. split; [lia|]. split; [lia|]. split.
  - intros Hempty. assert (Hnil : items = []).
    { destruct items; [done|]. simpl in Hlen. lia. }
    subst items. simpl in Hloop. by injection Hloop as <- _ _.
  - exists ws. split; [done|]. intros w Hin.
    destruct (Hw w Hin) as (index & enc & meta & Hitem & ->).
    exists index, enc.
    apply elem_of_zip_l in Hitem. simpl in Hitem.
    assert (Hi : index ∈ items.*1).
    { apply list_elem_of_fmap. by exists (index, enc). }
    rewrite Hidx in Hi. apply elem_of_seqZ in Hi.
    split; [lia|]. split; [by apply Hok|done].
Qed.

(** ** DownloadFinished: what a call leaves behind *)

Lemma updateLocalMetas_lookup (items : list (Z * Hash)) :
  ∀ s s',
    updateLocalMetas s items = Returned s' →
    (∀ k, k ∉ items.*1 → blobMetas s' !! k = blobMetas s !! k)
    ∧ (∀ (i : nat) idx c,
         items !! i = Some (idx, c) →
         (∀ (j : nat) c', (i < j)%nat → items !! j ≠ Some (idx, c')) →
         blobMetas s' !! idx = localMetaOf idx c ∧ is_Some (localMetaOf idx c)).
Proof.
  induction items as [|[idx0 c0] rest IH]; intros s s'.
  - simpl. intros [= <-]. split; [done|]. by intros i idx c ?.
  - simpl. destruct (localMetaOf idx0 c0) as [meta0|] eqn:Hmeta; [|done].
    intros Hrest. destruct (IH _ _ Hrest) as [Hother Hlast].
    split.
    + intros k Hk. apply not_elem_of_cons in Hk as [Hne Hk].
      rewrite (Hother k Hk). simpl. by rewrite lookup_insert_ne.
    + intros [|i] idx c Hi Hlater.
      * injection Hi as -> ->. rewrite Hmeta. split; [|done].
        rewrite Hother; [simpl; by rewrite lookup_insert_eq|].
        intros ([idx' c'] & Heq & (j & Hj)%list_elem_of_lookup)%list_elem_of_fmap.
        simpl in Heq. subst idx'. by apply (Hlater (S j) c' ltac:(lia)).
      * apply (Hlast i idx c Hi). intros j c' Hij Hj.
        by apply (Hlater (S j) c' ltac:(lia)).
Qed.

Lemma updateLocalMetas_outcome (items : list (Z * Hash)) :
  ∀ s,
    match updateLocalMetas s items with
    | Returned _ => True
    | Panicked => ∃ idx c, (idx, c) ∈ items ∧ localMetaOf idx c = None
    | OutOfFuel => False
    end.
Proof.
  induction items as [|[idx0 c0] rest IH]; intros s; [done|].
  simpl. destruct (localMetaOf idx0 c0) as [meta0|] eqn:Hmeta.
  - specialize (IH (with_blobMetas s (<[idx0:=meta0]> (blobMetas s)))).
    destruct (updateLocalMetas _ rest); [done| |done].
    destruct IH as (idx & c & Hin & Hnone). exists idx, c. split; [by right|done].
  - exists idx0, c0. split; [by left|done].
Qed.

Lemma DownloadFinished_success_lens s (newL1 : Z) (kvIndices : list Z) (blobs : list bytes)
    (commits : list Hash) s' :
  DownloadFinished s newL1 kvIndices blobs commits = Returned (s', None) →
  length kvIndices = length blobs ∧ length blobs = length commits.
Proof.
  unfold DownloadFinished.
  destruct (bool_decide (length kvIndices ≠ length blobs)
            || bool_decide (length blobs ≠ length commits)) eqn:Hlens; [done|].
  intros _. apply orb_false_iff in Hlens as [H1 H2].
  apply bool_decide_eq_false in H1, H2. split; by apply dec_stable.
Qed.

(** X11. When [DownloadFinished] returns nil: [newL1] was newer than the
    view, [localL1] is now [newL1], [lastKvIdx] is what the L1 source gave
    for [newL1], and the cache holds, for every index of the batch, the
    meta built from the index and its commit (the last one, when the index
    occurs more than once); the other entries of the cache are as before. *)
Theorem DownloadFinished_success s (newL1 : Z) (kvIndices : list Z) (blobs : list bytes)
    (commits : list Hash) s' :
  DownloadFinished s newL1 kvIndices blobs commits = Returned (s', None) →
  localL1 s < newL1 ∧ localL1 s' = newL1
  ∧ Il1Source.GetStorageLastBlobIdx (l1Source s) newL1 = (l1Source s', inl (lastKvIdx s'))
  ∧ (∀ k, k ∉ kvIndices → blobMetas s' !! k = blobMetas s !! k)
  ∧ (∀ (i : nat) idx c,
       kvIndices !! i = Some idx → commits !! i = Some c →
       (∀ j : nat, (i < j)%nat → kvIndices !! j ≠ Some idx) →
       blobMetas s' !! idx = localMetaOf idx c ∧ is_Some (localMetaOf idx c)).
Proof.
  intros Hret. apply DownloadFinished_inv in Hret.
  destruct Hret as [[_ [?|[? _]]]|(Hlt & l & res & Hlast & Hcases)]; [done|done|].
  destruct Hcases as [(e & _ & _ & ?)|(v & tasks & s2 & results & -> & _ & Hrun & Hres)];
    [done|].
  destruct Hres as [(e & _ & _ & ?)|(_ & _ & Hupd)]; [done|].
  apply runTasks_spec in Hrun as [(H1 & H2 & H3 & H4 & H5) _]. simpl in *.
  pose proof (updateLocalMetas_frame _ _ _ Hupd) as (_ & _ & Hl1 & Hlk & Hsrc & _).
  simpl in *. destruct (updateLocalMetas_lookup _ _ _ Hupd) as [Hother Hlastw].
  simpl in *.
  split; [done|]. split; [done|]. split; [by rewrite Hlk, H2, Hsrc, H3|].
  split.
  - intros k Hk. rewrite Hother, H5; [done|].
    intros ([idx c] & -> & Hin%elem_of_zip_l)%list_elem_of_fmap. done.
  - intros i idx c Hi Hc Hlater.
    apply (Hlastw i idx c).
    + apply lookup_zip_with_Some. by exists idx, c.
    + intros j c' Hij Hj. apply lookup_zip_with_Some in Hj as (? & ? & [= <- <-] & Hj & _).
      by apply (Hlater j).
Qed.

Lemma commitEncodedBlob_checked s kvIndex encodedBlob (commit contractMeta : Hash) :
  slice (32 - HashSizeInContract) 32 contractMeta = slice 0 HashSizeInContract commit →
  Uint64 (SetBytes (slice 0 5 contractMeta)) = kvIndex →
  (commitEncodedBlob s kvIndex encodedBlob commit contractMeta).2 ≠ Some errCommitMismatch
  ∧ (commitEncodedBlob s kvIndex encodedBlob commit contractMeta).2 ≠ Some errKvIdxMismatch.
Proof.
  intros Hpre Hidx. unfold commitEncodedBlob.
  apply bytes_Equal_true in Hpre. rewrite Hpre. simpl.
  destruct (ShardManager.TryReadMeta _ _) as [[m ok] err].
  destruct (negb ok || notNil err); [done|].
  rewrite bool_decide_eq_false_2 by (by intros Hne).
  destruct (_ && _); [done|].
  destruct (shardTryWriteEncoded _ _ _ _) as [[s' ok'] err'].
  by destruct (negb ok' || notNil err').
Qed.

(** X12. The metas [DownloadFinished] caches fit what it was given. After
    a call that returned nil, [CommitBlob] of an index of the batch (below
    [2^63]) with the commit of the batch never fails with the
    commit-mismatch error nor with the index-mismatch error. *)
Theorem DownloadFinished_then_CommitBlob s (newL1 : Z) (kvIndices : list Z)
    (blobs : list bytes) (commits : list Hash) s' (i : nat) (idx : Z) (c : Hash) (blob : bytes) :
  DownloadFinished s newL1 kvIndices blobs commits = Returned (s', None) →
  kvIndices !! i = Some idx → commits !! i = Some c →
  (∀ j : nat, (i < j)%nat → kvIndices !! j ≠ Some idx) →
  0 ≤ idx < 2 ^ 63 → length c = 32%nat →
  (CommitBlob s' idx blob c).2 ≠ Some errCommitMismatch
  ∧ (CommitBlob s' idx blob c).2 ≠ Some errKvIdxMismatch.
Proof.
  intros Hret Hi Hc Hlater Hidx Hlen.
  apply DownloadFinished_inv in Hret.
  destruct Hret as [[_ [?|[? _]]]|(Hlt & l & res & Hlast & Hcases)]; [done|done|].
  destruct Hcases as [(e & _ & _ & ?)|(v & tasks & s2 & results & -> & _ & Hrun & Hres)];
    [done|].
  destruct Hres as [(e & _ & _ & ?)|(_ & _ & Hupd)]; [done|].
  destruct (updateLocalMetas_lookup _ _ _ Hupd) as [_ Hlastw].
  destruct (Hlastw i idx c) as [Hmeta [meta Hm]].
  { apply lookup_zip_with_Some. by exists idx, c. }
  { intros j c' Hij Hj. apply lookup_zip_with_Some in Hj as (? & ? & [= <- <-] & Hj & _).
    by apply (Hlater j). }
  pose proof (localMetaOf_cases idx c Hidx Hlen) as Hcases.
  rewrite Hm in Hcases, Hmeta.
  destruct Hcases as (_ & _ & Hback & Hpre).
  destruct (encode_cases (ShardManager.TryEncodeKV (shardManager s') idx blob c))
    as [[enc He]|(enc & ok & err & He & Hf)].
  - rewrite (CommitBlob_encoded _ _ _ _ _ He), Hmeta. simpl default.
    by apply commitEncodedBlob_checked.
  - by rewrite (CommitBlob_encode_failed _ _ _ _ _ _ _ He Hf).
Qed.

(** X13. With [DownloadThreadNum = 0], the value [NewStorageManager]
    leaves, no task is started: [DownloadFinished] with a newer block
    writes nothing and yet returns nil, with the new view adopted and the
    metas of the batch cached (it panics when an index does not fit in five
    bytes). A negative [DownloadThreadNum] panics at [make(chan)]. *)
Theorem DownloadFinished_no_threads s (newL1 : Z) (kvIndices : list Z) (blobs : list bytes)
    (commits : list Hash) l v :
  length kvIndices = length blobs → length blobs = length commits →
  localL1 s < newL1 →
  Il1Source.GetStorageLastBlobIdx (l1Source s) newL1 = (l, inl v) →
  (DownloadThreadNum s = 0 →
   match DownloadFinished s newL1 kvIndices blobs commits with
   | Returned (s', r) =>
       r = None ∧ localL1 s' = newL1 ∧ lastKvIdx s' = v
       ∧ writeLog s' = writeLog s ∧ shardManager s' = shardManager s
   | Panicked =>
       ∃ (i : nat) idx c, kvIndices !! i = Some idx ∧ commits !! i = Some c
                          ∧ localMetaOf idx c = None
   | OutOfFuel => False
   end)
  ∧ (DownloadThreadNum s < 0 →
     DownloadFinished s newL1 kvIndices blobs commits = Panicked).
Proof.
  intros Hl1 Hl2 Hlt Hlast.
  assert (Hhead : DownloadFinished s newL1 kvIndices blobs commits =
            let s1 := with_lastKvIdx (with_l1Source s l) v in
            if DownloadThreadNum s <? 0 then Panicked
            else
              tasks ← taskLoop (Z.to_nat (Z.of_nat (length kvIndices))) 0
                         (DownloadThreadNum s) (Z.of_nat (length kvIndices));
              '(s2, results) ← runTasks s1 tasks kvIndices blobs commits;
              match firstError results with
              | Some e => Returned (s2, Some (errExternal e))
              | None =>
                  s3 ← updateLocalMetas (with_localL1 s2 newL1) (zip kvIndices commits);
                  Returned (s3, None)
              end).
  { unfold DownloadFinished.
    rewrite (bool_decide_eq_false_2 _ (λ H, H Hl1)), (bool_decide_eq_false_2 _ (λ H, H Hl2)).
    simpl orb. cbv iota. rewrite (proj2 (Z.leb_gt _ _) Hlt), Hlast. reflexivity. }
  rewrite Hhead. cbv zeta. split.
  - intros ->. simpl Z.ltb. cbv iota.
    assert (Hnone : ∀ fuel len, taskLoop fuel 0 0 len = Returned []).
    { intros [|fuel] len; reflexivity. }
    rewrite Hnone. cbn [mbind outcome_bind runTasks firstError].
    pose proof (updateLocalMetas_outcome (zip kvIndices commits)
                  (with_localL1 (with_lastKvIdx (with_l1Source s l) v) newL1)) as Hout.
    destruct (updateLocalMetas _ _) as [s3| |] eqn:Hupd; cbn [mbind outcome_bind]; [| |done].
    + apply updateLocalMetas_frame in Hupd as (? & ? & ? & ? & _). done.
    + destruct Hout as (idx & c & (i & Hi)%list_elem_of_lookup & Hn).
      apply lookup_zip_with_Some in Hi as (? & ? & [= <- <-] & ? & ?).
      by exists i, idx, c.
  - intros Hneg. by rewrite (proj2 (Z.ltb_lt _ _) Hneg).
Qed.

(** X14. A batch with an index in [[2^40, 2^63)] is never finished:
    [DownloadFinished] does not return nil on it (if no write fails, it
    panics when it builds the meta of that index, after the writes). *)
Theorem DownloadFinished_large_index s (newL1 : Z) (kvIndices : list Z) (blobs : list bytes)
    (commits : list Hash) (i : nat) (idx : Z) :
  kvIndices !! i = Some idx → 2 ^ 40 ≤ idx < 2 ^ 63 →
  ∀ s', DownloadFinished s newL1 kvIndices blobs commits ≠ Returned (s', None).
Proof.
  intros Hi Hidx s' Hret.
  pose proof (DownloadFinished_success_lens _ _ _ _ _ _ Hret) as [Hl1 Hl2].
  destruct (lookup_lt_is_Some_2 commits i) as [c Hc].
  { apply lookup_lt_Some in Hi. lia. }
  apply DownloadFinished_inv in Hret.
  destruct Hret as [[_ [?|[? _]]]|(Hlt & l & res & Hlast & Hcases)]; [done|done|].
  destruct Hcases as [(e & _ & _ & ?)|(v & tasks & s2 & results & -> & _ & Hrun & Hres)];
    [done|].
  destruct Hres as [(e & _ & _ & ?)|(_ & _ & Hupd)]; [done|].
  pose proof (updateLocalMetas_outcome (zip kvIndices commits) (with_localL1 s2 newL1)) as Hout.
  assert (Hpanic : ∀ items s0,
            (idx, c) ∈ items → updateLocalMetas s0 items = Panicked ∨
                               updateLocalMetas s0 items = OutOfFuel).
  { assert (Hnone : localMetaOf idx c = None).
    { unfold localMetaOf, FillBytes. rewrite wrap_int_small by lia.
      rewrite Z.abs_eq by lia. change (256 ^ Z.of_nat 5) with (2 ^ 40).
      by rewrite (proj2 (Z.ltb_ge _ _)) by lia. }
    induction items as [|[idx0 c0] rest IH]; intros s0 Hin; [by apply elem_of_nil in Hin|].
    simpl. apply elem_of_cons in Hin as [[= <- <-]|Hin]; [rewrite Hnone; by left|].
    destruct (localMetaOf idx0 c0); [by apply IH|by left]. }
  destruct (Hpanic (zip kvIndices commits) (with_localL1 s2 newL1)) as [Hp|Hp].
  - apply (list_elem_of_lookup_2 _ i). apply lookup_zip_with_Some. by exists idx, c.
  - by rewrite Hp in Hupd.
  - by rewrite Hp in Hupd.
Qed.

(** ** Reset *)

(** X15. [Reset] asks the L1 source for the last index of [newL1] and
    adopts the block and the index together, or neither when the request
    fails. It does not compare [newL1] with the view it replaces, and it
    keeps the cache, the store and the history of writes. After a [Reset]
    that returned nil, [DownloadFinished] with a block that is not newer
    than [newL1] is rejected and changes nothing. *)
Theorem Reset_view s (newL1 : Z) s' r :
  Reset s newL1 = (s', r) →
  shardManager s' = shardManager s ∧ blobMetas s' = blobMetas s
  ∧ writeLog s' = writeLog s ∧ DownloadThreadNum s' = DownloadThreadNum s
  ∧ match r with
    | None =>
        localL1 s' = newL1
        ∧ Il1Source.GetStorageLastBlobIdx (l1Source s) newL1
          = (l1Source s', inl (lastKvIdx s'))
        ∧ ∀ (older : Z) (kvIndices : list Z) (blobs : list bytes) (commits : list Hash),
            older ≤ newL1 →
            ∃ e, DownloadFinished s' older kvIndices blobs commits = Returned (s', Some e)
    | Some e =>
        localL1 s' = localL1 s ∧ lastKvIdx s' = lastKvIdx s
        ∧ ∃ msg, e = errExternal msg
                 ∧ Il1Source.GetStorageLastBlobIdx (l1Source s) newL1 = (l1Source s', inr msg)
    end.
Proof.
  unfold Reset.
  destruct (Il1Source.GetStorageLastBlobIdx (l1Source s) newL1) as [l [v|msg]];
    intros [= <- <-]; simpl.
  - do 4 (split; [done|]). split; [done|]. split; [done|].
    intros older kvIndices blobs commits Hle. unfold DownloadFinished.
    destruct (bool_decide _ || bool_decide _); [eauto|].
    simpl localL1. rewrite (proj2 (Z.leb_le _ _) Hle). eauto.
  - do 4 (split; [done|]). split; [done|]. split; [done|]. by exists msg.
Qed.

(** ** DownloadFinished: the writes of a call that fails *)

(** A task writes the positions it was given, in order, up to and
    including the first write that fails. *)
Lemma writeTask_prefix (kvIndices : list Z) (blobs : list bytes) (commits : list Hash)
    (t : list Z) :
  ∀ s s' r,
    writeTask s t kvIndices blobs commits = Returned (s', r) →
    ∃ (n : nat) calls,
      writeLog s' = writeLog s ++ calls
      ∧ Forall2 (writeOfPosition kvIndices blobs commits) (take n t) calls
      ∧ (t ≠ [] → (1 ≤ n)%nat).
Proof.
  induction t as [|idx rest IH]; intros s s' r.
  - simpl. intros [= <- <-]. exists 0%nat, []. by rewrite app_nil_r.
  - simpl.
    destruct (index commits idx) as [commit|] eqn:Hc; [|done].
    destruct (index kvIndices idx) as [kvIdx|] eqn:Hk; [|done].
    destruct (index blobs idx) as [blob|] eqn:Hb; [|done].
    unfold shardTryWrite.
    destruct (ShardManager.TryWrite _ _ _ _) as [[sm ok] err].
    assert (Hw : writeOfPosition kvIndices blobs commits idx
                   (CallTryWrite kvIdx blob (prepareCommit commit)))
      by (by exists kvIdx, blob, commit).
    destruct err as [e|].
    + intros [= <- <-]. exists 1%nat, [CallTryWrite kvIdx blob (prepareCommit commit)].
      split; [done|]. split; [|lia]. cbn [take]. rewrite take_0. by constructor.
    + intros Hrest. destruct (IH _ _ _ Hrest) as (n & calls & Hlog & Hall & _).
      exists (S n), (CallTryWrite kvIdx blob (prepareCommit commit) :: calls).
      split; [rewrite Hlog; simpl; by rewrite <- app_assoc|].
      split; [by constructor|lia].
Qed.

Lemma runTasks_prefixes (kvIndices : list Z) (blobs : list bytes) (commits : list Hash)
    (tasks : list (list Z)) :
  ∀ s s' results,
    runTasks s tasks kvIndices blobs commits = Returned (s', results) →
    ∃ ps calls,
      writeLog s' = writeLog s ++ calls
      ∧ Forall2 (writeOfPosition kvIndices blobs commits) ps calls
      ∧ ps `sublist_of` mjoin tasks
      ∧ ∀ t p, t ∈ tasks → head t = Some p → p ∈ ps.
Proof.
  induction tasks as [|t ts IH]; intros s s' results.
  - simpl. intros [= <- <-]. exists [], []. rewrite app_nil_r.
    split; [done|]. split; [constructor|]. split; [constructor|].
    by intros t p Hin%elem_of_nil.
  - simpl.
    destruct (writeTask s t kvIndices blobs commits) as [[s1 r]| |] eqn:Ht; simpl; [|done|done].
    destruct (runTasks s1 ts kvIndices blobs commits) as [[s2 rs]| |] eqn:Hts;
      simpl; [|done|done].
    intros [= <- <-].
    destruct (writeTask_prefix _ _ _ _ _ _ _ Ht) as (n & calls1 & Hlog1 & Hall1 & Hn).
    destruct (IH _ _ _ Hts) as (ps & calls2 & Hlog2 & Hall2 & Hsub & Hheads).
    exists (take n t ++ ps), (calls1 ++ calls2).
    split; [by rewrite Hlog2, Hlog1, app_assoc|].
    split; [by apply Forall2_app|].
    split; [apply sublist_app; [apply sublist_take|done]|].
    intros t' p [->|Hin]%elem_of_cons Hhead.
    + apply elem_of_app. left. destruct t as [|p' t]; [done|].
      injection Hhead as ->. specialize (Hn ltac:(done)).
      destruct n as [|n]; [lia|]. by left.
    + apply elem_of_app. right. by apply (Hheads t').
Qed.

Lemma tasks_positions (N M : Z) :
  1 ≤ N →
  NoDup (mjoin ((λ k, positionsOf k N M) <$> seqZ 0 (Z.min N M)))
  ∧ ∀ p, p ∈ mjoin ((λ k, positionsOf k N M) <$> seqZ 0 (Z.min N M)) → 0 ≤ p < M.
Proof.
  intros HN. rewrite join_fmap_bind. split.
  - apply NoDup_bind; [| |apply NoDup_seqZ].
    + intros k1 k2 i Hk1%elem_of_seqZ Hk2%elem_of_seqZ Hi1 Hi2.
      apply elem_of_positionsOf in Hi1; [|lia|lia].
      apply elem_of_positionsOf in Hi2; [|lia|lia]. lia.
    + intros k _. by apply NoDup_positionsOf.
  - intros p (k & Hp & Hk%elem_of_seqZ)%list_elem_of_bind.
    apply elem_of_positionsOf in Hp; [|lia|lia]. lia.
Qed.

(** X16. Whatever [DownloadFinished] returns, an error included, the
    writes it has made are writes of positions of the batch, with the
    prepared commit of the position, and no position is written twice.
    Writes are not undone. Once the tasks are started, every task makes its
    first write even if another task fails: the positions
    [0 .. min N M - 1] are written in any case. *)
Theorem DownloadFinished_writes_once s (newL1 : Z) (kvIndices : list Z) (blobs : list bytes)
    (commits : list Hash) s' r :
  Z.of_nat (length kvIndices) + DownloadThreadNum s ≤ 2 ^ 63 →
  DownloadFinished s newL1 kvIndices blobs commits = Returned (s', r) →
  ∃ ps calls,
    writeLog s' = writeLog s ++ calls
    ∧ Forall2 (writeOfPosition kvIndices blobs commits) ps calls
    ∧ NoDup ps
    ∧ (∀ p, p ∈ ps → 0 ≤ p < Z.of_nat (length kvIndices))
    ∧ (r ≠ Some errInvalidParamsLens → r ≠ Some errNewL1Older →
       (∀ l msg, Il1Source.GetStorageLastBlobIdx (l1Source s) newL1 ≠ (l, inr msg)) →
       ∀ k, 0 ≤ k < Z.min (DownloadThreadNum s) (Z.of_nat (length kvIndices)) → k ∈ ps).
Proof.
  intros Hwrap Hret.
  assert (Hnothing : writeLog s' = writeLog s →
            (∀ k, 0 ≤ k < Z.min (DownloadThreadNum s) (Z.of_nat (length kvIndices)) → False) →
            ∃ ps calls,
              writeLog s' = writeLog s ++ calls
              ∧ Forall2 (writeOfPosition kvIndices blobs commits) ps calls
              ∧ NoDup ps
              ∧ (∀ p, p ∈ ps → 0 ≤ p < Z.of_nat (length kvIndices))
              ∧ (r ≠ Some errInvalidParamsLens → r ≠ Some errNewL1Older →
                 (∀ l msg, Il1Source.GetStorageLastBlobIdx (l1Source s) newL1 ≠ (l, inr msg)) →
                 ∀ k, 0 ≤ k < Z.min (DownloadThreadNum s) (Z.of_nat (length kvIndices)) →
                      k ∈ ps)).
  { intros Hlog Hno. exists [], []. rewrite app_nil_r.
    split; [done|]. split; [constructor|]. split; [constructor|].
    split; [by intros p Hp%elem_of_nil|]. intros _ _ _ k Hk. destruct (Hno k Hk). }
  apply DownloadFinished_inv in Hret.
  destruct Hret as [[-> Hr]|(Hlt & l & res & Hlast & Hcases)].
  { exists [], []. rewrite app_nil_r.
    split; [done|]. split; [constructor|]. split; [constructor|].
    split; [by intros p Hp%elem_of_nil|]. intros H1 H2. by destruct Hr as [?|[? _]]. }
  destruct Hcases as [(e & -> & -> & ->)|(v & tasks & s2 & results & -> & Htl & Hrun & Hres)].
  { exists [], []. rewrite app_nil_r.
    split; [done|]. split; [constructor|]. split; [constructor|].
    split; [by intros p Hp%elem_of_nil|]. intros _ _ Hsrc. by destruct (Hsrc l e). }
  assert (Hlog' : writeLog s' = writeLog s2).
  { destruct Hres as [(e & _ & -> & _)|(_ & _ & Hupd)]; [done|].
    by apply updateLocalMetas_frame in Hupd as (_ & -> & _). }
  destruct (runTasks_prefixes _ _ _ _ _ _ _ Hrun) as (ps & calls & Hlog & Hall & Hsub & Hheads).
  simpl in Hlog. rewrite <- Hlog' in Hlog.
  set (N := DownloadThreadNum s) in *. set (M := Z.of_nat (length kvIndices)) in *.
  destruct (decide (N ≤ 0)) as [Hle|Hpos].
  { assert (tasks = []) as ->.
    { destruct (Z.to_nat M); simpl in Htl;
        rewrite (proj2 (Z.ltb_ge 0 N) Hle) in Htl; simpl in Htl; congruence. }
    simpl in Hrun. injection Hrun as <- <-.
    apply Hnothing; [done|]. intros k Hk. lia. }
  rewrite taskLoop_spec in Htl by lia. injection Htl as <-.
  replace (Z.min N M - 0) with (Z.min N M) in * by lia.
  destruct (tasks_positions N M ltac:(lia)) as [Hnd Hrange].
  exists ps, calls. split; [done|]. split; [done|].
  split; [by apply (sublist_NoDup _ _ Hnd Hsub)|].
  split; [intros p Hp; apply Hrange; by apply (elem_of_sublist _ _ _ Hp Hsub)|].
  intros _ _ _ k Hk.
  apply (Hheads (positionsOf k N M)).
  - apply list_elem_of_fmap. exists k. split; [done|]. apply elem_of_seqZ. lia.
  - rewrite (positionsOf_cons k N M) by lia. done.
Qed.

(** ** Downloading one batch of metas *)

(** The metas of an answer go to the leading indices of the batch; an
    answer longer than the batch runs over the end of [kvIndices]. *)
Lemma installMetas_seqZ (metas : list Hash) :
  ∀ (m : gmap Z Hash) (from n : Z),
    if decide (Z.of_nat (length metas) ≤ Z.max n 0) then
      ∃ m', installMetas m (seqZ from n) metas = Some m'
            ∧ ∀ k, m' !! k =
                   if decide (from ≤ k < from + Z.of_nat (length metas))
                   then metas !! Z.to_nat (k - from) else m !! k
    else installMetas m (seqZ from n) metas = None.
Proof.
  induction metas as [|meta metas IH]; intros m from n.
  - simpl. rewrite decide_True by lia. exists m. split; [by destruct (seqZ from n)|].
    intros k. by rewrite decide_False by lia.
  - destruct (decide (0 < n)) as [Hn|Hn].
    2:{ rewrite seqZ_nil by lia. simpl. by rewrite decide_False by lia. }
    rewrite (seqZ_cons from n) by lia. simpl installMetas.
    specialize (IH (<[from := meta]> m) (Z.succ from) (Z.pred n)).
    cbn [length].
    destruct (decide (Z.of_nat (length metas) ≤ Z.max (Z.pred n) 0)) as [Hle|Hgt].
    + rewrite decide_True by lia. destruct IH as (m' & -> & Hm'). exists m'. split; [done|].
      intros k. rewrite Hm'.
      destruct (decide (k = from)) as [->|Hne].
      * rewrite decide_False by lia. rewrite decide_True by lia.
        rewrite lookup_insert_eq. by replace (from - from) with 0 by lia.
      * destruct (decide (Z.succ from ≤ k < Z.succ from + Z.of_nat (length metas))) as [Hk|Hk].
        -- rewrite decide_True by lia.
           replace (Z.to_nat (k - from)) with (S (Z.to_nat (k - Z.succ from))) by lia. done.
        -- rewrite decide_False by lia. by rewrite lookup_insert_ne.
    + by rewrite decide_False by lia.
Qed.

(** A range of at most one batch: one round of the loop. The answer that
    counts is the first one, or the second one when the first is an
    error. *)
Lemma downloadMetaInRange_one_batch s (from to taskId : Z) :
  0 ≤ from < to → to - from ≤ MetaBatchSize → to + MetaBatchSize ≤ 2 ^ 64 →
  downloadMetaInRange s from to taskId =
    let kvIndices := seqZ from (to - from) in
    let '(l1, r1) := Il1Source.GetKvMetas (l1Source s) kvIndices (localL1 s) in
    let '(l, r) := match r1 with
                   | inr _ => Il1Source.GetKvMetas l1 kvIndices (localL1 s)
                   | inl _ => (l1, r1)
                   end in
    match r with
    | inr e => Returned (with_l1Source s l, Some (errExternal e))
    | inl metas =>
        match installMetas (blobMetas s) kvIndices metas with
        | None => Panicked
        | Some m => Returned (with_blobMetas (with_l1Source s l) m, None)
        end
    end.
Proof.
  unfold MetaBatchSize. intros Hft Hsize Hto. unfold downloadMetaInRange.
  destruct (Z.to_nat (to - from)) as [|fuel] eqn:Hfuel; [lia|].
  simpl. rewrite (proj2 (Z.ltb_lt from to)) by lia.
  unfold MetaBatchSize. rewrite wrap_uint64_small by lia.
  assert (Hbl : (if from + 8000 >? to then to else from + 8000) = to).
  { destruct (Z.gtb_spec (from + 8000) to); lia. }
  rewrite Hbl.
  destruct (Il1Source.GetKvMetas (l1Source s) _ (localL1 s)) as [l1 r1].
  destruct (match r1 with inl _ => (l1, r1) | inr _ => _ end) as [l r].
  destruct r as [metas|e]; [|done].
  cbn [localL1 with_l1Source blobMetas].
  rewrite bool_decide_eq_false_2 by (intros Hne; by apply Hne).
  destruct (installMetas _ _ metas) as [m|]; [|done].
  destruct fuel; simpl; by rewrite (proj2 (Z.ltb_ge to to)) by lia.
Qed.

(** X17. A request for a batch of metas is retried once, and once only. For
    a range of at most one batch: when the first request fails and the
    second succeeds (with one meta for each index), the download returns
    nil and the metas of the second answer are installed; when both fail,
    the error of the second is returned and the cache is as before; when
    the first succeeds, no second request is made. *)
Theorem downloadMetaInRange_retry s (from to taskId : Z) l1 r1 l2 r2 :
  0 ≤ from < to → to - from ≤ MetaBatchSize → to + MetaBatchSize ≤ 2 ^ 64 →
  Il1Source.GetKvMetas (l1Source s) (seqZ from (to - from)) (localL1 s) = (l1, r1) →
  Il1Source.GetKvMetas l1 (seqZ from (to - from)) (localL1 s) = (l2, r2) →
  let installed (la : L) (metas : list Hash) :=
    ∃ s', downloadMetaInRange s from to taskId = Returned (s', None)
          ∧ l1Source s' = la
          ∧ ∀ k, blobMetas s' !! k =
                 if decide (from ≤ k < to) then metas !! Z.to_nat (k - from)
                 else blobMetas s !! k in
  match r1, r2 with
  | inl metas, _ => Z.of_nat (length metas) = to - from → installed l1 metas
  | inr _, inl metas => Z.of_nat (length metas) = to - from → installed l2 metas
  | inr _, inr e2 =>
      downloadMetaInRange s from to taskId
      = Returned (with_l1Source s l2, Some (errExternal e2))
  end.
Proof.
  intros Hft Hsize Hto Hr1 Hr2 installed. subst installed. cbv beta.
  rewrite (downloadMetaInRange_one_batch s from to taskId Hft Hsize Hto).
  cbv zeta. rewrite Hr1.
  assert (Hinst : ∀ metas : list Hash, Z.of_nat (length metas) = to - from →
            match installMetas (blobMetas s) (seqZ from (to - from)) metas with
            | None => False
            | Some m => ∀ k, m !! k = if decide (from ≤ k < to)
                                      then metas !! Z.to_nat (k - from)
                                      else blobMetas s !! k
            end).
  { intros metas Hlen.
    pose proof (installMetas_seqZ metas (blobMetas s) from (to - from)) as Hi.
    rewrite decide_True in Hi by lia. destruct Hi as (m' & -> & Hm').
    intros k. rewrite Hm'. rewrite Hlen.
    destruct (decide (from ≤ k < to)); [by rewrite decide_True by lia|
                                        by rewrite decide_False by lia]. }
  destruct r1 as [metas|e1].
  - intros Hlen. specialize (Hinst metas Hlen).
    destruct (installMetas _ _ metas) as [m|]; [|done]. by eexists.
  - rewrite Hr2. destruct r2 as [metas|e2]; [|done].
    intros Hlen. specialize (Hinst metas Hlen).
    destruct (installMetas _ _ metas) as [m|]; [|done]. by eexists.
Qed.

(** X18. The answer of the L1 source is not checked against the request.
    For a range of at most one batch and an answer to the first request:
    when the answer has more metas than the batch has indices, the download
    panics (index out of range); when it has fewer, the download returns
    nil all the same, only the leading indices of the range get a meta and
    the rest of the range is left as it was. *)
Theorem downloadMetaInRange_answer_length s (from to taskId : Z) l1 (metas : list Hash) :
  0 ≤ from < to → to - from ≤ MetaBatchSize → to + MetaBatchSize ≤ 2 ^ 64 →
  Il1Source.GetKvMetas (l1Source s) (seqZ from (to - from)) (localL1 s) = (l1, inl metas) →
  (to - from < Z.of_nat (length metas) →
   downloadMetaInRange s from to taskId = Panicked)
  ∧ (Z.of_nat (length metas) ≤ to - from →
     ∃ s', downloadMetaInRange s from to taskId = Returned (s', None)
           ∧ ∀ k, blobMetas s' !! k =
                  if decide (from ≤ k < from + Z.of_nat (length metas))
                  then metas !! Z.to_nat (k - from) else blobMetas s !! k).
Proof.
  intros Hft Hsize Hto Hr1.
  rewrite (downloadMetaInRange_one_batch s from to taskId Hft Hsize Hto).
  cbv zeta. rewrite Hr1.
  pose proof (installMetas_seqZ metas (blobMetas s) from (to - from)) as Hi.
  split.
  - intros Hlong. rewrite decide_False in Hi by lia. by rewrite Hi.
  - intros Hshort. rewrite decide_True in Hi by lia. destruct Hi as (m' & -> & Hm').
    by eexists.
Qed.

(** ** Downloading from a static source *)

(** X19. From a static source, [downloadMetaInRange] over [[from, to)]
    returns nil and leaves in the cache the meta of the source, as of
    [localL1], for every index of the range; the entries outside the range,
    the view and the store are as before. *)
Theorem downloadMetaInRange_static (f : Z → Z → Hash) s (from to taskId : Z) :
  staticSource (l1Source s) f →
  0 ≤ from → to + MetaBatchSize ≤ 2 ^ 64 →
  ∃ s', downloadMetaInRange s from to taskId = Returned (s', None)
        ∧ localL1 s' = localL1 s ∧ lastKvIdx s' = lastKvIdx s
        ∧ shardManager s' = shardManager s ∧ writeLog s' = writeLog s
        ∧ l1Source s' = l1Source s
        ∧ ∀ k, blobMetas s' !! k =
               if bool_decide (from ≤ k < to) then Some (f (localL1 s) k)
               else blobMetas s !! k.
Proof.
  intros Hst Hfrom Hto. unfold downloadMetaInRange.
  destruct (downloadMetaInRangeLoop_static f to (Z.to_nat (to - from)) s from Hst Hfrom Hto)
    as (m' & -> & Hm'); [lia|].
  eexists. split; [done|]. by repeat split.
Qed.

(** X20. For a range that starts at index 0 and a static source, the
    parallel download and one sequential pass return the same state: the
    cache holds the metas of [[0, to)], whether the range is below the
    threshold of 32 batches or not. *)
Theorem downloadMetaInParallel_from_zero (f : Z → Z → Hash) s (to : Z) :
  staticSource (l1Source s) f →
  0 ≤ to → to + MetaBatchSize ≤ 2 ^ 64 →
  ∃ s', downloadMetaInParallel s 0 to = Returned (s', None)
        ∧ downloadMetaInRange s 0 to 0 = Returned (s', None)
        ∧ ∀ k, blobMetas s' !! k =
               if bool_decide (0 ≤ k < to) then Some (f (localL1 s) k)
               else blobMetas s !! k.
Proof.
  intros Hst Hto0 Hto.
  destruct (downloadMetaInParallel_static f s 0 to Hst ltac:(lia) Hto) as (m1 & Hp & Hm1).
  unfold downloadMetaInRange.
  destruct (downloadMetaInRangeLoop_static f to (Z.to_nat (to - 0)) s 0 Hst
              ltac:(lia) Hto ltac:(lia)) as (m2 & Hs & Hm2).
  assert (m1 = m2) as ->.
  { apply map_eq. intros k. rewrite Hm1, Hm2. destruct (to - 0 <? 256000); done. }
  exists (with_blobMetas s m2). split; [done|]. split; [done|].
  intros k. cbn [blobMetas with_blobMetas]. by rewrite Hm2.
Qed.

(** ** A download that fails midway *)

(** One pass over [[from, to)] when the requests for [bad] fail: the
    batches before the one of [bad] are installed and stay, and the error
    is returned. *)
Lemma downloadMetaInRangeLoop_failing (f : Z → Z → Hash) (bad : Z) (msg : string) (to : Z)
    (fuel : nat) :
  ∀ s (from : Z),
    failingSource (l1Source s) f bad msg →
    0 ≤ from → to + MetaBatchSize ≤ 2 ^ 64 → to - from ≤ Z.of_nat fuel →
    ∃ m', downloadMetaInRangeLoop fuel s from to
          = Returned (with_blobMetas s m',
                      if bool_decide (from ≤ bad < to) then Some (errExternal msg) else None)
          ∧ (∀ k, ¬ from ≤ k < to → m' !! k = blobMetas s !! k)
          ∧ (¬ from ≤ bad < to →
             ∀ k, from ≤ k < to → m' !! k = Some (f (localL1 s) k)).
Proof.
  unfold MetaBatchSize.
  induction fuel as [|fuel IH]; intros s from Hst Hfrom Hto Hfuel.
  - simpl. rewrite (proj2 (Z.ltb_ge _ _)) by lia.
    exists (blobMetas s). rewrite with_blobMetas_id.
    rewrite bool_decide_eq_false_2 by lia. split; [done|]. split; [done|]. intros _ k Hk. lia.
  - simpl. destruct (Z.ltb_spec from to) as [Hlt|Hge].
    2:{ exists (blobMetas s). rewrite with_blobMetas_id.
        rewrite bool_decide_eq_false_2 by lia. split; [done|]. split; [done|].
        intros _ k Hk. lia. }
    unfold MetaBatchSize. rewrite wrap_uint64_small by lia.
    set (batchLimit := if from + 8000 >? to then to else from + 8000).
    assert (Hbl : from < batchLimit ≤ to ∧ batchLimit ≤ from + 8000).
    { unfold batchLimit. destruct (Z.gtb_spec (from + 8000) to); lia. }
    rewrite (Hst (seqZ from (batchLimit - from)) (localL1 s)).
    destruct (decide (from ≤ bad < batchLimit)) as [Hbad|Hbad].
    + (* the batch of [bad]: both requests fail *)
      rewrite bool_decide_eq_true_2 by (apply elem_of_seqZ; lia).
      rewrite (Hst (seqZ from (batchLimit - from)) (localL1 s)).
      rewrite bool_decide_eq_true_2 by (apply elem_of_seqZ; lia).
      rewrite with_l1Source_id.
      exists (blobMetas s). rewrite with_blobMetas_id.
      rewrite bool_decide_eq_true_2 by lia. split; [done|]. split; [done|]. intros Hnot. lia.
    + rewrite bool_decide_eq_false_2 by (rewrite elem_of_seqZ; lia).
      rewrite with_l1Source_id.
      rewrite bool_decide_eq_false_2 by (intros Hne; by apply Hne).
      destruct (installMetas_fmap (f (localL1 s)) (seqZ from (batchLimit - from)) (blobMetas s))
        as (m1 & -> & Hm1).
      destruct (IH (with_blobMetas s m1) batchLimit Hst ltac:(lia) Hto ltac:(lia))
        as (m' & Hloop & Hout & Hin).
      exists m'. split.
      { rewrite Hloop. do 3 f_equal.
        destruct (decide (batchLimit ≤ bad < to)).
        - by rewrite !bool_decide_eq_true_2 by lia.
        - by rewrite !bool_decide_eq_false_2 by lia. }
      cbn [localL1 blobMetas with_blobMetas] in Hout, Hin. split.
      * intros k Hk. rewrite Hout by lia. rewrite Hm1.
        rewrite bool_decide_eq_false_2; [done|]. rewrite elem_of_seqZ. lia.
      * intros Hnot k Hk. destruct (decide (batchLimit ≤ k)) as [Hk2|Hk2].
        -- apply Hin; lia.
        -- rewrite Hout by lia. rewrite Hm1.
           rewrite bool_decide_eq_true_2; [done|]. apply elem_of_seqZ. lia.
Qed.

(** The tasks [taskIdx .. 31] when the requests for [bad] fail: every task
    runs; the ranges of the tasks that do not hold [bad] are installed. *)
Lemma metaTaskLoop_failing (f : Z → Z → Hash) (bad : Z) (msg : string) (to rangeSize : Z)
    (fuel : nat) :
  ∀ s (taskIdx : Z),
    failingSource (l1Source s) f bad msg →
    0 ≤ rangeSize → 31 * rangeSize ≤ to → to + MetaBatchSize ≤ 2 ^ 64 →
    0 ≤ taskIdx ≤ 32 → 32 - taskIdx ≤ Z.of_nat fuel →
    ∃ m' results,
      metaTaskLoop fuel s taskIdx MetaDownloadThread rangeSize to
      = Returned (with_blobMetas s m', results)
      ∧ ((∃ j, taskIdx ≤ j < 32 ∧ taskRange rangeSize to j bad) →
         firstError results = Some (errExternal msg))
      ∧ (∀ k, taskIdx = 32 ∨ k < taskIdx * rangeSize → m' !! k = blobMetas s !! k)
      ∧ (∀ j k, taskIdx ≤ j < 32 → taskRange rangeSize to j k →
           ¬ taskRange rangeSize to j bad →
           m' !! k = Some (f (localL1 s) k)).
Proof.
  unfold taskRange, MetaDownloadThread. change (32 - 1) with 31.
  induction fuel as [|fuel IH]; intros s taskIdx Hst Hrs H31 Hto Hidx Hfuel.
  - simpl. rewrite (proj2 (Z.ltb_ge _ _)) by lia.
    exists (blobMetas s), []. rewrite with_blobMetas_id. split; [done|].
    split; [intros (j & Hj & _); lia|]. split; [done|]. intros j k Hj. lia.
  - simpl. destruct (Z.ltb_spec taskIdx 32) as [Hlt|Hge].
    2:{ exists (blobMetas s), []. rewrite with_blobMetas_id. split; [done|].
        split; [intros (j & Hj & _); lia|]. split; [done|]. intros j k Hj. lia. }
    assert (Hmono : taskIdx * rangeSize ≤ 31 * rangeSize) by nia.
    rewrite (wrap_uint64_small (taskIdx * rangeSize)) by (unfold MetaBatchSize in Hto; nia).
    rewrite (wrap_uint64_small (taskIdx + 1)) by lia.
    set (rangeEnd := if bool_decide (taskIdx = 32 - 1) then to
                     else wrap_uint64 ((taskIdx + 1) * rangeSize)).
    assert (Hend : rangeEnd = if bool_decide (taskIdx = 31) then to
                              else (taskIdx + 1) * rangeSize).
    { unfold rangeEnd. change (32 - 1) with 31. case_bool_decide; [done|].
      apply wrap_uint64_small. unfold MetaBatchSize in Hto. nia. }
    assert (Hend' : taskIdx * rangeSize ≤ rangeEnd ≤ to).
    { rewrite Hend. case_bool_decide; nia. }
    assert (Hnext : taskIdx ≠ 31 → rangeEnd = (taskIdx + 1) * rangeSize).
    { intros H'. rewrite Hend. by rewrite bool_decide_eq_false_2. }
    unfold downloadMetaInRange.
    destruct (downloadMetaInRangeLoop_failing f bad msg rangeEnd
                (Z.to_nat (rangeEnd - taskIdx * rangeSize)) s (taskIdx * rangeSize))
      as (m1 & -> & Hout1 & Hin1); [done|nia|lia|lia|].
    cbn [mbind outcome_bind].
    destruct (IH (with_blobMetas s m1) (taskIdx + 1)) as (m' & results & -> & Herr & Hlow & Hin);
      [done|done|done|done|lia|lia|].
    cbn [mbind outcome_bind]. cbn [localL1 blobMetas with_blobMetas] in Hlow, Hin.
    eexists m', _. split; [done|].
    split; [|split].
    + intros (j & Hj & Hbad).
      destruct (decide (j = taskIdx)) as [->|Hne].
      * rewrite <- Hend in Hbad. by rewrite bool_decide_eq_true_2 by lia.
      * destruct (decide (taskIdx * rangeSize ≤ bad < rangeEnd)) as [Hown|Hown].
        -- by rewrite bool_decide_eq_true_2 by done.
        -- rewrite bool_decide_eq_false_2 by done. cbn [firstError].
           apply Herr. exists j. split; [lia|done].
    + intros k [?|Hk]; [lia|]. rewrite Hlow by (right; nia). apply Hout1. lia.
    + intros j k Hj Hk Hbad.
      destruct (decide (j = taskIdx)) as [->|Hne].
      * rewrite <- Hend in Hk, Hbad.
        rewrite Hlow; [by apply Hin1|].
        destruct (decide (taskIdx = 31)) as [H31'|H31']; [left; lia|].
        right. rewrite <- (Hnext H31'). lia.
      * apply (Hin j k); [lia|done|done].
Qed.

(** X21. An error of the parallel download does not undo, nor stop, the
    other tasks. When, for a range from 0 of at least 32 batches, the
    requests that ask for one index [bad] of the range fail, the download
    returns this error, and the metas of the ranges of all the tasks other
    than the one of [bad] are in the cache afterwards. *)
Theorem downloadMetaInParallel_partial (f : Z → Z → Hash) (bad : Z) (msg : string) s (to : Z) :
  failingSource (l1Source s) f bad msg →
  MetaDownloadThread * MetaBatchSize ≤ to → to + MetaBatchSize ≤ 2 ^ 64 →
  0 ≤ bad < to →
  ∃ s', downloadMetaInParallel s 0 to = Returned (s', Some (errExternal msg))
        ∧ ∀ j k, 0 ≤ j < MetaDownloadThread →
            taskRange (to / MetaDownloadThread) to j k →
            ¬ taskRange (to / MetaDownloadThread) to j bad →
            blobMetas s' !! k = Some (f (localL1 s) k).
Proof.
  intros Hst Hbig Hto Hbad. unfold downloadMetaInParallel.
  assert (HM : to < 2 ^ 64) by (unfold MetaBatchSize in Hto; lia).
  rewrite Z.sub_0_r. rewrite (wrap_uint64_small to) by (unfold MetaDownloadThread, MetaBatchSize in *; lia).
  change (wrap_uint64 (MetaDownloadThread * MetaBatchSize)) with 256000.
  rewrite (proj2 (Z.ltb_ge to 256000)) by (unfold MetaDownloadThread, MetaBatchSize in *; lia).
  assert (Hrs : 0 ≤ to / MetaDownloadThread)
    by (apply Z.div_pos; [unfold MetaDownloadThread, MetaBatchSize in *; lia|reflexivity]).
  assert (Hrs' : MetaDownloadThread * (to / MetaDownloadThread) ≤ to)
    by (apply Z.mul_div_le; reflexivity).
  destruct (metaTaskLoop_failing f bad msg to (to / MetaDownloadThread)
              (Z.to_nat MetaDownloadThread) s 0)
    as (m' & results & -> & Herr & _ & Hin);
    [done|done|unfold MetaDownloadThread in *; lia|done|lia|unfold MetaDownloadThread; lia|].
  cbn [mbind outcome_bind]. eexists. split.
  - rewrite Herr; [done|].
    (* the task whose range holds [bad] *)
    unfold taskRange. change (MetaDownloadThread - 1) with 31.
    set (rs := to / MetaDownloadThread) in *. unfold MetaDownloadThread, MetaBatchSize in *.
    destruct (decide (bad < 31 * rs)) as [Hlow|Hhigh].
    + exists (bad / rs).
      assert (Hpos : 0 < rs) by lia.
      pose proof (Z.div_mod bad rs ltac:(lia)) as Hb.
      pose proof (Z.mod_pos_bound bad rs Hpos) as Hb'.
      assert (0 ≤ bad / rs) by (apply Z.div_pos; lia).
      assert (bad / rs < 31) by (apply Z.div_lt_upper_bound; lia).
      split; [lia|]. rewrite bool_decide_eq_false_2 by lia. nia.
    + exists 31. split; [lia|]. rewrite bool_decide_eq_true_2 by done. lia.
  - intros j k Hj Hk Hnb. cbn [blobMetas with_blobMetas]. by apply (Hin j k).
Qed.

End MoreTheory.

(** ** DownloadAllMetas *)

Section AllMetasTheory.
Context {SM L : Type} `{!ShardManager.Ops SM} `{!Il1Source.Ops L}
        `{!ShardLayout.Ops SM} `{!Il1Header.Ops L}.
Implicit Types s : StorageManager SM L.

(** The fields a download of metas leaves alone. *)
Lemma downloadMetaInParallel_frame s (from to : Z) s' r :
  downloadMetaInParallel s from to = Returned (s', r) →
  localL1 s' = localL1 s ∧ lastKvIdx s' = lastKvIdx s
  ∧ shardManager s' = shardManager s ∧ writeLog s' = writeLog s
  ∧ DownloadThreadNum s' = DownloadThreadNum s.
Proof.
  unfold downloadMetaInParallel. destruct (_ <? _).
  - unfold downloadMetaInRange. apply downloadMetaInRangeLoop_frame.
  - destruct (metaTaskLoop _ s 0 _ _ to) as [[s1 rs]| |] eqn:Hloop;
      cbn [mbind outcome_bind]; [|done|done].
    intros [= <- _]. by apply metaTaskLoop_frame in Hloop.
Qed.

Lemma fillEmptyMetas_frame (indices : list Z) :
  ∀ s s',
    fillEmptyMetas s indices = Returned s' →
    localL1 s' = localL1 s ∧ lastKvIdx s' = lastKvIdx s
    ∧ shardManager s' = shardManager s ∧ writeLog s' = writeLog s
    ∧ DownloadThreadNum s' = DownloadThreadNum s ∧ l1Source s' = l1Source s.
Proof.
  induction indices as [|i rest IH]; intros s s'.
  - simpl. by intros [= <-].
  - simpl. destruct (emptyMetaOf i); [|done]. intros Hrest. by apply IH in Hrest.
Qed.

Lemma downloadShards_frame (lastIdx : Z) (shards : list Z) :
  ∀ s s' r,
    downloadShards s shards lastIdx = Returned (s', r) →
    localL1 s' = localL1 s ∧ lastKvIdx s' = lastKvIdx s
    ∧ shardManager s' = shardManager s ∧ writeLog s' = writeLog s
    ∧ DownloadThreadNum s' = DownloadThreadNum s.
Proof.
  induction shards as [|sid rest IH]; intros s s' r.
  - simpl. by intros [= <- _].
  - simpl.
    destruct (downloadMetaInParallel s _ _) as [[s1 err]| |] eqn:Hp;
      cbn [mbind outcome_bind]; [|done|done].
    apply downloadMetaInParallel_frame in Hp as (? & ? & ? & ? & ?).
    destruct err as [e|]; [intros [= <- _]; done|].
    destruct (fillEmptyMetas s1 _) as [s2| |] eqn:Hfill; cbn [mbind outcome_bind]; [|done|done].
    apply fillEmptyMetas_frame in Hfill as (? & ? & ? & ? & ? & _).
    intros Hrest. apply IH in Hrest as (? & ? & ? & ? & ?).
    repeat split; congruence.
Qed.

(** X22. [DownloadAllMetas] asks for the finalized header and for the last
    blob index as of it, but it never adopts them: whatever it returns,
    [localL1] and [lastKvIdx] are as before, and so are the store and the
    history of writes. When the request for the header, or the one for the
    last index, fails, that error is returned and the cache is as before. *)
Theorem DownloadAllMetas_keeps_view s s' r :
  DownloadAllMetas s = Returned (s', r) →
  localL1 s' = localL1 s ∧ lastKvIdx s' = lastKvIdx s
  ∧ shardManager s' = shardManager s ∧ writeLog s' = writeLog s
  ∧ DownloadThreadNum s' = DownloadThreadNum s
  ∧ (∀ l msg,
       Il1Header.HeaderByNumber (l1Source s) FinalizedBlockNumber = (l, inr msg) →
       r = Some (errExternal msg) ∧ blobMetas s' = blobMetas s)
  ∧ (∀ l number l' msg,
       Il1Header.HeaderByNumber (l1Source s) FinalizedBlockNumber = (l, inl (Some number)) →
       Il1Source.GetStorageLastBlobIdx l (wrap_int number) = (l', inr msg) →
       r = Some (errExternal msg) ∧ blobMetas s' = blobMetas s).
Proof.
  unfold DownloadAllMetas.
  destruct (Il1Header.HeaderByNumber (l1Source s) FinalizedBlockNumber)
    as [l [[number|]|msg]] eqn:Hhead.
  - cbn [l1Source with_l1Source].
    destruct (Il1Source.GetStorageLastBlobIdx l (wrap_int number)) as [l' [last|msg]] eqn:Hlast.
    + intros Hsh. apply downloadShards_frame in Hsh as (? & ? & ? & ? & ?).
      do 5 (split; [done|]). split; [intros ? ? Heq; discriminate Heq|].
      intros ? ? ? ? [= <- <-] Heq. rewrite Hlast in Heq. discriminate Heq.
    + intros [= <- <-]. do 5 (split; [done|]). split; [intros ? ? Heq; discriminate Heq|].
      intros ? ? ? ? [= <- <-] Heq. rewrite Hlast in Heq. by injection Heq as _ <-.
  - done.
  - intros [= <- <-]. do 5 (split; [done|]). split; [by intros ? ? [= <- <-]|].
    intros ? ? ? ? Heq. discriminate Heq.
Qed.

Lemma emptyMetaOf_small (i : Z) : 0 ≤ i < 2 ^ 40 → is_Some (emptyMetaOf i).
Proof.
  intros Hi. unfold emptyMetaOf, FillBytes.
  rewrite wrap_int_small by lia. rewrite Z.abs_eq by lia.
  change (256 ^ Z.of_nat 5) with (2 ^ 40).
  rewrite (proj2 (Z.ltb_lt _ _)) by lia. by eexists.
Qed.

Lemma fillEmptyMetas_spec (indices : list Z) :
  ∀ s,
    (∀ i, i ∈ indices → 0 ≤ i < 2 ^ 40) →
    ∃ m', fillEmptyMetas s indices = Returned (with_blobMetas s m')
          ∧ ∀ k, m' !! k = if decide (k ∈ indices) then emptyMetaOf k else blobMetas s !! k.
Proof.
  induction indices as [|i rest IH]; intros s Hsmall.
  - exists (blobMetas s). rewrite with_blobMetas_id. split; [done|].
    intros k. rewrite decide_False; [done|apply not_elem_of_nil].
  - simpl. destruct (emptyMetaOf_small i) as [meta Hmeta]; [apply Hsmall; by left|].
    rewrite Hmeta.
    destruct (IH (with_blobMetas s (<[i:=meta]> (blobMetas s)))) as (m' & -> & Hm').
    { intros j Hj. apply Hsmall. by right. }
    exists m'. split; [done|]. intros k. rewrite Hm'. cbn [blobMetas with_blobMetas].
    destruct (decide (k ∈ rest)) as [Hin|Hin].
    + by rewrite decide_True by (by right).
    + destruct (decide (k = i)) as [->|Hne].
      * rewrite decide_True by (by left). by rewrite lookup_insert_eq.
      * rewrite decide_False by (intros [?|?]%elem_of_cons; done).
        by rewrite lookup_insert_ne.
Qed.

(** A shard the download handles as meant: it starts at or below the last
    blob index, it ends at or below [2^40], and it is shard 0 or has fewer
    than 32 batches of assigned slots. *)
Lemma downloadShards_spec (f : Z → Z → Hash) (lastIdx : Z) (shards : list Z) :
  ∀ s,
    staticSource (l1Source s) f →
    0 ≤ lastIdx < 2 ^ 64 → 0 < KvEntries s →
    (∀ sid, sid ∈ shards →
       0 ≤ sid ∧ KvEntries s * (sid + 1) ≤ 2 ^ 40 ∧ KvEntries s * sid ≤ lastIdx
       ∧ (sid = 0 ∨ Z.min (KvEntries s * (sid + 1)) lastIdx - KvEntries s * sid
                    < MetaDownloadThread * MetaBatchSize)) →
    ∃ m', downloadShards s shards lastIdx = Returned (with_blobMetas s m', None)
          ∧ (∀ sid k, sid ∈ shards →
               KvEntries s * sid ≤ k < KvEntries s * (sid + 1) →
               m' !! k = expectedMeta (f (localL1 s)) lastIdx k)
          ∧ (∀ k, (∀ sid, sid ∈ shards →
                     ¬ KvEntries s * sid ≤ k < KvEntries s * (sid + 1)) →
               m' !! k = blobMetas s !! k).
Proof.
  unfold MetaDownloadThread, MetaBatchSize.
  induction shards as [|sid rest IH]; intros s Hst Hlast Hkv Hok.
  - exists (blobMetas s). rewrite with_blobMetas_id. split; [done|].
    split; [by intros sid k Hin%elem_of_nil|done].
  - destruct (Hok sid ltac:(by left)) as (Hsid & Hlim & Hfirst & Hpath).
    set (kvE := KvEntries s) in *.
    assert (Hsid1 : sid + 1 ≤ 2 ^ 40) by nia.
    simpl downloadShards. fold kvE.
    rewrite (wrap_uint64_small (sid + 1)) by lia.
    rewrite (wrap_uint64_small (kvE * sid)) by nia.
    rewrite (wrap_uint64_small (kvE * (sid + 1))) by lia.
    set (first := kvE * sid) in *. set (limit := kvE * (sid + 1)) in *.
    set (end_ := if limit >? lastIdx then lastIdx else limit).
    assert (Hend : end_ = Z.min limit lastIdx).
    { unfold end_. destruct (Z.gtb_spec limit lastIdx); lia. }
    assert (Hfl : first ≤ limit) by (unfold first, limit; nia).
    destruct (downloadMetaInParallel_static f s first end_ Hst) as (m1 & -> & Hm1);
      [lia|unfold MetaBatchSize; lia|].
    cbn [mbind outcome_bind].
    destruct (fillEmptyMetas_spec (seqZ end_ (limit - end_)) (with_blobMetas s m1))
      as (m2 & -> & Hm2).
    { intros i Hi%elem_of_seqZ. lia. }
    cbn [mbind outcome_bind]. cbn [blobMetas with_blobMetas] in Hm2.
    change (with_blobMetas (with_blobMetas s m1) m2) with (with_blobMetas s m2).
    destruct (IH (with_blobMetas s m2)) as (m' & -> & Hin & Hout);
      [done|done|done|intros sid' Hin'; apply Hok; by right|].
    cbn [localL1 blobMetas with_blobMetas] in Hin, Hout. fold kvE in Hin, Hout.
    exists m'. split; [done|].
    assert (Hown : ∀ k, first ≤ k < limit → m2 !! k = expectedMeta (f (localL1 s)) lastIdx k).
    { intros k Hk. rewrite Hm2. unfold expectedMeta.
      destruct (decide (k < lastIdx)) as [Hkl|Hkl].
      - rewrite decide_False by (rewrite elem_of_seqZ; lia).
        rewrite Hm1. rewrite bool_decide_eq_true_2; [done|].
        destruct (end_ - first <? 256000) eqn:Hsmall; [lia|].
        apply Z.ltb_ge in Hsmall. destruct Hpath as [->|?]; [unfold first; lia|lia].
      - by rewrite decide_True by (apply elem_of_seqZ; lia). }
    assert (Hother : ∀ k, ¬ first ≤ k < limit → m2 !! k = blobMetas s !! k).
    { intros k Hk. rewrite Hm2.
      rewrite decide_False by (rewrite elem_of_seqZ; lia).
      rewrite Hm1. rewrite bool_decide_eq_false_2; [done|].
      destruct (end_ - first <? 256000) eqn:Hsmall; [lia|].
      apply Z.ltb_ge in Hsmall. destruct Hpath as [->|?]; [unfold first in *; lia|lia]. }
    split.
    + intros sid' k Hsid' Hk.
      destruct (decide (Exists (λ sid'', kvE * sid'' ≤ k < kvE * (sid'' + 1)) rest))
        as [(sid'' & Hin'' & Hk'')%Exists_exists|Hnone].
      * by apply (Hin sid'').
      * rewrite Hout.
        -- apply Hown. apply elem_of_cons in Hsid' as [->|Hr]; [done|].
           destruct Hnone. apply Exists_exists. by exists sid'.
        -- intros sid'' Hin'' Hk''. apply Hnone. apply Exists_exists. by exists sid''.
    + intros k Hk. rewrite Hout by (intros sid' Hin'; apply Hk; by right).
      apply Hother. apply Hk. by left.
Qed.

(** X23. What a successful [DownloadAllMetas] leaves in the cache. The
    source answers with the finalized header and the last blob index [last]
    and serves the metas [f]; every local shard starts at or below [last],
    ends at or below [2^40], and is shard 0 or has fewer than 32 batches of
    assigned slots. Then the call returns no error, and for every index of
    every local shard the cache holds the meta of the source, read as of
    [localL1], when the index is below [last], and the empty meta of the
    index from [last] on; the entries of other indices are as before. *)
Theorem DownloadAllMetas_covers (f : Z → Z → Hash) s (number last : Z) :
  Il1Header.HeaderByNumber (l1Source s) FinalizedBlockNumber
    = (l1Source s, inl (Some number)) →
  Il1Source.GetStorageLastBlobIdx (l1Source s) (wrap_int number) = (l1Source s, inl last) →
  staticSource (l1Source s) f →
  0 ≤ last < 2 ^ 64 → 0 < KvEntries s →
  (∀ sid, sid ∈ Shards s →
     0 ≤ sid ∧ KvEntries s * (sid + 1) ≤ 2 ^ 40 ∧ KvEntries s * sid ≤ last
     ∧ (sid = 0 ∨ Z.min (KvEntries s * (sid + 1)) last - KvEntries s * sid
                  < MetaDownloadThread * MetaBatchSize)) →
  ∃ s', DownloadAllMetas s = Returned (s', None)
        ∧ (∀ sid k, sid ∈ Shards s →
             KvEntries s * sid ≤ k < KvEntries s * (sid + 1) →
             blobMetas s' !! k = expectedMeta (f (localL1 s)) last k)
        ∧ (∀ k, (∀ sid, sid ∈ Shards s →
                   ¬ KvEntries s * sid ≤ k < KvEntries s * (sid + 1)) →
             blobMetas s' !! k = blobMetas s !! k).
Proof.
  intros Hhead Hlast Hst Hrange Hkv Hok.
  unfold DownloadAllMetas. rewrite Hhead. rewrite !with_l1Source_id, Hlast.
  rewrite with_l1Source_id.
  destruct (downloadShards_spec f last (Shards s) s Hst Hrange Hkv Hok)
    as (m' & -> & Hin & Hout).
  by exists (with_blobMetas s m').
Qed.

End AllMetasTheory.

(** * The further properties on concrete inputs *)

Lemma commitEncodedBlob_validated_witness :
  ∃ s', commitEncodedBlob Scenario.s0 3 [1; 2; 3] Scenario.commitA
          (Scenario.contractMetaOf 3 Scenario.commitA) = (s', None)
        ∧ Uint64 (SetBytes (slice 0 5 (Scenario.contractMetaOf 3 Scenario.commitA))) = 3.
Proof.
  destruct (commitEncodedBlob Scenario.s0 3 [1; 2; 3] Scenario.commitA
              (Scenario.contractMetaOf 3 Scenario.commitA)) as [s' r] eqn:E.
  assert (Hr : r = None) by (vm_compute in E; by injection E as _ <-).
  subst r. exists s'. split; [done|].
  exact (proj1 (proj2 (commitEncodedBlob_validated _ _ _ _ _ _ _ E (or_introl eq_refl)))).
Defined.

Lemma commitEncodedBlob_index_bound_witness :
  ∃ e, commitEncodedBlob Scenario.s0 (2 ^ 40) [] zeroHash (Mem.indexMeta 1)
       = (Scenario.s0, Some e).
Proof.
  apply commitEncodedBlob_index_bound; [|lia].
  apply (bool_decide_unpack _). vm_compute. exact I.
Defined.

Lemma CommitBlob_slot0_uncached_witness :
  ∃ s', CommitBlob Scenario.sFresh 0 [1] zeroHash = (s', None)
        ∧ (writeLog s' = writeLog Scenario.sFresh
           ∨ writeLog s' = writeLog Scenario.sFresh
                           ++ [CallTryWriteEncoded 0 [1] (prepareCommit zeroHash)]).
Proof.
  apply (CommitBlob_slot0_uncached Scenario.sFresh [1] zeroHash [1] zeroHash);
    reflexivity.
Defined.

Lemma TryReadEncoded_after_commit_witness :
  ∃ s', commitEncodedBlob Scenario.s0 3 [1; 2; 3] Scenario.commitA
          (Scenario.contractMetaOf 3 Scenario.commitA) = (s', None)
        ∧ TryReadEncoded s' 3 2 = ([1; 2], true, None).
Proof.
  destruct (commitEncodedBlob Scenario.s0 3 [1; 2; 3] Scenario.commitA
              (Scenario.contractMetaOf 3 Scenario.commitA)) as [s' r] eqn:E.
  assert (Hr : r = None) by (vm_compute in E; by injection E as _ <-).
  subst r. exists s'. split; [done|].
  destruct (TryReadEncoded_after_commit Scenario.s0 3 [1; 2; 3] Scenario.commitA _ s' 2
              Mem_readback eq_refl E) as [Hfull _].
  rewrite Hfull by (by vm_compute).
  vm_compute in E. injection E as <-. reflexivity.
Defined.

Lemma CommitBlobs_panics_iff_witness :
  CommitBlobs Scenario.sFresh [20] [[1]] [Scenario.commitA] = Panicked.
Proof.
  pose proof (CommitBlobs_panics_iff Scenario.sFresh [20] [[1]] [Scenario.commitA]
                eq_refl eq_refl) as H.
  cbv zeta in H. destruct H as [[_ Hpanic] _]. apply Hpanic.
  by exists 0%nat, 20, [1], Scenario.commitA, [].
Defined.

Lemma CommitBlobs_validated_witness :
  ∃ s' inserted,
    CommitBlobs Scenario.s0 [1; 3] [[]; [1]] [zeroHash; zeroHash]
    = Returned (s', (inserted, None))
    ∧ inserted `sublist_of` [1; 3] ∧ onlyStoreChanged Scenario.s0 s'.
Proof.
  destruct (CommitBlobs Scenario.s0 [1; 3] [[]; [1]] [zeroHash; zeroHash])
    as [[s' [inserted e]]| |] eqn:E.
  - assert (He : e = None) by (vm_compute in E; by injection E as _ _ <-).
    subst e. exists s', inserted. split; [done|].
    pose proof (CommitBlobs_validated _ _ _ _ _ _ _ E) as H. cbv zeta in H.
    destruct H as (_ & _ & Honly & Hsub & _). done.
  - vm_compute in E. discriminate E.
  - vm_compute in E. discriminate E.
Defined.

Lemma CommitBlobs_single_witness :
  CommitBlobs Scenario.s0 [3] [[1; 2; 3]] [Scenario.commitA] =
    Returned ((CommitBlob Scenario.s0 3 [1; 2; 3] Scenario.commitA).1, ([3], None)).
Proof.
  rewrite (CommitBlobs_single Scenario.s0 3 [1; 2; 3] Scenario.commitA).
  - reflexivity.
  - intros enc Henc. vm_compute in Henc. discriminate Henc.
Defined.

Lemma CommitEmptyBlobs_bounds_witness :
  ∃ s' inserted next,
    CommitEmptyBlobs Scenario.s0 1 4 = Returned (s', (inserted, next, None))
    ∧ 1 ≤ next ≤ 5 ∧ 0 ≤ inserted ≤ next - 1.
Proof.
  destruct (CommitEmptyBlobs Scenario.s0 1 4) as [[s' [[inserted next] err]]| |] eqn:E.
  - destruct (CommitEmptyBlobs_bounds Scenario.s0 1 4 s' inserted next err
                ltac:(lia) ltac:(lia) E)
      as (-> & _ & Hnext & Hins & _).
    exists s', inserted, next. split; [done|]. lia.
  - vm_compute in E. discriminate E.
  - vm_compute in E. discriminate E.
Defined.

Lemma DownloadFinished_success_witness :
  ∃ s', DownloadFinished Scenario.s0 42 [1] [[1]] [Scenario.commitA] = Returned (s', None)
        ∧ localL1 s' = 42
        ∧ blobMetas s' !! 1 = localMetaOf 1 Scenario.commitA.
Proof.
  destruct (DownloadFinished Scenario.s0 42 [1] [[1]] [Scenario.commitA])
    as [[s' r]| |] eqn:E.
  - assert (Hr : r = None) by (vm_compute in E; by injection E as _ <-).
    subst r. exists s'. split; [done|].
    destruct (DownloadFinished_success _ _ _ _ _ _ E) as (_ & Hl1 & _ & _ & Hmeta).
    split; [done|].
    apply (Hmeta 0%nat 1 Scenario.commitA); [reflexivity|reflexivity|].
    by intros [|j] Hj; [lia|].
  - vm_compute in E. discriminate E.
  - vm_compute in E. discriminate E.
Defined.

Lemma DownloadFinished_then_CommitBlob_witness :
  ∃ s', DownloadFinished Scenario.s0 42 [1] [[1]] [Scenario.commitA] = Returned (s', None)
        ∧ (CommitBlob s' 1 [1] Scenario.commitA).2 ≠ Some errCommitMismatch
        ∧ (CommitBlob s' 1 [1] Scenario.commitA).2 ≠ Some errKvIdxMismatch.
Proof.
  destruct (DownloadFinished Scenario.s0 42 [1] [[1]] [Scenario.commitA])
    as [[s' r]| |] eqn:E.
  - assert (Hr : r = None) by (vm_compute in E; by injection E as _ <-).
    subst r. exists s'. split; [done|].
    apply (DownloadFinished_then_CommitBlob _ _ _ _ _ _ 0%nat 1 Scenario.commitA [1] E);
      [reflexivity|reflexivity| |lia|reflexivity].
    by intros [|j] Hj; [lia|].
  - vm_compute in E. discriminate E.
  - vm_compute in E. discriminate E.
Defined.

Lemma DownloadFinished_no_threads_witness :
  match DownloadFinished sIdle 42 [1] [[1]] [Scenario.commitA] with
  | Returned (s', r) => r = None ∧ localL1 s' = 42 ∧ writeLog s' = []
  | _ => False
  end.
Proof.
  assert (Hlast : Il1Source.GetStorageLastBlobIdx (l1Source sIdle) 42
                  = (Scenario.ledger0, inl 9)) by reflexivity.
  assert (Hnewer : localL1 sIdle < 42) by (simpl; lia).
  destruct (DownloadFinished_no_threads sIdle 42 [1] [[1]] [Scenario.commitA]
              Scenario.ledger0 9 eq_refl eq_refl Hnewer Hlast) as [Hidle _].
  specialize (Hidle eq_refl).
  destruct (DownloadFinished sIdle 42 [1] [[1]] [Scenario.commitA])
    as [[s' r]| |] eqn:E.
  - destruct Hidle as (? & ? & _ & ? & _). done.
  - vm_compute in E. discriminate E.
  - done.
Defined.

Lemma DownloadFinished_large_index_witness :
  match DownloadFinished Scenario.s0 42 [2 ^ 40] [[1]] [Scenario.commitA] with
  | Returned (_, None) => False
  | _ => True
  end.
Proof.
  destruct (DownloadFinished Scenario.s0 42 [2 ^ 40] [[1]] [Scenario.commitA])
    as [[s' [e|]]| |] eqn:E; [exact I| |exact I|exact I].
  exact (DownloadFinished_large_index Scenario.s0 42 [2 ^ 40] [[1]] [Scenario.commitA]
           0%nat (2 ^ 40) eq_refl ltac:(lia) s' E).
Defined.

Lemma Reset_view_witness :
  localL1 (Reset Scenario.s0 3).1 = 3
  ∧ ∃ e, DownloadFinished (Reset Scenario.s0 3).1 3 [1] [[1]] [Scenario.commitA]
         = Returned ((Reset Scenario.s0 3).1, Some e).
Proof.
  destruct (Reset Scenario.s0 3) as [s' r] eqn:E.
  assert (Hr : r = None) by (vm_compute in E; by injection E as _ <-).
  subst r. destruct (Reset_view _ _ _ _ E) as (_ & _ & _ & _ & Hl1 & _ & Hrej).
  split; [done|]. apply Hrej. lia.
Defined.

Lemma DownloadFinished_writes_once_witness :
  ∃ s' r ps calls,
    DownloadFinished Scenario.sFaulty 42 [1; 2; 3] [[1]; [2]; [3]]
      [Scenario.commitA; Scenario.commitA; Scenario.commitA] = Returned (s', r)
    ∧ writeLog s' = calls ∧ NoDup ps
    ∧ Forall2 (writeOfPosition [1; 2; 3] [[1]; [2]; [3]]
                 [Scenario.commitA; Scenario.commitA; Scenario.commitA]) ps calls.
Proof.
  destruct (DownloadFinished Scenario.sFaulty 42 [1; 2; 3] [[1]; [2]; [3]]
              [Scenario.commitA; Scenario.commitA; Scenario.commitA])
    as [[s' r]| |] eqn:E.
  - destruct (DownloadFinished_writes_once Scenario.sFaulty 42 [1; 2; 3] [[1]; [2]; [3]]
                [Scenario.commitA; Scenario.commitA; Scenario.commitA] s' r
                ltac:(simpl; lia) E)
      as (ps & calls & Hlog & Hall & Hnd & _).
    exists s', r, ps, calls.
    split; [reflexivity|]. split; [exact Hlog|]. split; [exact Hnd|exact Hall].
  - vm_compute in E. discriminate E.
  - vm_compute in E. discriminate E.
Defined.

Lemma downloadMetaInRange_retry_witness :
  ∃ s', downloadMetaInRange Script.sFlaky 0 3 0 = Returned (s', None)
        ∧ Script.answers (l1Source s') = []
        ∧ blobMetas s' !! 2 = Some (Mem.indexMeta 2).
Proof.
  pose proof (downloadMetaInRange_retry Script.sFlaky 0 3 0 _ _ _ _
                ltac:(lia) ltac:(unfold MetaBatchSize; lia) ltac:(unfold MetaBatchSize; lia)
                eq_refl eq_refl) as H.
  cbv zeta beta iota in H. destruct (H eq_refl) as (s' & E & Hl & Hm).
  exists s'. split; [done|]. split; [by rewrite Hl|]. by rewrite Hm.
Defined.

Lemma downloadMetaInRange_answer_length_witness :
  ∃ s', downloadMetaInRange Script.sShort 0 3 0 = Returned (s', None)
        ∧ blobMetas s' !! 0 = Some (Mem.indexMeta 0)
        ∧ blobMetas s' !! 1 = None.
Proof.
  assert (Hanswer : Il1Source.GetKvMetas (l1Source Script.sShort) (seqZ 0 (3 - 0))
                      (localL1 Script.sShort)
                    = (Script.mkLedger [] (λ ks, inl (Mem.indexMeta <$> ks)) (inl 3),
                       inl [Mem.indexMeta 0])) by reflexivity.
  destruct (downloadMetaInRange_answer_length Script.sShort 0 3 0 _ [Mem.indexMeta 0]
              ltac:(lia) ltac:(unfold MetaBatchSize; lia) ltac:(unfold MetaBatchSize; lia)
              Hanswer) as [_ Hshort].
  destruct (Hshort ltac:(simpl; lia)) as (s' & E & Hm).
  exists s'. split; [done|]. by rewrite !Hm.
Defined.

Lemma downloadMetaInRange_static_witness :
  ∃ s', downloadMetaInRange Scenario.sFresh 2 9 0 = Returned (s', None)
        ∧ blobMetas s' !! 3 = Some (Scenario.contractMetaOf 3 Scenario.commitA)
        ∧ blobMetas s' !! 9 = None.
Proof.
  destruct (downloadMetaInRange_static (λ _, Mem.metaAt Scenario.ledger0) Scenario.sFresh
              2 9 0 (Mem_static _) ltac:(lia) ltac:(unfold MetaBatchSize; lia))
    as (s' & E & _ & _ & _ & _ & _ & Hm).
  exists s'. split; [done|]. by rewrite !Hm.
Defined.

Lemma downloadMetaInParallel_from_zero_witness :
  ∃ s', downloadMetaInParallel Scenario.sFresh 0 300000 = Returned (s', None)
        ∧ downloadMetaInRange Scenario.sFresh 0 300000 0 = Returned (s', None)
        ∧ blobMetas s' !! 299999 = Some (Mem.indexMeta 299999).
Proof.
  destruct (downloadMetaInParallel_from_zero (λ _, Mem.metaAt Scenario.ledger0)
              Scenario.sFresh 300000 (Mem_static _) ltac:(lia)
              ltac:(unfold MetaBatchSize; lia))
    as (s' & Ep & Er & Hm).
  exists s'. split; [exact Ep|]. split; [exact Er|]. rewrite Hm. reflexivity.
Defined.

Lemma downloadMetaInParallel_partial_witness :
  ∃ s', downloadMetaInParallel Script.sHole 0 256000
        = Returned (s', Some (errExternal "unavailable"))
        ∧ blobMetas s' !! 8000 = Some (Mem.indexMeta 8000).
Proof.
  destruct (downloadMetaInParallel_partial (λ _, Mem.indexMeta) 5 "unavailable"
              Script.sHole 256000)
    as (s' & E & Hm).
  - intros ks bn. reflexivity.
  - unfold MetaDownloadThread, MetaBatchSize. lia.
  - unfold MetaBatchSize. lia.
  - lia.
  - exists s'. split; [exact E|].
    assert (Hin : taskRange (256000 / MetaDownloadThread) 256000 1 8000).
    { unfold taskRange, MetaDownloadThread. change (256000 / 32) with 8000.
      rewrite bool_decide_eq_false_2 by lia. lia. }
    assert (Hbad : ¬ taskRange (256000 / MetaDownloadThread) 256000 1 5).
    { unfold taskRange, MetaDownloadThread. change (256000 / 32) with 8000.
      rewrite bool_decide_eq_false_2 by lia. lia. }
    assert (Hj : 0 ≤ 1 < MetaDownloadThread) by (unfold MetaDownloadThread; lia).
    exact (Hm 1 8000 Hj Hin Hbad).
Defined.

Lemma DownloadAllMetas_keeps_view_witness :
  ∃ s', DownloadAllMetas Scenario.sFresh = Returned (s', None)
        ∧ localL1 s' = 5 ∧ lastKvIdx s' = 3.
Proof.
  destruct (DownloadAllMetas Scenario.sFresh) as [[s' r]| |] eqn:E.
  - assert (Hr : r = None) by (vm_compute in E; by injection E as _ <-).
    subst r. exists s'. split; [done|].
    destruct (DownloadAllMetas_keeps_view _ _ _ E) as (Hl1 & Hlast & _).
    by rewrite Hl1, Hlast.
  - vm_compute in E. discriminate E.
  - vm_compute in E. discriminate E.
Defined.

Lemma DownloadAllMetas_covers_witness :
  ∃ s', DownloadAllMetas Scenario.sFresh = Returned (s', None)
        ∧ blobMetas s' !! 3 = Some (Scenario.contractMetaOf 3 Scenario.commitA)
        ∧ blobMetas s' !! 12 = Some (Mem.indexMeta 12)
        ∧ blobMetas s' !! 16 = None.
Proof.
  assert (Hhead : Il1Header.HeaderByNumber (l1Source Scenario.sFresh) FinalizedBlockNumber
                  = (l1Source Scenario.sFresh, inl (Some 64))) by reflexivity.
  assert (Hlast : Il1Source.GetStorageLastBlobIdx (l1Source Scenario.sFresh) (wrap_int 64)
                  = (l1Source Scenario.sFresh, inl 9)) by reflexivity.
  assert (Hkv : 0 < KvEntries Scenario.sFresh) by (unfold KvEntries; simpl; lia).
  destruct (DownloadAllMetas_covers (λ _, Mem.metaAt Scenario.ledger0) Scenario.sFresh 64 9
              Hhead Hlast (Mem_static _) ltac:(lia) Hkv)
    as (s' & E & Hin & Hout).
  - intros sid ->%list_elem_of_singleton. unfold KvEntries. simpl.
    unfold MetaDownloadThread, MetaBatchSize. lia.
  - exists s'. split; [done|]. split; [|split].
    + rewrite (Hin 0 3); [reflexivity|by left|unfold KvEntries; simpl; lia].
    + rewrite (Hin 0 12); [reflexivity|by left|unfold KvEntries; simpl; lia].
    + rewrite Hout; [reflexivity|].
      intros sid ->%list_elem_of_singleton. unfold KvEntries. simpl. lia.
Defined.

(** * DownloadFinished under every schedule *)

Lemma writtenBy_app (k : nat) (ws ws' : list (nat * Z)) :
  writtenBy k (ws ++ ws') = writtenBy k ws ++ writtenBy k ws'.
Proof. unfold writtenBy. by rewrite filter_app, fmap_app. Qed.

Lemma writtenBy_snoc (k k' : nat) (ws : list (nat * Z)) (i : Z) :
  writtenBy k (ws ++ [(k', i)]) = if decide (k' = k) then writtenBy k ws ++ [i] else writtenBy k ws.
Proof.
  rewrite writtenBy_app. unfold writtenBy at 2.
  rewrite filter_cons, filter_nil. simpl.
  destruct (decide (k' = k)); [done|by rewrite app_nil_r].
Qed.

Lemma elem_of_writtenBy (k : nat) (ws : list (nat * Z)) (i : Z) :
  i ∈ writtenBy k ws ↔ (k, i) ∈ ws.
Proof.
  unfold writtenBy. rewrite list_elem_of_fmap. split.
  - intros ([k' i'] & -> & [Hk Hin]%list_elem_of_filter). simpl in Hk. by subst k'.
  - intros Hin. exists (k, i). split; [done|]. by apply list_elem_of_filter.
Qed.

Lemma firstError_None {E} (l : list (option E)) :
  firstError l = None ↔ ∀ e, e ∈ l → e = None.
Proof.
  induction l as [|[e|] l IH]; simpl.
  - split; [by intros _ e ?%elem_of_nil|done].
  - split; [done|]. intros H. by specialize (H (Some e) ltac:(by left)).
  - rewrite IH. split.
    + intros H e [->|Hin]%elem_of_cons; [done|by apply H].
    + intros H e Hin. apply H. by right.
Qed.

Lemma index_is_Some {A} (l : list A) (i : Z) :
  0 ≤ i < Z.of_nat (length l) → is_Some (index l i).
Proof.
  intros Hi. unfold index. rewrite (proj2 (Z.ltb_ge _ _)) by lia.
  apply lookup_lt_is_Some. lia.
Qed.

(** Writes that are distinct task by task are distinct altogether, when
    the position tells the task. *)
Lemma NoDup_by_task (f : Z → nat) (ws : list (nat * Z)) :
  (∀ k i, (k, i) ∈ ws → f i = k) →
  (∀ k, NoDup (writtenBy k ws)) →
  NoDup ws.*2.
Proof.
  induction ws as [|[k i] ws IH]; intros Hf Hnd; [constructor|].
  rewrite fmap_cons. simpl. constructor.
  - intros ([k' i'] & Heq & Hin)%list_elem_of_fmap. simpl in Heq. subst i'.
    assert (k' = k).
    { rewrite <- (Hf k' i) by (by right). apply Hf. by left. }
    subst k'. specialize (Hnd k). unfold writtenBy in Hnd.
    rewrite filter_cons in Hnd. simpl in Hnd. rewrite decide_True in Hnd by done.
    rewrite fmap_cons in Hnd. simpl in Hnd. apply NoDup_cons in Hnd as [Hnotin _].
    apply Hnotin. by apply (elem_of_writtenBy k ws i).
  - apply IH.
    + intros k' i' Hin. apply Hf. by right.
    + intros k'. specialize (Hnd k'). unfold writtenBy in *.
      rewrite filter_cons in Hnd. simpl in Hnd.
      destruct (decide (k = k')); [|done].
      rewrite fmap_cons in Hnd. by apply NoDup_cons in Hnd as [_ ?].
Qed.

Lemma forallb_isFinished (ws : list worker) :
  forallb isFinished ws = true ↔ ∀ (k : nat) w, ws !! k = Some w → ∃ e, w = Finished e.
Proof.
  rewrite forallb_forall. split.
  - intros H k w Hk. specialize (H w).
    destruct w as [todo|e|e]; [| |by exists e].
    + by specialize (H (proj1 (list_elem_of_In _ _) (list_elem_of_lookup_2 _ _ _ Hk))).
    + by specialize (H (proj1 (list_elem_of_In _ _) (list_elem_of_lookup_2 _ _ _ Hk))).
  - intros H w Hin%list_elem_of_In. apply list_elem_of_lookup in Hin as [k Hk].
    by destruct (H k w Hk) as [e ->].
Qed.

Section ScheduleTheory.
Context {SM L : Type} `{!ShardManager.Ops SM} `{!Il1Source.Ops L}.
Implicit Types s : StorageManager SM L.
Implicit Types p : pool.

Lemma poolInv_start (tasks : list (list Z)) (kvIndices : list Z) (blobs : list bytes)
    (commits : list Hash) s :
  poolInv tasks kvIndices blobs commits s s (mkPool (Writing <$> tasks) [] []).
Proof.
  unfold poolInv. cbn [workers chanRes written].
  split; [by rewrite length_fmap|]. split.
  { intros k t w Ht. rewrite list_lookup_fmap, Ht. by intros [= <-]. }
  split; [by intros k i ?%elem_of_nil|]. split.
  { intros k e. rewrite list_lookup_fmap. by destruct (tasks !! k). }
  split; [apply onlyStoreChanged_refl|].
  exists []. rewrite app_nil_r. split; [done|constructor].
Qed.

(** A step keeps what holds of the goroutines. *)
Lemma workerStep_inv (tasks : list (list Z)) (kvIndices : list Z) (blobs : list bytes)
    (commits : list Hash) s0 s p (k : nat) s' p' :
  poolInv tasks kvIndices blobs commits s0 s p →
  workerStep s p k kvIndices blobs commits = Returned (s', p') →
  poolInv tasks kvIndices blobs commits s0 s' p'.
Proof.
  intros (Hlen & Hat & Hwho & Hsent & Hfr & calls & Hlog & Hcalls).
  unfold workerStep.
  destruct (workers p !! k) as [[[|idx rest]|e|e]|] eqn:Hk.
  - (* the send of nil *)
    intros [= <- <-]. unfold poolInv. cbn [workers chanRes written].
    assert (Hlt : (k < length (workers p))%nat) by (by apply lookup_lt_Some in Hk).
    split; [by rewrite length_insert|]. split.
    { intros k' t w Ht. destruct (decide (k' = k)) as [->|Hne].
      - rewrite list_lookup_insert_eq by done. intros [= <-].
        specialize (Hat k t _ Ht Hk). simpl in *. by rewrite app_nil_r in Hat.
      - rewrite list_lookup_insert_ne by done. by apply Hat. }
    split; [done|]. split.
    { intros k' e. destruct (decide (k' = k)) as [->|Hne].
      - rewrite list_lookup_insert_eq by done. intros [= <-].
        apply elem_of_app. right. by left.
      - rewrite list_lookup_insert_ne by done. intros Hk'.
        apply elem_of_app. left. by apply (Hsent k'). }
    split; [done|]. by exists calls.
  - (* a write *)
    destruct (index commits idx) as [commit|] eqn:Hc; [|done].
    destruct (index kvIndices idx) as [kvIdx|] eqn:Hi; [|done].
    destruct (index blobs idx) as [blob|] eqn:Hb; [|done].
    unfold shardTryWrite.
    destruct (ShardManager.TryWrite _ _ _ _) as [[sm ok] err].
    intros [= <- <-]. unfold poolInv. cbn [workers chanRes written].
    assert (Hlt : (k < length (workers p))%nat) by (by apply lookup_lt_Some in Hk).
    split; [by rewrite length_insert|]. split.
    { intros k' t w Ht. rewrite writtenBy_snoc.
      destruct (decide (k = k')) as [<-|Hne].
      - rewrite list_lookup_insert_eq by done. intros [= <-].
        specialize (Hat k t _ Ht Hk). simpl in Hat.
        destruct err as [e|]; simpl.
        + split; [exists rest; by rewrite <- app_assoc|]. by destruct (writtenBy k (written p)).
        + by rewrite <- app_assoc.
      - rewrite list_lookup_insert_ne by done. by apply Hat. }
    split.
    { intros k' i [Hin|[= -> ->]%list_elem_of_singleton]%elem_of_app; [by apply (Hwho k' i)|].
      by rewrite <- Hlen. }
    split.
    { intros k' e. destruct (decide (k' = k)) as [->|Hne].
      - rewrite list_lookup_insert_eq by done. by destruct err.
      - rewrite list_lookup_insert_ne by done. by apply Hsent. }
    split.
    { destruct Hfr as (? & ? & ? & ? & ?). by repeat split. }
    exists (calls ++ [CallTryWrite kvIdx blob (prepareCommit commit)]).
    split; [simpl; by rewrite Hlog, <- app_assoc|].
    rewrite fmap_app. apply Forall2_app; [done|].
    constructor; [|constructor]. by exists kvIdx, blob, commit.
  - (* the send of an error *)
    intros [= <- <-]. unfold poolInv. cbn [workers chanRes written].
    assert (Hlt : (k < length (workers p))%nat) by (by apply lookup_lt_Some in Hk).
    split; [by rewrite length_insert|]. split.
    { intros k' t w Ht. destruct (decide (k' = k)) as [->|Hne].
      - rewrite list_lookup_insert_eq by done. intros [= <-].
        by specialize (Hat k t _ Ht Hk).
      - rewrite list_lookup_insert_ne by done. by apply Hat. }
    split; [done|]. split.
    { intros k' e'. destruct (decide (k' = k)) as [->|Hne].
      - rewrite list_lookup_insert_eq by done. intros [= <-].
        apply elem_of_app. right. by left.
      - rewrite list_lookup_insert_ne by done. intros Hk'.
        apply elem_of_app. left. by apply (Hsent k'). }
    split; [done|]. by exists calls.
  - intros [= <- <-]. unfold poolInv. do 5 (split; [done|]). by exists calls.
  - intros [= <- <-]. unfold poolInv. do 5 (split; [done|]). by exists calls.
Qed.

Lemma runSchedule_inv (tasks : list (list Z)) (kvIndices : list Z) (blobs : list bytes)
    (commits : list Hash) s0 (sched : list nat) :
  ∀ s p s' p',
    poolInv tasks kvIndices blobs commits s0 s p →
    runSchedule s p sched kvIndices blobs commits = Returned (s', p') →
    poolInv tasks kvIndices blobs commits s0 s' p'.
Proof.
  induction sched as [|k sched IH]; intros s p s' p' Hinv.
  - simpl. by intros [= <- <-].
  - simpl.
    destruct (workerStep s p k kvIndices blobs commits) as [[s1 p1]| |] eqn:Hstep;
      cbn [mbind outcome_bind]; [|done|done].
    apply IH. by apply (workerStep_inv tasks _ _ _ s0 s p k).
Qed.

(** When every task has ended: each has written a beginning of its
    positions, its first position at least, and all of them when no error
    was sent. *)
Lemma pool_end (tasks : list (list Z)) (kvIndices : list Z) (blobs : list bytes)
    (commits : list Hash) s0 s p :
  poolInv tasks kvIndices blobs commits s0 s p →
  forallb isFinished (workers p) = true →
  (∀ t, t ∈ tasks → t ≠ []) →
  (∀ (k : nat) t, tasks !! k = Some t →
     writtenBy k (written p) `prefix_of` t ∧ writtenBy k (written p) ≠ [])
  ∧ (firstError (chanRes p) = None →
     ∀ (k : nat) t, tasks !! k = Some t → writtenBy k (written p) = t).
Proof.
  intros (Hlen & Hat & _ & Hsent & _) Hfin Hne.
  assert (Hw : ∀ (k : nat) t, tasks !! k = Some t →
            ∃ e, workers p !! k = Some (Finished e)
                 ∧ workerAt (Finished e) t (writtenBy k (written p))).
  { intros k t Ht.
    destruct (lookup_lt_is_Some_2 (workers p) k) as [w Hk].
    { rewrite Hlen. by apply lookup_lt_Some in Ht. }
    destruct (proj1 (forallb_isFinished _) Hfin k w Hk) as [e ->].
    exists e. split; [done|]. by apply (Hat k t _ Ht Hk). }
  split.
  - intros k t Ht. destruct (Hw k t Ht) as ([e|] & _ & Hd); simpl in Hd; [done|].
    rewrite Hd. split; [done|]. apply Hne. by apply (list_elem_of_lookup_2 _ k).
  - intros Hnone k t Ht. destruct (Hw k t Ht) as (e & Hk & Hd).
    rewrite (proj1 (firstError_None _) Hnone e (Hsent k e Hk)) in Hd. exact Hd.
Qed.

(** A schedule with enough turns for every task brings every task to its
    end: the positions of the tasks are positions of the inputs, so no
    step panics. *)
Lemma runSchedule_total (tasks : list (list Z)) (kvIndices : list Z) (blobs : list bytes)
    (commits : list Hash) s0 (sched : list nat) :
  length kvIndices = length blobs → length blobs = length commits →
  (∀ t i, t ∈ tasks → i ∈ t → 0 ≤ i < Z.of_nat (length kvIndices)) →
  ∀ s p,
    poolInv tasks kvIndices blobs commits s0 s p →
    (∀ (k : nat) w, workers p !! k = Some w → (stepsLeft w ≤ count_occ Nat.eq_dec sched k)%nat) →
    ∃ s' p', runSchedule s p sched kvIndices blobs commits = Returned (s', p')
             ∧ forallb isFinished (workers p') = true.
Proof.
  intros Hl1 Hl2 Hvalid.
  induction sched as [|k sched IH]; intros s p Hinv Hturns.
  - exists s, p. split; [done|]. apply forallb_isFinished. intros k w Hk.
    specialize (Hturns k w Hk). simpl in Hturns.
    destruct w as [todo|e|e]; simpl in Hturns; [lia|lia|by exists e].
  - simpl.
    assert (Hstep : ∃ s1 p1,
              workerStep s p k kvIndices blobs commits = Returned (s1, p1)
              ∧ ∀ (k' : nat) w1, workers p1 !! k' = Some w1 →
                  (stepsLeft w1 ≤ count_occ Nat.eq_dec sched k')%nat).
    { pose proof Hinv as (Hlen & Hat & _).
      unfold workerStep.
      destruct (workers p !! k) as [[[|idx rest]|e|e]|] eqn:Hk.
      - eexists _, _. split; [done|]. cbn [workers].
        assert (Hlt : (k < length (workers p))%nat) by (by apply lookup_lt_Some in Hk).
        intros k' w1. destruct (decide (k' = k)) as [->|Hne].
        + rewrite list_lookup_insert_eq by done. intros [= <-]. simpl. lia.
        + rewrite list_lookup_insert_ne by done. intros Hk'.
          specialize (Hturns k' w1 Hk'). rewrite count_occ_cons_neq in Hturns by done. done.
      - assert (Hlt : (k < length (workers p))%nat) by (by apply lookup_lt_Some in Hk).
        destruct (lookup_lt_is_Some_2 tasks k) as [t Ht]; [by rewrite <- Hlen|].
        specialize (Hat k t _ Ht Hk). simpl in Hat.
        assert (Hidx : 0 ≤ idx < Z.of_nat (length kvIndices)).
        { apply (Hvalid t idx); [by apply (list_elem_of_lookup_2 _ k)|].
          rewrite Hat. apply elem_of_app. right. by left. }
        destruct (index_is_Some commits idx) as [commit ->]; [by rewrite <- Hl2, <- Hl1|].
        destruct (index_is_Some kvIndices idx) as [kvIdx ->]; [done|].
        destruct (index_is_Some blobs idx) as [blob ->]; [by rewrite <- Hl1|].
        destruct (shardTryWrite s kvIdx blob (prepareCommit commit)) as [[s1 ok] err].
        eexists _, _. split; [done|]. cbn [workers].
        intros k' w1. destruct (decide (k' = k)) as [->|Hne].
        + rewrite list_lookup_insert_eq by done. intros [= <-].
          specialize (Hturns k _ Hk). rewrite count_occ_cons_eq in Hturns by done.
          simpl in Hturns. destruct err; simpl; lia.
        + rewrite list_lookup_insert_ne by done. intros Hk'.
          specialize (Hturns k' w1 Hk'). rewrite count_occ_cons_neq in Hturns by done. done.
      - eexists _, _. split; [done|]. cbn [workers].
        assert (Hlt : (k < length (workers p))%nat) by (by apply lookup_lt_Some in Hk).
        intros k' w1. destruct (decide (k' = k)) as [->|Hne].
        + rewrite list_lookup_insert_eq by done. intros [= <-]. simpl. lia.
        + rewrite list_lookup_insert_ne by done. intros Hk'.
          specialize (Hturns k' w1 Hk'). rewrite count_occ_cons_neq in Hturns by done. done.
      - exists s, p. split; [done|]. intros k' w1 Hk'.
        specialize (Hturns k' w1 Hk').
        destruct (decide (k' = k)) as [->|Hne].
        + rewrite Hk in Hk'. injection Hk' as <-. simpl. lia.
        + rewrite count_occ_cons_neq in Hturns by done. done.
      - exists s, p. split; [done|]. intros k' w1 Hk'.
        specialize (Hturns k' w1 Hk').
        destruct (decide (k' = k)) as [->|Hne]; [by rewrite Hk in Hk'|].
        rewrite count_occ_cons_neq in Hturns by done. done. }
    destruct Hstep as (s1 & p1 & Hstep & Hturns1). rewrite Hstep.
    cbn [mbind outcome_bind]. apply IH; [|done].
    by apply (workerStep_inv tasks _ _ _ s0 s p k).
Qed.

(** With a store on which no write fails, no task sends an error. *)
Lemma runSchedule_no_error (ok : SM → Prop) (kvIndices : list Z) (blobs : list bytes)
    (commits : list Hash) (sched : list nat) :
  (∀ sm k b c, ok sm →
     ok (ShardManager.TryWrite sm k b c).1.1 ∧ (ShardManager.TryWrite sm k b c).2 = None) →
  ∀ s p s' p',
    ok (shardManager s) →
    (∀ (k : nat) e, workers p !! k ≠ Some (Failed e)) →
    firstError (chanRes p) = None →
    runSchedule s p sched kvIndices blobs commits = Returned (s', p') →
    firstError (chanRes p') = None.
Proof.
  intros Hok.
  induction sched as [|k sched IH]; intros s p s' p' Hs Hw Hc.
  - simpl. by intros [= _ <-].
  - simpl.
    destruct (workerStep s p k kvIndices blobs commits) as [[s1 p1]| |] eqn:Hstep;
      cbn [mbind outcome_bind]; [|done|done].
    assert (Happ : firstError (chanRes p ++ [None]) = None).
    { apply firstError_None. intros e [Hin|Heq%list_elem_of_singleton]%elem_of_app; [|done].
      by apply (proj1 (firstError_None _) Hc). }
    unfold workerStep in Hstep.
    destruct (workers p !! k) as [[[|idx rest]|e|e]|] eqn:Hk.
    + injection Hstep as <- <-. apply IH; [done| |done]. cbn [workers].
      intros k' e'. destruct (decide (k' = k)) as [->|Hne].
      * rewrite list_lookup_insert_eq by (by apply lookup_lt_Some in Hk). done.
      * rewrite list_lookup_insert_ne by done. apply Hw.
    + destruct (index commits idx) as [commit|]; [|done].
      destruct (index kvIndices idx) as [kvIdx|]; [|done].
      destruct (index blobs idx) as [blob|]; [|done].
      unfold shardTryWrite in Hstep.
      destruct (Hok (shardManager s) kvIdx blob (prepareCommit commit) Hs) as [Hok' Herr].
      destruct (ShardManager.TryWrite _ _ _ _) as [[sm okw] err]. simpl in Hok', Herr.
      subst err. injection Hstep as <- <-. apply IH; [done| |done]. cbn [workers].
      intros k' e'. destruct (decide (k' = k)) as [->|Hne].
      * rewrite list_lookup_insert_eq by (by apply lookup_lt_Some in Hk). done.
      * rewrite list_lookup_insert_ne by done. apply Hw.
    + by destruct (Hw k e).
    + injection Hstep as <- <-. by apply IH.
    + injection Hstep as <- <-. by apply IH.
Qed.

(** ** The schedule that runs task after task *)

Lemma runSchedule_app (kvIndices : list Z) (blobs : list bytes) (commits : list Hash)
    (sched1 sched2 : list nat) :
  ∀ s p,
    runSchedule s p (sched1 ++ sched2) kvIndices blobs commits
    = '(s1, p1) ← runSchedule s p sched1 kvIndices blobs commits;
      runSchedule s1 p1 sched2 kvIndices blobs commits.
Proof.
  induction sched1 as [|k sched1 IH]; intros s p; [done|].
  simpl. destruct (workerStep s p k kvIndices blobs commits) as [[s1 p1]| |];
    cbn [mbind outcome_bind]; [apply IH|done|done].
Qed.

Lemma runSchedule_idle (kvIndices : list Z) (blobs : list bytes) (commits : list Hash)
    (sched : list nat) s p :
  (∀ k, k ∈ sched → ∀ w, workers p !! k = Some w → isFinished w = true) →
  runSchedule s p sched kvIndices blobs commits = Returned (s, p).
Proof.
  induction sched as [|k sched IH]; intros Hfin; [done|].
  simpl. unfold workerStep.
  pose proof (Hfin k ltac:(by left)) as Hk.
  destruct (workers p !! k) as [[todo|e|e]|].
  - by specialize (Hk _ eq_refl).
  - by specialize (Hk _ eq_refl).
  - cbn [mbind outcome_bind]. apply IH. intros k' Hin. apply Hfin. by right.
  - cbn [mbind outcome_bind]. apply IH. intros k' Hin. apply Hfin. by right.
Qed.

(** Enough turns in a row run a task as [writeTask] does. *)
Lemma runSchedule_one_task (kvIndices : list Z) (blobs : list bytes) (commits : list Hash)
    (k : nat) (t : list Z) :
  ∀ s p (m : nat),
    workers p !! k = Some (Writing t) → (length t ≤ m)%nat →
    match writeTask s t kvIndices blobs commits with
    | Returned (s', r) =>
        ∃ wr, runSchedule s p (replicate (S m) k) kvIndices blobs commits
              = Returned (s', mkPool (<[k := Finished r]> (workers p)) (chanRes p ++ [r]) wr)
    | Panicked => runSchedule s p (replicate (S m) k) kvIndices blobs commits = Panicked
    | OutOfFuel => False
    end.
Proof.
  induction t as [|idx rest IH]; intros s p m Hk Hm.
  - simpl. exists (written p). unfold workerStep. rewrite Hk. cbn [mbind outcome_bind].
    apply runSchedule_idle. intros k' ->%elem_of_replicate_inv w. cbn [workers].
    rewrite list_lookup_insert_eq by (by apply lookup_lt_Some in Hk). by intros [= <-].
  - destruct m as [|m]; [simpl in Hm; lia|].
    assert (Hlt : (k < length (workers p))%nat) by (by apply lookup_lt_Some in Hk).
    cbn [writeTask]. rewrite (replicate_S (S m)). cbn [runSchedule].
    unfold workerStep. rewrite Hk.
    destruct (index commits idx) as [commit|]; [|reflexivity].
    destruct (index kvIndices idx) as [kvIdx|]; [|reflexivity].
    destruct (index blobs idx) as [blob|]; [|reflexivity].
    cbv zeta.
    destruct (shardTryWrite s kvIdx blob (prepareCommit commit)) as [[s1 ok] [e|]].
    + cbn [mbind outcome_bind]. eexists. rewrite (replicate_S m). cbn [runSchedule].
      unfold workerStep. cbn [workers chanRes written].
      rewrite list_lookup_insert_eq by done. cbn [mbind outcome_bind].
      rewrite list_insert_insert_eq.
      apply runSchedule_idle. intros k' ->%elem_of_replicate_inv w. cbn [workers].
      rewrite list_lookup_insert_eq by done. by intros [= <-].
    + cbn [mbind outcome_bind].
      set (p1 := mkPool (<[k:=Writing rest]> (workers p)) (chanRes p) (written p ++ [(k, idx)])).
      specialize (IH s1 p1 m).
      assert (Hk1 : workers p1 !! k = Some (Writing rest))
        by (by apply list_lookup_insert_eq).
      specialize (IH Hk1 ltac:(simpl in Hm; lia)).
      destruct (writeTask s1 rest kvIndices blobs commits) as [[s' r]| |]; [|done|done].
      destruct IH as [wr IH]. exists wr. rewrite IH. unfold p1. cbn [workers chanRes].
      by rewrite list_insert_insert_eq.
Qed.

Lemma runSchedule_sequential (kvIndices : list Z) (blobs : list bytes) (commits : list Hash)
    (m : nat) (ts : list (list Z)) :
  ∀ (sent : list (option string)) s wr (n : nat),
    (length ts ≤ n)%nat → Forall (λ t, (length t ≤ m)%nat) ts →
    match runTasks s ts kvIndices blobs commits with
    | Returned (s', rs) =>
        ∃ wr', runSchedule s (mkPool ((Finished <$> sent) ++ (Writing <$> ts)) sent wr)
                 (k ← seq (length sent) n; replicate (S m) k) kvIndices blobs commits
               = Returned (s', mkPool (Finished <$> (sent ++ rs)) (sent ++ rs) wr')
    | Panicked =>
        runSchedule s (mkPool ((Finished <$> sent) ++ (Writing <$> ts)) sent wr)
          (k ← seq (length sent) n; replicate (S m) k) kvIndices blobs commits = Panicked
    | OutOfFuel => False
    end.
Proof.
  induction ts as [|t ts IH]; intros sent s wr n Hn Hm.
  - simpl. exists wr. rewrite !app_nil_r. apply runSchedule_idle.
    intros k _ w. cbn [workers]. rewrite list_lookup_fmap.
    destruct (sent !! k); [|done]. by intros [= <-].
  - destruct n as [|n]; [simpl in Hn; lia|].
    apply Forall_cons in Hm as [Hmt Hm].
    cbn [runTasks seq]. rewrite bind_cons, runSchedule_app.
    set (p := mkPool ((Finished <$> sent) ++ (Writing <$> t :: ts)) sent wr).
    assert (Hk : workers p !! length sent = Some (Writing t)).
    { unfold p. cbn [workers]. rewrite lookup_app_r by (by rewrite length_fmap).
      rewrite length_fmap, Nat.sub_diag. done. }
    pose proof (runSchedule_one_task kvIndices blobs commits (length sent) t s p m Hk Hmt)
      as Hone.
    destruct (writeTask s t kvIndices blobs commits) as [[s1 r]| |];
      cbn [mbind outcome_bind]; [|by rewrite Hone|done].
    destruct Hone as [wr1 ->]. cbn [mbind outcome_bind].
    assert (Hws : <[length sent := Finished r]> (workers p)
                  = (Finished <$> (sent ++ [r])) ++ (Writing <$> ts)).
    { unfold p. cbn [workers].
      rewrite insert_app_r_alt by (by rewrite length_fmap).
      rewrite length_fmap, Nat.sub_diag. rewrite fmap_app, <- app_assoc. done. }
    rewrite Hws. unfold p. cbn [chanRes].
    specialize (IH (sent ++ [r]) s1 wr1 n ltac:(simpl in Hn; lia) Hm).
    rewrite length_app in IH. cbn [length] in IH. rewrite Nat.add_1_r in IH.
    destruct (runTasks s1 ts kvIndices blobs commits) as [[s2 rs]| |];
      cbn [mbind outcome_bind]; [|done|done].
    destruct IH as [wr' IH]. exists wr'. rewrite IH. by rewrite <- app_assoc.
Qed.

Lemma insertIdxInTask_length (fuel : nat) :
  ∀ (i len taskNum : Z) t,
    insertIdxInTask fuel i len taskNum = Returned t → (length t ≤ fuel)%nat.
Proof.
  induction fuel as [|fuel IH]; intros i len taskNum t; simpl.
  - destruct (i <? len); [done|]. intros [= <-]. simpl. lia.
  - destruct (i <? len); [|intros [= <-]; simpl; lia].
    destruct (insertIdxInTask fuel _ len taskNum) as [rest| |] eqn:Hrest;
      cbn [mbind outcome_bind]; [|done|done].
    intros [= <-]. apply IH in Hrest. simpl. lia.
Qed.

Lemma taskLoop_bounds (fuel : nat) :
  ∀ (taskIdx taskNum len : Z) ts,
    taskLoop fuel taskIdx taskNum len = Returned ts →
    (length ts ≤ fuel)%nat ∧ Forall (λ t, (length t ≤ Z.to_nat len)%nat) ts.
Proof.
  induction fuel as [|fuel IH]; intros taskIdx taskNum len ts; simpl.
  - destruct ((taskIdx <? taskNum) && negb (taskIdx >=? len)); [done|].
    intros [= <-]. split; [simpl; lia|constructor].
  - destruct (taskIdx <? taskNum); [|intros [= <-]; split; [simpl; lia|constructor]].
    destruct (taskIdx >=? len); [intros [= <-]; split; [simpl; lia|constructor]|].
    destruct (insertIdxInTask _ taskIdx len taskNum) as [t| |] eqn:Ht;
      cbn [mbind outcome_bind]; [|done|done].
    destruct (taskLoop fuel _ taskNum len) as [rest| |] eqn:Hrest;
      cbn [mbind outcome_bind]; [|done|done].
    intros [= <-]. apply IH in Hrest as [Hlen Hall]. apply insertIdxInTask_length in Ht.
    split; [simpl; lia|by constructor].
Qed.

(** [DownloadFinished], which runs its tasks one after the other, is
    [DownloadFinishedUnder] the schedule that does so. *)
Lemma DownloadFinished_sequential (chanCap : Z) s (newL1 : Z) (kvIndices : list Z)
    (blobs : list bytes) (commits : list Hash) :
  DownloadThreadNum s ≤ chanCap →
  (x ← DownloadFinishedUnder chanCap (sequentially (length kvIndices)) s newL1
         kvIndices blobs commits;
   Returned x.1)
  = DownloadFinished s newL1 kvIndices blobs commits.
Proof.
  intros Hcap. unfold DownloadFinishedUnder, DownloadFinished.
  destruct (bool_decide _ || bool_decide _); [done|].
  destruct (newL1 <=? localL1 s); [done|].
  destruct (Il1Source.GetStorageLastBlobIdx (l1Source s) newL1) as [l [v|e]]; [|done].
  cbn [DownloadThreadNum with_lastKvIdx with_l1Source].
  rewrite (proj2 (Z.ltb_ge chanCap _)) by lia. rewrite orb_false_r.
  destruct (DownloadThreadNum s <? 0); [done|].
  destruct (taskLoop _ 0 (DownloadThreadNum s) _) as [tasks| |] eqn:Htasks;
    cbn [mbind outcome_bind]; [|done|done].
  apply taskLoop_bounds in Htasks as [Hn Hm].
  rewrite !Nat2Z.id in *.
  pose proof (runSchedule_sequential kvIndices blobs commits (length kvIndices) tasks []
                (with_lastKvIdx (with_l1Source s l) v) [] (length kvIndices) Hn Hm) as Hseq.
  unfold sequentially. cbn [fmap list_fmap app length] in Hseq.
  destruct (runTasks _ tasks kvIndices blobs commits) as [[s2 results]| |];
    cbn [mbind outcome_bind]; [|by rewrite Hseq|done].
  destruct Hseq as [wr ->]. cbn [mbind outcome_bind workers chanRes written].
  assert (Hfin : forallb isFinished (Finished <$> results) = true).
  { apply forallb_isFinished. intros k w. rewrite list_lookup_fmap.
    destruct (results !! k) as [r|]; [|done]. intros [= <-]. by exists r. }
  rewrite Hfin. destruct (firstError results); [done|].
  by destruct (updateLocalMetas _ _).
Qed.

(** ** The tasks and the writes of a call *)

(** The tasks [DownloadFinished] starts for [M] triples and [N] threads. *)
Lemma tasks_lookup (N M : Z) (k : nat) (t : list Z) :
  ((λ k, positionsOf k N M) <$> seqZ 0 (Z.min N M)) !! k = Some t
  ↔ t = positionsOf (Z.of_nat k) N M ∧ Z.of_nat k < Z.min N M.
Proof.
  rewrite list_lookup_fmap. split.
  - intros [k' [[-> Hk]%lookup_seqZ ->]]%fmap_Some. split; [f_equal; lia|lia].
  - intros [-> Hk]. rewrite lookup_seqZ_lt by lia. simpl. do 2 f_equal; lia.
Qed.

(** Once the lengths, the block and the answer of the L1 source let it
    through, a call is the run of its tasks followed by the reading of
    their results. *)
Lemma DownloadFinishedUnder_run (chanCap : Z) (sched : list nat) s (newL1 : Z)
    (kvIndices : list Z) (blobs : list bytes) (commits : list Hash) l v
    (tasks : list (list Z)) :
  length kvIndices = length blobs → length blobs = length commits →
  localL1 s < newL1 →
  Il1Source.GetStorageLastBlobIdx (l1Source s) newL1 = (l, inl v) →
  0 ≤ DownloadThreadNum s ≤ chanCap →
  taskLoop (Z.to_nat (Z.of_nat (length kvIndices))) 0 (DownloadThreadNum s)
    (Z.of_nat (length kvIndices)) = Returned tasks →
  DownloadFinishedUnder chanCap sched s newL1 kvIndices blobs commits
  = '(s2, p) ← runSchedule (with_lastKvIdx (with_l1Source s l) v)
                 (mkPool (Writing <$> tasks) [] []) sched kvIndices blobs commits;
    if forallb isFinished (workers p) then
      match firstError (chanRes p) with
      | Some e => Returned (s2, Some (errExternal e), written p)
      | None =>
          s3 ← updateLocalMetas (with_localL1 s2 newL1) (zip kvIndices commits);
          Returned (s3, None, written p)
      end
    else OutOfFuel.
Proof.
  intros Hl1 Hl2 Hnew Hlast HN Htasks. unfold DownloadFinishedUnder.
  rewrite !bool_decide_eq_false_2 by (intros Hne; by apply Hne). cbn [orb].
  rewrite (proj2 (Z.leb_gt _ _)) by lia. rewrite Hlast.
  cbn [DownloadThreadNum with_lastKvIdx with_l1Source].
  rewrite !(proj2 (Z.ltb_ge _ _)) by lia. cbn [orb]. rewrite Htasks. done.
Qed.

(** C9. A call of [DownloadFinished] with [M] triples and
    [N = DownloadThreadNum >= 1] threads (with [M + N] within the range of
    [int], and [N] results within what a channel can hold) that passes the
    checks of the lengths and of the block, and gets the last index from
    the L1 source. It starts [min N M] tasks, and task
    [k] is given the positions [k, k+N, k+2N, ...] below [M]: the position
    [i] belongs to task [i mod N] and to no other. Whatever the order in
    which the tasks make their steps:
    - with enough turns for every task, the call returns (when the metas of
      the batch can be built);
    - when it returns, every write made is the write, by task [k], of one of
      the positions of task [k]; every task has written a beginning of its
      positions, in their order, its first position at least; no position
      is written twice;
    - when it returns nil, every task has written all its positions: each
      position [0 .. M-1] is written once, by its task;
    - it returns nil when no write fails.
    [DownloadFinished] is this call with task run after task. *)
Theorem DownloadFinished_partition (chanCap : Z) s (newL1 : Z) (kvIndices : list Z)
    (blobs : list bytes) (commits : list Hash) (N M : Z) l v :
  DownloadThreadNum s = N → Z.of_nat (length kvIndices) = M →
  1 ≤ N ≤ chanCap → M + N ≤ 2 ^ 63 →
  length kvIndices = length blobs → length blobs = length commits →
  localL1 s < newL1 →
  Il1Source.GetStorageLastBlobIdx (l1Source s) newL1 = (l, inl v) →
  taskLoop (Z.to_nat M) 0 N M = Returned ((λ k, positionsOf k N M) <$> seqZ 0 (Z.min N M))
  ∧ (∀ k, 0 ≤ k < Z.min N M →
       NoDup (positionsOf k N M)
       ∧ ∀ i, i ∈ positionsOf k N M ↔ 0 ≤ i < M ∧ i mod N = k)
  ∧ (∀ i, 0 ≤ i < M → 0 ≤ i mod N < Z.min N M)
  ∧ (∀ sched : list nat,
       ((∀ k : nat, Z.of_nat k < Z.min N M →
           (length (positionsOf (Z.of_nat k) N M) < count_occ Nat.eq_dec sched k)%nat) →
        (∀ idx c, (idx, c) ∈ zip kvIndices commits → is_Some (localMetaOf idx c)) →
        ∃ s' r ws,
          DownloadFinishedUnder chanCap sched s newL1 kvIndices blobs commits
          = Returned (s', r, ws))
       ∧ ∀ s' r ws,
           DownloadFinishedUnder chanCap sched s newL1 kvIndices blobs commits
           = Returned (s', r, ws) →
           (∀ (k : nat) i, (k, i) ∈ ws →
              Z.of_nat k < Z.min N M ∧ i ∈ positionsOf (Z.of_nat k) N M)
           ∧ (∀ k : nat, Z.of_nat k < Z.min N M →
                writtenBy k ws `prefix_of` positionsOf (Z.of_nat k) N M
                ∧ writtenBy k ws ≠ [])
           ∧ NoDup ws.*2
           ∧ (∃ calls, writeLog s' = writeLog s ++ calls
                       ∧ Forall2 (writeOfPosition kvIndices blobs commits) ws.*2 calls)
           ∧ (r = None →
              (∀ k : nat, Z.of_nat k < Z.min N M →
                 writtenBy k ws = positionsOf (Z.of_nat k) N M)
              ∧ ws.*2 ≡ₚ seqZ 0 M)
           ∧ (∀ ok : SM → Prop,
                (∀ sm k b c, ok sm →
                   ok (ShardManager.TryWrite sm k b c).1.1
                   ∧ (ShardManager.TryWrite sm k b c).2 = None) →
                ok (shardManager s) → r = None))
  ∧ (x ← DownloadFinishedUnder chanCap (sequentially (length kvIndices)) s newL1
           kvIndices blobs commits;
     Returned x.1)
    = DownloadFinished s newL1 kvIndices blobs commits.
Proof.
  intros HNs HMs [HN Hcap] Hwrap Hl1 Hl2 Hnew Hlast.
  assert (HM : 0 ≤ M) by lia.
  set (tasks := (λ k, positionsOf k N M) <$> seqZ 0 (Z.min N M)).
  assert (Htasks : taskLoop (Z.to_nat M) 0 N M = Returned tasks).
  { rewrite taskLoop_spec by lia. unfold tasks. do 3 f_equal. lia. }
  assert (Hmem : ∀ k i, 0 ≤ k < Z.min N M →
            i ∈ positionsOf k N M ↔ 0 ≤ i < M ∧ i mod N = k).
  { intros k i Hk. apply elem_of_positionsOf; lia. }
  assert (Hown : ∀ i, 0 ≤ i < M → 0 ≤ i mod N < Z.min N M).
  { intros i Hi. pose proof (Z.mod_pos_bound i N ltac:(lia)).
    assert (i mod N ≤ i) by (apply Z.mod_le; lia). lia. }
  split; [done|]. split.
  { intros k Hk. split; [by apply NoDup_positionsOf|]. intros i. by apply Hmem. }
  split; [done|]. split; [|apply DownloadFinished_sequential; lia].
  intros sched.
  assert (Hlen : length tasks = Z.to_nat (Z.min N M)).
  { unfold tasks. rewrite length_fmap, length_seqZ. done. }
  assert (Hin : ∀ t, t ∈ tasks →
            ∃ k : nat, tasks !! k = Some t ∧ t = positionsOf (Z.of_nat k) N M
                       ∧ Z.of_nat k < Z.min N M).
  { intros t [k Hk]%list_elem_of_lookup. exists k. split; [done|].
    by apply tasks_lookup. }
  assert (Hvalid : ∀ t i, t ∈ tasks → i ∈ t → 0 ≤ i < Z.of_nat (length kvIndices)).
  { intros t i (k & _ & -> & Hk)%Hin Hi. apply Hmem in Hi; lia. }
  assert (Hne : ∀ t, t ∈ tasks → t ≠ []).
  { intros t (k & _ & -> & Hk)%Hin Hnil.
    assert (Hkin : Z.of_nat k ∈ positionsOf (Z.of_nat k) N M).
    { apply Hmem; [lia|]. split; [lia|]. apply Z.mod_small. lia. }
    rewrite Hnil in Hkin. by apply elem_of_nil in Hkin. }
  pose proof (DownloadFinishedUnder_run chanCap sched s newL1 kvIndices blobs commits l v
                tasks Hl1 Hl2 Hnew Hlast ltac:(lia)) as Hrun.
  rewrite HNs, HMs in Hrun. specialize (Hrun Htasks).
  set (s1 := with_lastKvIdx (with_l1Source s l) v) in *.
  pose proof (poolInv_start tasks kvIndices blobs commits s1) as Hstart.
  split.
  - (* the call returns *)
    intros Hturns Hmetas.
    destruct (runSchedule_total tasks kvIndices blobs commits s1 sched Hl1 Hl2 Hvalid
                s1 _ Hstart) as (s2 & p & Hsched & Hfin).
    { cbn [workers]. intros k w. rewrite list_lookup_fmap.
      destruct (tasks !! k) as [t|] eqn:Ht; [|done]. intros [= <-].
      apply tasks_lookup in Ht as [-> Hk]. specialize (Hturns k Hk). simpl. lia. }
    rewrite Hrun, Hsched. cbn [mbind outcome_bind]. rewrite Hfin.
    destruct (firstError (chanRes p)) as [e|]; [by eexists _, _, _|].
    pose proof (updateLocalMetas_outcome (zip kvIndices commits) (with_localL1 s2 newL1))
      as Hupd.
    destruct (updateLocalMetas _ _) as [s3| |]; [by eexists _, _, _| |done].
    destruct Hupd as (idx & c & Hzip & Hnone).
    destruct (Hmetas idx c Hzip) as [meta Hmeta]. by rewrite Hmeta in Hnone.
  - (* what it has done when it returns *)
    intros s' r ws. rewrite Hrun.
    destruct (runSchedule s1 _ sched kvIndices blobs commits) as [[s2 p]| |] eqn:Hsched;
      cbn [mbind outcome_bind]; [|done|done].
    destruct (forallb isFinished (workers p)) eqn:Hfin; [|done].
    pose proof (runSchedule_inv tasks kvIndices blobs commits s1 sched s1
                  (mkPool (Writing <$> tasks) [] []) s2 p Hstart Hsched) as Hinv.
    destruct (pool_end tasks kvIndices blobs commits s1 s2 p Hinv Hfin Hne)
      as [Hprefix Hall].
    destruct Hinv as (_ & _ & Hwho & _ & _ & calls & Hlog & Hcalls).
    intros Hret.
    assert (Hres : ws = written p ∧ writeLog s' = writeLog s2
                   ∧ (r = None → firstError (chanRes p) = None)
                   ∧ (firstError (chanRes p) = None → r = None)).
    { destruct (firstError (chanRes p)) as [e|].
      - by injection Hret as <- <- <-.
      - destruct (updateLocalMetas _ _) as [s3| |] eqn:Hupd;
          cbn [mbind outcome_bind] in Hret; [|done|done].
        injection Hret as <- <- <-.
        by apply updateLocalMetas_frame in Hupd as (_ & -> & _). }
    destruct Hres as (-> & Hlog' & Hnone & Hnone').
    assert (Hpre : ∀ k : nat, Z.of_nat k < Z.min N M →
              writtenBy k (written p) `prefix_of` positionsOf (Z.of_nat k) N M
              ∧ writtenBy k (written p) ≠ []).
    { intros k Hk. apply Hprefix. by apply tasks_lookup. }
    assert (Hby : ∀ (k : nat) i, (k, i) ∈ written p →
              Z.of_nat k < Z.min N M ∧ i ∈ positionsOf (Z.of_nat k) N M).
    { intros k i Hki. assert (Hk : Z.of_nat k < Z.min N M).
      { specialize (Hwho k i Hki). rewrite Hlen in Hwho. lia. }
      split; [done|]. destruct (Hpre k Hk) as [[rest ->] _].
      apply elem_of_app. left. by apply elem_of_writtenBy. }
    assert (Hnd : NoDup (written p).*2).
    { apply (NoDup_by_task (λ i, Z.to_nat (i mod N))).
      - intros k i [Hk Hi]%Hby. apply Hmem in Hi; lia.
      - intros k. destruct (decide (Z.of_nat k < Z.min N M)) as [Hk|Hk].
        + destruct (Hpre k Hk) as [[rest Heq] _].
          pose proof (NoDup_positionsOf (Z.of_nat k) N M HN) as Hndk.
          rewrite Heq in Hndk. by apply NoDup_app in Hndk as [? _].
        + destruct (writtenBy k (written p)) as [|i d] eqn:Hd; [constructor|].
          assert (Hi : i ∈ writtenBy k (written p)) by (rewrite Hd; by left).
          apply elem_of_writtenBy, Hby in Hi. lia. }
    split; [done|]. split; [done|]. split; [done|]. split.
    { exists calls. split; [|done]. by rewrite Hlog'. }
    split.
    + intros Hr. specialize (Hall (Hnone Hr)).
      assert (Hfull : ∀ k : nat, Z.of_nat k < Z.min N M →
                writtenBy k (written p) = positionsOf (Z.of_nat k) N M).
      { intros k Hk. apply Hall. by apply tasks_lookup. }
      split; [done|].
      apply NoDup_Permutation; [done|apply NoDup_seqZ|].
      intros i. rewrite elem_of_seqZ. split.
      * intros ([k i'] & -> & [Hk Hi]%Hby)%list_elem_of_fmap. simpl.
        apply Hmem in Hi; lia.
      * intros Hi. specialize (Hown i ltac:(lia)).
        apply list_elem_of_fmap. exists (Z.to_nat (i mod N), i). split; [done|].
        apply elem_of_writtenBy. rewrite Hfull by lia.
        apply Hmem; lia.
    + intros ok Hok Hs. apply Hnone'.
      apply (runSchedule_no_error ok kvIndices blobs commits sched Hok s1
               (mkPool (Writing <$> tasks) [] []) s2 p); [done| |done|done].
      cbn [workers]. intros k e. rewrite list_lookup_fmap. by destruct (tasks !! k).
Qed.

End ScheduleTheory.

(** Three triples and two threads, with the tasks taking turns. Task 1
    writes position 1 before task 0 writes position 0; the call returns
    nil, task 0 has written the positions 0 and 2, task 1 the position 1. *)
Lemma DownloadFinished_partition_witness :
  ∃ s' ws,
    DownloadFinishedUnder 1024 [1; 0; 1; 0; 0]%nat Scenario.s0 42 [1; 2; 3] [[1]; [2]; [3]]
      [Scenario.commitA; Scenario.commitA; Scenario.commitA] = Returned (s', None, ws)
    ∧ ws = [(1%nat, 1); (0%nat, 0); (0%nat, 2)]
    ∧ writtenBy 0 ws = positionsOf 0 2 3 ∧ writtenBy 1 ws = positionsOf 1 2 3
    ∧ ws.*2 ≡ₚ seqZ 0 3
    ∧ ∃ calls, writeLog s' = writeLog Scenario.s0 ++ calls
               ∧ Forall2 (writeOfPosition [1; 2; 3] [[1]; [2]; [3]]
                            [Scenario.commitA; Scenario.commitA; Scenario.commitA])
                   ws.*2 calls.
Proof.
  assert (Hlast : Il1Source.GetStorageLastBlobIdx (l1Source Scenario.s0) 42
                  = (Scenario.ledger0, inl 9)) by reflexivity.
  assert (Hnew : localL1 Scenario.s0 < 42) by (simpl; lia).
  destruct (DownloadFinished_partition 1024 Scenario.s0 42 [1; 2; 3] [[1]; [2]; [3]]
              [Scenario.commitA; Scenario.commitA; Scenario.commitA] 2 3
              Scenario.ledger0 9 eq_refl eq_refl ltac:(lia) ltac:(lia) eq_refl eq_refl
              Hnew Hlast) as (_ & _ & _ & Hsched & _).
  destruct (Hsched [1; 0; 1; 0; 0]%nat) as [_ Hret].
  destruct (DownloadFinishedUnder 1024 [1; 0; 1; 0; 0]%nat Scenario.s0 42 [1; 2; 3]
              [[1]; [2]; [3]] [Scenario.commitA; Scenario.commitA; Scenario.commitA])
    as [[[s' r] ws]| |] eqn:E.
  - destruct (Hret s' r ws eq_refl) as (_ & _ & _ & Hlog & Hnil & Hok).
    assert (Hr : r = None).
    { apply (Hok (λ st, Mem.faulty st = [])); [|reflexivity].
      intros sm k b c Hsm. simpl. unfold Mem.write. rewrite Hsm.
      rewrite bool_decide_eq_false_2 by apply not_elem_of_nil.
      by destruct (Mem.hasSlot sm k). }
    subst r. destruct (Hnil eq_refl) as [Hfull Hperm].
    assert (Hws : ws = [(1%nat, 1); (0%nat, 0); (0%nat, 2)])
      by (vm_compute in E; by injection E as _ <-).
    exists s', ws. split; [done|]. split; [exact Hws|].
    split; [exact (Hfull 0%nat ltac:(lia))|].
    split; [exact (Hfull 1%nat ltac:(lia))|]. done.
  - vm_compute in E. discriminate E.
  - vm_compute in E. discriminate E.
Defined.

(** * The local L1 view along a sequence of calls *)

Section CallsTheory.
Context {SM L : Type} `{!ShardManager.Ops SM} `{!Il1Source.Ops L}
        `{!ShardLayout.Ops SM} `{!Il1Header.Ops L}.
Implicit Types s : StorageManager SM L.

Lemma DownloadAllMetas_localL1 s s' r :
  DownloadAllMetas s = Returned (s', r) → localL1 s' = localL1 s.
Proof.
  unfold DownloadAllMetas.
  destruct (Il1Header.HeaderByNumber (l1Source s) FinalizedBlockNumber)
    as [l [[number|]|msg]]; [|done|by intros [= <- _]].
  cbn [l1Source with_l1Source].
  destruct (Il1Source.GetStorageLastBlobIdx l (wrap_int number)) as [l' [last|msg]];
    [|by intros [= <- _]].
  intros Hsh. by apply downloadShards_frame in Hsh as (? & _).
Qed.

(** Every operation but [Reset] keeps [localL1] or raises it. *)
Lemma step_localL1 s (c : call) s' :
  step s c = Returned s' → isReset c = false → localL1 s ≤ localL1 s'.
Proof.
  destruct c as [newL1|newL1 ks bs cs|k b c|ks bs cs|start limit|from to| |k len|k|]; simpl;
    [done|..]; intros Hstep _; revert Hstep.
  - destruct (DownloadFinished s newL1 ks bs cs) as [[s1 r]| |] eqn:Hdf;
      cbn [mbind outcome_bind]; [|done|done].
    intros [= <-]. by apply DownloadFinished_localL1 in Hdf as [? _].
  - intros [= <-]. unfold CommitBlob.
    destruct (ShardManager.TryEncodeKV _ _ _ _) as [[enc ok] err].
    destruct (negb ok || notNil err); [simpl; lia|]. simpl.
    destruct (commitEncodedBlob s k enc c _) as [s1 r] eqn:Hrule.
    apply commitEncodedBlob_frame in Hrule as [(Hl & _) _]. simpl. lia.
  - unfold CommitBlobs. destruct (bool_decide _ || bool_decide _).
    { cbn [mbind outcome_bind]. intros [= <-]. simpl. lia. }
    destruct (encodeBlobs _ _) as [enc| |]; cbn [mbind outcome_bind]; [|done|done].
    destruct (commitBlobsLoop s _ []) as [s1 inserted] eqn:Hloop.
    cbn [mbind outcome_bind]. intros [= <-].
    apply commitBlobsLoop_frame in Hloop as (Hl & _). simpl. lia.
  - unfold CommitEmptyBlobs.
    destruct (encodeEmptyLoop _ _ _ _) as [items| |]; cbn [mbind outcome_bind]; [|done|done].
    destruct (commitEmptyLoop s _ 0 start) as [[s1 inserted] next] eqn:Hloop.
    cbn [mbind outcome_bind]. intros [= <-].
    apply commitEmptyLoop_frame in Hloop as (Hl & _). simpl. lia.
  - destruct (downloadMetaInParallel s from to) as [[s1 r]| |] eqn:Hp;
      cbn [mbind outcome_bind]; [|done|done].
    intros [= <-]. apply downloadMetaInParallel_frame in Hp as (Hl & _). simpl. lia.
  - destruct (DownloadAllMetas s) as [[s1 r]| |] eqn:Hall;
      cbn [mbind outcome_bind]; [|done|done].
    intros [= <-]. apply DownloadAllMetas_localL1 in Hall. simpl. lia.
  - intros [= <-]. lia.
  - intros [= <-]. lia.
  - intros [= <-]. lia.
Qed.

Lemma history_suffix (calls : list call) :
  ∀ s (i : nat) si,
    (s :: history s calls) !! i = Some si →
    drop i (s :: history s calls) = si :: history si (drop i calls).
Proof.
  induction calls as [|c cs IH]; intros s i si.
  - simpl. destruct i as [|i]; [|done]. by intros [= <-].
  - destruct i as [|i].
    + by intros [= <-].
    + simpl. destruct (step s c) as [s1| |] eqn:Hstep; [|done..].
      intros Hi. apply (IH s1 i si Hi).
Qed.

Lemma history_localL1 (calls : list call) :
  ∀ s (j : nat) sj,
    (s :: history s calls) !! j = Some sj →
    (∀ (k : nat) c, (k < j)%nat → calls !! k = Some c → isReset c = false) →
    localL1 s ≤ localL1 sj.
Proof.
  induction calls as [|c cs IH]; intros s j sj.
  - destruct j as [|j]; [|done]. intros [= <-] _. lia.
  - destruct j as [|j]; [intros [= <-] _; lia|].
    simpl. destruct (step s c) as [s1| |] eqn:Hstep; [|done..].
    intros Hj Hnone.
    apply step_localL1 in Hstep; [|by apply (Hnone 0%nat); [lia|]].
    specialize (IH s1 j sj Hj).
    assert (localL1 s1 ≤ localL1 sj); [|lia].
    apply IH. intros k c' Hk Hc'. apply (Hnone (S k)); [lia|done].
Qed.

(** C3. A call of [DownloadFinished] with [newL1 <= localL1] returns an
    error and the state it was given, unchanged in every field, history of
    writes included. Along every sequence of operations, as far as they
    return, [localL1] does not decrease over a stretch of calls without a
    [Reset]; and a call after which [localL1] is lower than before is a
    [Reset], which sets [localL1] to its argument. *)
Theorem localL1_advances_without_Reset :
  (∀ s (newL1 : Z) (kvIndices : list Z) (blobs : list bytes) (commits : list Hash),
     newL1 ≤ localL1 s →
     ∃ e, DownloadFinished s newL1 kvIndices blobs commits = Returned (s, Some e)
          ∧ (e = errInvalidParamsLens ∨ e = errNewL1Older))
  ∧ (∀ s (calls : list call) (i j : nat) si sj,
       (i ≤ j)%nat →
       (s :: history s calls) !! i = Some si →
       (s :: history s calls) !! j = Some sj →
       (∀ (k : nat) c, (i ≤ k < j)%nat → calls !! k = Some c → isReset c = false) →
       localL1 si ≤ localL1 sj)
  ∧ (∀ s (c : call) s',
       step s c = Returned s' → localL1 s' < localL1 s →
       ∃ newL1, c = DoReset newL1 ∧ (Reset s newL1).2 = None ∧ localL1 s' = newL1).
Proof.
  split; [|split].
  - intros s newL1 kvIndices blobs commits Hle. unfold DownloadFinished.
    destruct (bool_decide _ || bool_decide _); [eauto|].
    rewrite (proj2 (Z.leb_le _ _) Hle). eauto.
  - intros s calls i j si sj Hij Hi Hj Hnone.
    pose proof (history_suffix calls s i si Hi) as Hdrop.
    assert (Hj' : drop i (s :: history s calls) !! (j - i)%nat = Some sj).
    { rewrite lookup_drop. by replace (i + (j - i))%nat with j by lia. }
    rewrite Hdrop in Hj'.
    apply (history_localL1 (drop i calls) si (j - i)%nat sj Hj').
    intros k c Hk. rewrite lookup_drop. apply Hnone. lia.
  - intros s c s' Hstep Hlower.
    destruct (isReset c) eqn:Hc.
    + destruct c; try discriminate Hc. simpl in Hstep. injection Hstep as <-.
      exists newL1. split; [done|]. revert Hlower. unfold Reset.
      destruct (Il1Source.GetStorageLastBlobIdx (l1Source s) newL1) as [l [v|e]]; simpl.
      * done.
      * lia.
    + apply step_localL1 in Hstep; [lia|done].
Qed.

End CallsTheory.

(** The claim as worded fails here. The view is block 5; [DownloadFinished]
    moves it to block 42; [Reset 3] then returns nil and the view is block
    3, older than both. *)
Lemma Reset_lowers_localL1 :
  ∃ s1 s2,
    history Scenario.s0 [DoDownloadFinished 42 [1] [[1]] [Scenario.commitA]; DoReset 3]
    = [s1; s2]
    ∧ Reset s1 3 = (s2, None)
    ∧ localL1 Scenario.s0 = 5 ∧ localL1 s1 = 42 ∧ localL1 s2 = 3.
Proof.
  eexists _, _. split; [vm_compute; reflexivity|]. split; [vm_compute; reflexivity|].
  vm_compute. done.
Qed.

Lemma localL1_advances_without_Reset_witness :
  (∃ e, DownloadFinished Scenario.s0 5 [1] [[1]] [Scenario.commitA]
        = Returned (Scenario.s0, Some e))
  ∧ ∃ s1 s2, (Scenario.s0 :: history Scenario.s0
                [DoDownloadFinished 42 [1] [[1]] [Scenario.commitA]; DoDownloadAllMetas])
             !! 1%nat = Some s1
             ∧ (Scenario.s0 :: history Scenario.s0
                  [DoDownloadFinished 42 [1] [[1]] [Scenario.commitA]; DoDownloadAllMetas])
               !! 2%nat = Some s2
             ∧ localL1 Scenario.s0 ≤ localL1 s1 ≤ localL1 s2.
Proof.
  destruct (@localL1_advances_without_Reset Mem.store Mem.ledger _ _ _ _)
    as (Hstale & Hmono & _).
  split.
  - destruct (Hstale Scenario.s0 5 [1] [[1]] [Scenario.commitA]) as (e & He & _).
    + vm_compute. discriminate.
    + by exists e.
  - eexists _, _. split; [vm_compute; reflexivity|]. split; [vm_compute; reflexivity|].
    split.
    + apply (Hmono Scenario.s0
               [DoDownloadFinished 42 [1] [[1]] [Scenario.commitA]; DoDownloadAllMetas]
               0%nat 1%nat); [lia|reflexivity|vm_compute; reflexivity|].
      intros [|[|k]] c Hk; [by intros [= <-]|lia|lia].
    + apply (Hmono Scenario.s0
               [DoDownloadFinished 42 [1] [[1]] [Scenario.commitA]; DoDownloadAllMetas]
               1%nat 2%nat); [lia|vm_compute; reflexivity|vm_compute; reflexivity|].
      intros [|[|[|k]]] c Hk; [lia|by intros [= <-]|lia|lia].
Defined.
